(** * mewrev/pe: the header resolution pipeline of a PE parser

    A shallow embedding of the Go package [pe] (DOS header, COFF file header,
    optional header, section headers, section data, overlay, DOS stub, the
    renderings of flags and codes, and FPO records), followed by the
    properties established about it.

    Conventions.
    - A Go [uintN] value is a [Z]; every wrap-around of the source is written
      out with [mod 2 ^ N].
    - The byte source [file.r] is a [list byte]; it behaves like the [*os.File]
      that [Open] hands to [New]: [ReadAt] fills the buffer or reports
      [io.EOF], and [Seek(0, io.SeekEnd)] returns the length.
    - A method of [*File] is a computation in the monad [M]: it threads the
      [File] struct (the cached headers) and a chronological trace of its
      effects (reads, [make] calls, log lines).  The trace records requests;
      memory is taken to be granted. *)

From Stdlib Require Import ZArith List Lia Bool String Ascii.
From Stdlib Require DecimalString Finite.
From coqutil Require Import Byte Word.LittleEndianList.
Import ListNotations.
Local Open Scope Z_scope.

(* ===================================================================== *)
(** ** Fixed-width integers and formatting *)
(* ===================================================================== *)

Definition uint8 (z : Z) : Z := z mod 2 ^ 8.
Definition uint16 (z : Z) : Z := z mod 2 ^ 16.
Definition uint32 (z : Z) : Z := z mod 2 ^ 32.
Definition uint64 (z : Z) : Z := z mod 2 ^ 64.

Definition maxint64 : Z := 2 ^ 63 - 1.

Definition Zlen {A} (l : list A) : Z := Z.of_nat (List.length l).

(** [s[off : off+n]] clipped to the slice, as a pure function. *)
Definition slice {A} (l : list A) (off n : Z) : list A :=
  firstn (Z.to_nat n) (skipn (Z.to_nat off) l).

(** Little-endian decoding of the [n] bytes at [off] ([binary.LittleEndian]). *)
Definition le_at (bs : list byte) (off : Z) (n : Z) : Z :=
  le_combine (slice bs off n).

Definition u16 (bs : list byte) (off : Z) : Z := le_at bs off 2.
Definition u32 (bs : list byte) (off : Z) : Z := le_at bs off 4.

(** [n] consecutive uint16 values starting at [off]. *)
Definition u16s (bs : list byte) (off : Z) (n : nat) : list Z :=
  map (fun i => u16 bs (off + 2 * Z.of_nat i)) (seq 0 n).

Definition hexdigit (d : Z) : ascii :=
  if d <? 10 then ascii_of_nat (Z.to_nat (48 + d))
  else ascii_of_nat (Z.to_nat (65 + (d - 10))).

(** The [n] least significant hexadecimal digits of [z], upper case. *)
Fixpoint hexdigits (n : nat) (z : Z) : string :=
  match n with
  | O => EmptyString
  | S n' => (hexdigits n' (z / 16) ++ String (hexdigit (z mod 16)) EmptyString)%string
  end.

(** [fmt.Sprintf("0x%08X", v)] for a [uint32]. *)
Definition fmt_0x08X (z : Z) : string := ("0x" ++ hexdigits 8 z)%string.

(** [fmt.Sprintf("%d", v)] for a non-negative [int]. *)
Definition fmt_d (z : Z) : string :=
  DecimalString.NilZero.string_of_uint (N.to_uint (Z.to_N z)).

(** [strings.Join]. *)
Definition Join (ss : list string) (sep : string) : string := String.concat sep ss.

(* ===================================================================== *)
(** ** FPO records *)
(* ===================================================================== *)

(** [type FrameType uint8] and its constants. *)
Definition FrameType := Z.
Definition FrameTypeFPO : FrameType := 0.
Definition FrameTypeNonFPO : FrameType := 3.
Definition FrameTypeTrap : FrameType := 1.
Definition FrameTypeTSS : FrameType := 2.

Module FPODataRaw.
Record t : Type := mk {
  OffsetStart : Z; (* uint32 *)
  FuncSize : Z;    (* uint32 *)
  NLocals : Z;     (* uint32 *)
  Params : Z;      (* uint16 *)
  Prolog : Z;      (* uint8 *)
  Bitfield : Z     (* uint8 *)
}.

(** The values the Go struct can hold. *)
Definition wf (raw : t) : Prop :=
  0 <= OffsetStart raw < 2 ^ 32 /\
  0 <= FuncSize raw < 2 ^ 32 /\
  0 <= NLocals raw < 2 ^ 32 /\
  0 <= Params raw < 2 ^ 16 /\
  0 <= Prolog raw < 2 ^ 8 /\
  0 <= Bitfield raw < 2 ^ 8.
End FPODataRaw.

Module FPOData.
Record t : Type := mk {
  OffsetStart : Z; (* uint32 *)
  FuncSize : Z;    (* uint32 *)
  NLocals : Z;     (* uint64 *)
  Params : Z;      (* uint32 *)
  Prolog : Z;      (* uint8 *)
  Regs : Z;        (* uint8 *)
  HasSEH : bool;
  UseBP : bool;
  Reserved : Z;    (* uint8 *)
  Frame : FrameType
}.
End FPOData.

(** [func ParseFPOData(raw FPODataRaw) FPOData].  In Go [&] and [>>] have the
    same precedence and associate to the left, so [b & 0x20 >> 5] is
    [(b & 0x20) >> 5]. *)
Definition ParseFPOData (raw : FPODataRaw.t) : FPOData.t :=
  let b := FPODataRaw.Bitfield raw in
  let regs := uint8 (Z.land b 0x07) in
  let hasSEH := negb (Z.land b 0x08 =? 0) in
  let useBP := negb (Z.land b 0x10 =? 0) in
  let reserved := uint8 (Z.shiftr (Z.land b 0x20) 5) in
  let frame := uint8 (Z.shiftr (Z.land b 0xC0) 6) in
  {| FPOData.OffsetStart := FPODataRaw.OffsetStart raw;
     FPOData.FuncSize := FPODataRaw.FuncSize raw;
     FPOData.NLocals := uint64 (uint64 (FPODataRaw.NLocals raw) * 4);
     FPOData.Params := uint32 (uint32 (FPODataRaw.Params raw) * 4);
     FPOData.Prolog := FPODataRaw.Prolog raw;
     FPOData.Regs := regs;
     FPOData.HasSEH := hasSEH;
     FPOData.UseBP := useBP;
     FPOData.Reserved := reserved;
     FPOData.Frame := frame |}.

(* ===================================================================== *)
(** ** Section flags *)
(* ===================================================================== *)

Module SectFlag.
(** [type SectFlag uint32]. *)
Definition t := Z.

Definition SectFlagCode : t := 0x00000020.
Definition SectFlagData : t := 0x00000040.
Definition SectFlagBSS : t := 0x00000080.
Definition SectFlagLinkInfo : t := 0x00000200.
Definition SectFlagLinkRemove : t := 0x00000800.
Definition SectFlagLinkCOMDAT : t := 0x00001000.
Definition SectFlagDeferSpecExc : t := 0x00004000.
Definition SectFlagGPRef : t := 0x00008000.
Definition SectFlagObjAlign1 : t := 0x00100000.
Definition SectFlagObjAlign2 : t := 0x00200000.
Definition SectFlagObjAlign4 : t := 0x00300000.
Definition SectFlagObjAlign8 : t := 0x00400000.
Definition SectFlagObjAlign16 : t := 0x00500000.
Definition SectFlagObjAlign32 : t := 0x00600000.
Definition SectFlagObjAlign64 : t := 0x00700000.
Definition SectFlagObjAlign128 : t := 0x00800000.
Definition SectFlagObjAlign256 : t := 0x00900000.
Definition SectFlagObjAlign512 : t := 0x00A00000.
Definition SectFlagObjAlign1024 : t := 0x00B00000.
Definition SectFlagObjAlign2048 : t := 0x00C00000.
Definition SectFlagObjAlign4096 : t := 0x00D00000.
Definition SectFlagObjAlign8192 : t := 0x00E00000.
Definition SectFlagRelocsOverflow : t := 0x01000000.
Definition SectFlagMemDiscard : t := 0x02000000.
Definition SectFlagMemNoCache : t := 0x04000000.
Definition SectFlagMemNoPage : t := 0x08000000.
Definition SectFlagMemShared : t := 0x10000000.
Definition SectFlagMemExec : t := 0x20000000.
Definition SectFlagMemRead : t := 0x40000000.
Definition SectFlagMemWrite : t := 0x80000000.

(** [var sectFlagName = map[SectFlag]string{...}], as an association list. *)
Definition sectFlagName : list (t * string) :=
  [ (SectFlagCode, "code");
    (SectFlagData, "data");
    (SectFlagBSS, "bss");
    (SectFlagLinkInfo, "link info");
    (SectFlagLinkRemove, "link remove");
    (SectFlagLinkCOMDAT, "link COMDAT");
    (SectFlagDeferSpecExc, "defer speculative exceptions");
    (SectFlagGPRef, "global pointer reference");
    (SectFlagRelocsOverflow, "relocs overflow");
    (SectFlagMemDiscard, "mem discard");
    (SectFlagMemNoCache, "mem no cache");
    (SectFlagMemNoPage, "mem no page");
    (SectFlagMemShared, "mem shared");
    (SectFlagMemExec, "mem exec");
    (SectFlagMemRead, "mem read");
    (SectFlagMemWrite, "mem write") ]%string.

(** [s, ok := m[k]]. *)
Fixpoint lookup (m : list (t * string)) (k : t) : option string :=
  match m with
  | [] => None
  | (k', s) :: m' => if k' =? k then Some s else lookup m' k
  end.

(** [SectFlag(1 << i)]. *)
Definition bit (i : Z) : t := uint32 (Z.shiftl 1 i).

Definition is_align_mask (mask : t) : bool :=
  (SectFlagObjAlign1 <=? mask) && (mask <=? SectFlagObjAlign8192).

(** One iteration of the [for i := uint(0); i < 32; i++] loop; the loop
    state is the remaining [flags] and the strings collected so far. *)
Definition step (st : t * list string) (i : Z) : t * list string :=
  let '(flags, ss) := st in
  let mask := bit i in
  if is_align_mask mask then st
  else if negb (Z.land flags mask =? 0) then
    let flags' := Z.ldiff flags mask in
    let s := match lookup sectFlagName mask with
             | Some s => s
             | None => ("unknown flag: " ++ fmt_0x08X mask)%string
             end in
    (flags', ss ++ [s])
  else st.

Definition loop (flags : t) : t * list string :=
  fold_left step (map Z.of_nat (seq 0 32)) (flags, []).

(** The [switch flags] of the alignment value; [0] when no case matches. *)
Definition align_of (flags : t) : Z :=
  if flags =? SectFlagObjAlign1 then 1
  else if flags =? SectFlagObjAlign2 then 2
  else if flags =? SectFlagObjAlign4 then 4
  else if flags =? SectFlagObjAlign8 then 8
  else if flags =? SectFlagObjAlign16 then 16
  else if flags =? SectFlagObjAlign32 then 32
  else if flags =? SectFlagObjAlign64 then 64
  else if flags =? SectFlagObjAlign128 then 128
  else if flags =? SectFlagObjAlign256 then 256
  else if flags =? SectFlagObjAlign512 then 512
  else if flags =? SectFlagObjAlign1024 then 1024
  else if flags =? SectFlagObjAlign2048 then 2048
  else if flags =? SectFlagObjAlign4096 then 4096
  else if flags =? SectFlagObjAlign8192 then 8192
  else 0.

(** The slice [ss] just before the final [len(ss) == 0] test. *)
Definition parts (flags : t) : list string :=
  let '(flags, ss) := loop flags in
  if (SectFlagObjAlign1 <=? flags) && (flags <=? SectFlagObjAlign8192) then
    let align := align_of flags in
    let s := if align =? 0
             then ("unknown align flag: " ++ fmt_0x08X flags)%string
             else ("align " ++ fmt_d align)%string in
    ss ++ [s]
  else ss.

(** [func (flags SectFlag) String() string]. *)
Definition String (flags : t) : string :=
  let ss := parts flags in
  if (List.length ss =? 0)%nat then "none"%string else Join ss "|".
End SectFlag.

(* ===================================================================== *)
(** ** The byte source and the readers of package [io] *)
(* ===================================================================== *)

Inductive ioerr : Type :=
| EOF                 (* io.EOF *)
| ErrUnexpectedEOF    (* io.ErrUnexpectedEOF *)
| ErrNegativeOffset.  (* "negative offset" *)

(** [file.r.ReadAt(p, off)] with [len(p) = n]: the bytes delivered and the
    error.  Fewer than [n] bytes always come with [io.EOF]; an empty [p] reads
    nothing and reports no error.  The last point is how [*os.File] answers;
    a [*bytes.Reader] asked for no bytes at or past its end reports [io.EOF],
    so results that hang on a read of no bytes hold for a file opened with
    [Open]. *)
Definition ReadAt (r : list byte) (n off : Z) : list byte * option ioerr :=
  if off <? 0 then ([], Some ErrNegativeOffset)
  else if n <=? 0 then ([], None)
  else
    let bs := slice r off n in
    (bs, if Zlen bs <? n then Some EOF else None).

(** [file.r.Seek(0, io.SeekEnd)]. *)
Definition SeekEnd (r : list byte) : Z := Zlen r.

Module SectionReader.
(** [io.SectionReader]: a window [[base, limit)] onto the source and the
    current offset [off]. *)
Record t : Type := mk { base : Z; off : Z; limit : Z }.

(** [io.NewSectionReader(r, off, n)]. *)
Definition New (off n : Z) : t :=
  let remaining := if off <=? maxint64 - n then n + off else maxint64 in
  {| base := off; off := off; limit := remaining |}.

Definition advance (s : t) (n : Z) : t :=
  {| base := base s; off := off s + n; limit := limit s |}.

(** [s.Read(p)] with [len(p) = k]. *)
Definition Read (r : list byte) (s : t) (k : Z) : list byte * option ioerr * t :=
  if off s >=? limit s then ([], Some EOF, s)
  else
    let max := limit s - off s in
    let k := if k >? max then max else k in
    let '(bs, err) := ReadAt r k (off s) in
    (bs, err, advance s (Zlen bs)).
End SectionReader.

(** The loop of [io.ReadAtLeast(r, buf, min)] with [len(buf) = min = n], which
    is [io.ReadFull]: [buf] holds the bytes received so far. *)
Fixpoint ReadAtLeast_loop (fuel : nat) (r : list byte) (s : SectionReader.t)
    (n : Z) (buf : list byte) (err : option ioerr)
    : option (list byte * option ioerr * SectionReader.t) :=
  if (Zlen buf <? n) && (match err with None => true | Some _ => false end) then
    match fuel with
    | O => None
    | S fuel' =>
        let '(bs, e, s') := SectionReader.Read r s (n - Zlen buf) in
        ReadAtLeast_loop fuel' r s' n (buf ++ bs) e
    end
  else Some (buf, err, s).

(** The error [io.ReadAtLeast] reports after its loop. *)
Definition ReadAtLeast_err (n : Z) (got : Z) (err : option ioerr) : option ioerr :=
  if got >=? n then None
  else if (got >? 0) && (match err with Some EOF => true | _ => false end)
       then Some ErrUnexpectedEOF
  else err.

Definition ReadFull_fuel (fuel : nat) (r : list byte) (s : SectionReader.t) (n : Z)
    : option (list byte * option ioerr * SectionReader.t) :=
  match ReadAtLeast_loop fuel r s n [] None with
  | Some (buf, err, s') => Some (buf, ReadAtLeast_err n (Zlen buf) err, s')
  | None => None
  end.

(** [io.ReadFull(sr, buf)] in closed form ([ReadFull_fuel_closed] below shows
    that the loop computes it in at most two iterations): [n] bytes and no
    error when they lie inside both the window and the source; otherwise the
    bytes that exist, with [io.EOF] when there are none and
    [io.ErrUnexpectedEOF] when there are some. *)
Definition ReadFull (r : list byte) (s : SectionReader.t) (n : Z)
    : list byte * option ioerr * SectionReader.t :=
  let off := SectionReader.off s in
  let avail := Z.min (SectionReader.limit s - off) (Zlen r - off) in
  if n <=? 0 then ([], None, s)
  else if off >=? SectionReader.limit s then ([], Some EOF, s)
  else if off <? 0 then ([], Some ErrNegativeOffset, s)
  else if n <=? avail then (slice r off n, None, SectionReader.advance s n)
  else if avail <=? 0 then ([], Some EOF, s)
  else (slice r off avail, Some ErrUnexpectedEOF, SectionReader.advance s avail).

(** The loop of [ioutil.ReadAll]: [b] is the buffer, [cap] its capacity, and
    [grow] the capacity [append] gives a full buffer.  [None] when the fuel
    runs out before the reader reports an error. *)
Fixpoint ReadAll_loop (grow : Z -> Z) (fuel : nat) (r : list byte)
    (s : SectionReader.t) (b : list byte) (cap : Z)
    : option (list byte * option ioerr) :=
  match fuel with
  | O => None
  | S fuel' =>
      let '(bs, err, s') := SectionReader.Read r s (cap - Zlen b) in
      let b := b ++ bs in
      match err with
      | Some EOF => Some (b, None)
      | Some e => Some (b, Some e)
      | None =>
          let cap := if Zlen b =? cap then grow cap else cap in
          ReadAll_loop grow fuel' r s' b cap
      end
  end.

Definition ReadAll (grow : Z -> Z) (fuel : nat) (r : list byte) (s : SectionReader.t)
    : option (list byte * option ioerr) :=
  ReadAll_loop grow fuel r s [] 512.

(* ===================================================================== *)
(** ** Header structures *)
(* ===================================================================== *)

Definition dosHdrSize : Z := 64.
Definition fileHdrSize : Z := 24.
Definition maxOptHdrSize : Z := 224.
Definition sectHdrSize : Z := 40.

Module DOSHeader.
Record t : Type := mk {
  LastPageSize : Z; NPage : Z; NReloc : Z; NHdrPar : Z; MinAlloc : Z;
  MaxAlloc : Z; SS : Z; SP : Z; Checksum : Z; IP : Z; CS : Z;
  RelocTblOffset : Z; OverlayNum : Z;  (* uint16 each *)
  Res : list Z;                        (* [4]uint16 *)
  OEMID : Z; OEMInfo : Z;              (* uint16 each *)
  Res2 : list Z;                       (* [10]uint16 *)
  PEHdrOffset : Z                      (* uint32 *)
}.

(** [binary.Size] of the struct. *)
Definition size : Z := 62.

(** [new(DOSHeader)]. *)
Definition zero : t :=
  mk 0 0 0 0 0 0 0 0 0 0 0 0 0 (repeat 0 4) 0 0 (repeat 0 10) 0.

(** What [binary.Read(sr, binary.LittleEndian, hdr)] stores from the bytes
    it has read. *)
Definition decode (bs : list byte) : t :=
  {| LastPageSize := u16 bs 0; NPage := u16 bs 2; NReloc := u16 bs 4;
     NHdrPar := u16 bs 6; MinAlloc := u16 bs 8; MaxAlloc := u16 bs 10;
     SS := u16 bs 12; SP := u16 bs 14; Checksum := u16 bs 16;
     IP := u16 bs 18; CS := u16 bs 20; RelocTblOffset := u16 bs 22;
     OverlayNum := u16 bs 24;
     Res := u16s bs 26 4;
     OEMID := u16 bs 34; OEMInfo := u16 bs 36;
     Res2 := u16s bs 38 10;
     PEHdrOffset := u32 bs 58 |}.
End DOSHeader.

Module FileHeader.
Record t : Type := mk {
  Arch : Z;          (* Arch, uint16 *)
  NSection : Z;      (* uint16 *)
  Created : Z;       (* Time, uint32 *)
  SymTblOffset : Z;  (* uint32 *)
  NSymbol : Z;       (* uint32 *)
  OptHdrSize : Z;    (* uint16 *)
  Flags : Z          (* Flag, uint16 *)
}.

Definition size : Z := 20.
Definition zero : t := mk 0 0 0 0 0 0 0.

Definition decode (bs : list byte) : t :=
  {| Arch := u16 bs 0; NSection := u16 bs 2; Created := u32 bs 4;
     SymTblOffset := u32 bs 8; NSymbol := u32 bs 12;
     OptHdrSize := u16 bs 16; Flags := u16 bs 18 |}.
End FileHeader.

Module OptHeader32.
Record t : Type := mk {
  State : Z;              (* OptState, uint16 *)
  MajorLinkVer : Z;       (* uint8 *)
  MinorLinkVer : Z;       (* uint8 *)
  CodeSize : Z; DataSize : Z; BSSSize : Z; EntryRelAddr : Z; CodeBase : Z;
  DataBase : Z; ImageBase : Z; SectAlign : Z; FileAlign : Z;  (* uint32 each *)
  MajorOSVer : Z; MinorOSVer : Z; MajorImageVer : Z; MinorImageVer : Z;
  MajorSubsystemVer : Z; MinorSubsystemVer : Z;               (* uint16 each *)
  Res : Z; ImageSize : Z; HdrSize : Z; Checksum : Z;          (* uint32 each *)
  Subsystem : Z;          (* Subsystem, uint16 *)
  Flags : Z;              (* DLLFlag, uint16 *)
  ReserveStackSize : Z; InitStackSize : Z; ReserveHeapSize : Z;
  InitHeapSize : Z; LoaderFlags : Z; NDataDir : Z             (* uint32 each *)
}.

Definition size : Z := 96.
Definition zero : t :=
  mk 0 0 0 0 0 0 0 0 0 0 0 0 0 0 0 0 0 0 0 0 0 0 0 0 0 0 0 0 0 0.

Definition decode (bs : list byte) : t :=
  {| State := u16 bs 0; MajorLinkVer := le_at bs 2 1; MinorLinkVer := le_at bs 3 1;
     CodeSize := u32 bs 4; DataSize := u32 bs 8; BSSSize := u32 bs 12;
     EntryRelAddr := u32 bs 16; CodeBase := u32 bs 20; DataBase := u32 bs 24;
     ImageBase := u32 bs 28; SectAlign := u32 bs 32; FileAlign := u32 bs 36;
     MajorOSVer := u16 bs 40; MinorOSVer := u16 bs 42;
     MajorImageVer := u16 bs 44; MinorImageVer := u16 bs 46;
     MajorSubsystemVer := u16 bs 48; MinorSubsystemVer := u16 bs 50;
     Res := u32 bs 52; ImageSize := u32 bs 56; HdrSize := u32 bs 60;
     Checksum := u32 bs 64; Subsystem := u16 bs 68; Flags := u16 bs 70;
     ReserveStackSize := u32 bs 72; InitStackSize := u32 bs 76;
     ReserveHeapSize := u32 bs 80; InitHeapSize := u32 bs 84;
     LoaderFlags := u32 bs 88; NDataDir := u32 bs 92 |}.
End OptHeader32.

Module DataDirectory.
Record t : Type := mk {
  RelAddr : Z;  (* uint32 *)
  Size : Z      (* uint32 *)
}.

Definition size : Z := 8.
Definition zero : t := mk 0 0.

Definition decode (bs : list byte) : t :=
  {| RelAddr := u32 bs 0; Size := u32 bs 4 |}.
End DataDirectory.

Module OptHeader.
(** [DataDirs] is a slice: [None] is the nil slice. *)
Record t : Type := mk {
  Hdr32 : OptHeader32.t;                    (* the embedded OptHeader32 *)
  DataDirs : option (list DataDirectory.t)
}.

Definition zero : t := mk OptHeader32.zero None.
End OptHeader.

Module SectHeader.
Record t : Type := mk {
  Name : list byte;    (* [8]byte *)
  VirtSize : Z;        (* uint32 *)
  RelAddr : Z;         (* uint32 *)
  Size : Z;            (* uint32 *)
  Offset : Z;          (* uint32 *)
  RelocsOffset : Z;    (* uint32 *)
  LineNumsOffset : Z;  (* uint32 *)
  NReloc : Z;          (* uint16 *)
  NLineNum : Z;        (* uint16 *)
  Flags : SectFlag.t   (* uint32 *)
}.

Definition size : Z := 40.
Definition zero : t := mk (repeat Byte.x00 8) 0 0 0 0 0 0 0 0 0.

Definition decode (bs : list byte) : t :=
  {| Name := slice bs 0 8;
     VirtSize := u32 bs 8; RelAddr := u32 bs 12; Size := u32 bs 16;
     Offset := u32 bs 20; RelocsOffset := u32 bs 24;
     LineNumsOffset := u32 bs 28; NReloc := u16 bs 32; NLineNum := u16 bs 34;
     Flags := u32 bs 36 |}.
End SectHeader.

(** [n] consecutive records of [sz] bytes each, decoded in order. *)
Definition decode_array {A} (decode : list byte -> A) (sz : Z) (bs : list byte)
    (n : nat) : list A :=
  map (fun i => decode (slice bs (sz * Z.of_nat i) sz)) (seq 0 n).

(** [l[i] = x] for [i] in range. *)
Fixpoint update {A} (l : list A) (i : nat) (x : A) : list A :=
  match l, i with
  | [], _ => []
  | _ :: l', O => x :: l'
  | y :: l', S i' => y :: update l' i' x
  end.

(* ===================================================================== *)
(** ** Errors, effects and the monad of the methods of [*File] *)
(* ===================================================================== *)

(** One constructor per [fmt.Errorf] of the package; [ErrWithStack] is
    [errors.WithStack]. *)
Inductive error : Type :=
| ErrIO (e : ioerr)
| ErrDOSSignatureRead (e : ioerr)  (* parseDOSHeader: unable to read signature *)
| ErrDOSSignature (got : Z)        (* parseDOSHeader: invalid signature *)
| ErrDOSHeaderRead (e : ioerr)     (* parseDOSHeader: unable to read DOS header *)
| ErrFileSignatureRead (e : ioerr) (* parseFileHeader: unable to read signature *)
| ErrFileSignature (got : Z)       (* parseFileHeader: invalid signature *)
| ErrFileHeaderRead (e : ioerr)    (* parseFileHeader: unable to read file header *)
| ErrOptHeaderRead (e : ioerr)     (* parseOptHeader: unable to read optional header *)
| ErrDataDirsRead (e : ioerr)      (* parseOptHeader: unable to read data directories *)
| ErrSectHeaderRead (e : ioerr)    (* parseSectHeaders: error reading section header *)
| ErrDOSStubRead (e : ioerr)       (* DOSStub: error reading DOS stub *)
| ErrWithStack (e : error).

Inductive panic_reason : Type :=
| NilDereference       (* invalid memory address or nil pointer dereference *)
| MakeSliceLenRange.   (* makeslice: len out of range *)

Inductive alloc : Type :=
| AllocDataDirs   (* make([]DataDirectory, n) *)
| AllocSectHdrs   (* make([]*SectHeader, n) *)
| AllocOverlay    (* make([]byte, n) in parseOverlay *)
| AllocDOSStub.   (* make([]byte, n) in DOSStub *)

Inductive logmsg : Type :=
| LogDOSReserved (i : Z) (v : Z)  (* parseDOSHeader: invalid reserved field i *)
| LogOptReserved (v : Z).         (* parseOptHeader: invalid reserved field *)

(** The effects of a method, in the order they happen.  [EvRead] and [EvMake]
    record requests: a read asked of [io.ReadFull], a call of [make].  A
    method goes on after [EvMake] as if the memory had been granted; running
    out of memory is not modelled, so what follows a [make] is meaningful for
    counts the process can serve. *)
Inductive event : Type :=
| EvRead (off n : Z)          (* a request for [n] bytes at file offset [off] *)
| EvMake (what : alloc) (n : Z)  (* a call of [make] for [n] elements *)
| EvLog (m : logmsg).         (* a [log.Printf] *)

Inductive outcome (A : Type) : Type :=
| Ok (a : A)
| Err (e : error)
| Panic (p : panic_reason)
| OutOfFuel.
Arguments Ok {A} a.
Arguments Err {A} e.
Arguments Panic {A} p.
Arguments OutOfFuel {A}.

Module File.
(** [type File struct]: a pointer field is an [option] ([None] is nil), and
    so is a slice field ([Some []] is an empty, non-nil slice).  An element
    of [sectHdrs] is a pointer too. *)
Record t : Type := mk {
  doshdr : option DOSHeader.t;
  fileHdr : option FileHeader.t;
  opthdr : option OptHeader.t;
  sectHdrs : option (list (option SectHeader.t));
  overlay : option (list byte);
  r : list byte
}.

Definition set_doshdr (v : option DOSHeader.t) (f : t) : t :=
  mk v (fileHdr f) (opthdr f) (sectHdrs f) (overlay f) (r f).
Definition set_fileHdr (v : option FileHeader.t) (f : t) : t :=
  mk (doshdr f) v (opthdr f) (sectHdrs f) (overlay f) (r f).
Definition set_opthdr (v : option OptHeader.t) (f : t) : t :=
  mk (doshdr f) (fileHdr f) v (sectHdrs f) (overlay f) (r f).
Definition set_sectHdrs (v : option (list (option SectHeader.t))) (f : t) : t :=
  mk (doshdr f) (fileHdr f) (opthdr f) v (overlay f) (r f).
Definition set_overlay (v : option (list byte)) (f : t) : t :=
  mk (doshdr f) (fileHdr f) (opthdr f) (sectHdrs f) v (r f).

(** [func New(r ReadAtSeeker) (file *File, err error)]. *)
Definition New (src : list byte) : t := mk None None None None None src.
End File.

Definition state : Type := File.t * list event.

Definition M (A : Type) : Type := state -> outcome A * state.

Definition ret {A} (a : A) : M A := fun st => (Ok a, st).

Definition bind {A B} (c : M A) (k : A -> M B) : M B :=
  fun st =>
    match c st with
    | (Ok a, st') => k a st'
    | (Err e, st') => (Err e, st')
    | (Panic p, st') => (Panic p, st')
    | (OutOfFuel, st') => (OutOfFuel, st')
    end.

Declare Scope monad_scope.
Delimit Scope monad_scope with monad.
Notation "x <- c ;; k" := (bind c (fun x => k))
  (at level 61, c at next level, right associativity) : monad_scope.
Notation "' pat <- c ;; k" := (bind c (fun x => match x with pat => k end))
  (at level 61, pat pattern, c at next level, right associativity) : monad_scope.
Notation "c ;;; k" := (bind c (fun _ => k))
  (at level 61, right associativity) : monad_scope.
Local Open Scope monad_scope.

Definition fail {A} (e : error) : M A := fun st => (Err e, st).
Definition panic {A} (p : panic_reason) : M A := fun st => (Panic p, st).
Definition out_of_fuel {A} : M A := fun st => (OutOfFuel, st).

(** [if err != nil { return wrap(err) }]. *)
Definition map_err {A} (wrap : error -> error) (c : M A) : M A :=
  fun st =>
    match c st with
    | (Err e, st') => (Err (wrap e), st')
    | x => x
    end.

Definition get_file : M File.t := fun st => (Ok (fst st), st).
Definition modify_file (g : File.t -> File.t) : M unit :=
  fun st => (Ok tt, (g (fst st), snd st)).
Definition emit (e : event) : M unit :=
  fun st => (Ok tt, (fst st, snd st ++ [e])).

(** [p.field] for a pointer [p]. *)
Definition deref {A} (p : option A) : M A :=
  match p with
  | Some a => ret a
  | None => panic NilDereference
  end.

(** [io.ReadFull(sr, buf)] with [len(buf) = n], on the source of the file;
    [binary.Read] of a value of [n] bytes reads its bytes this way. *)
Definition io_ReadFull (sr : SectionReader.t) (n : Z)
    : M (list byte * option ioerr * SectionReader.t) :=
  f <- get_file ;;
  emit (EvRead (SectionReader.off sr) n) ;;;
  ret (ReadFull (File.r f) sr n).

Definition binary_Read := io_ReadFull.

Definition when (b : bool) (c : M unit) : M unit := if b then c else ret tt.

(** [for i, v := range vs { if v != 0 { log.Printf(...) } }]. *)
Fixpoint log_reserved (i : Z) (vs : list Z) : M unit :=
  match vs with
  | [] => ret tt
  | v :: vs' =>
      when (negb (v =? 0)) (emit (EvLog (LogDOSReserved i v))) ;;;
      log_reserved (i + 1) vs'
  end.

Definition mz : Z := 0x5A4D.
Definition pe : Z := 0x00004550.

Module Import FileMethods.

(** [func (file *File) parseDOSHeader() error]. *)
Definition parseDOSHeader : M unit :=
  let sr := SectionReader.New 0 dosHdrSize in
  '(bs, err, sr) <- binary_Read sr 2 ;;
  match err with
  | Some e => fail (ErrDOSSignatureRead e)
  | None =>
      let magic := le_combine bs in
      if negb (magic =? mz) then fail (ErrDOSSignature magic)
      else
        modify_file (File.set_doshdr (Some DOSHeader.zero)) ;;;
        '(bs, err, sr) <- binary_Read sr DOSHeader.size ;;
        match err with
        | Some e => fail (ErrDOSHeaderRead e)
        | None =>
            let h := DOSHeader.decode bs in
            modify_file (File.set_doshdr (Some h)) ;;;
            log_reserved 0 (DOSHeader.Res h) ;;;
            log_reserved 0 (DOSHeader.Res2 h)
        end
  end.

(** [func (file *File) DOSHeader() (doshdr *DOSHeader, err error)]. *)
Definition DOSHeader : M (option DOSHeader.t) :=
  f <- get_file ;;
  match File.doshdr f with
  | None => parseDOSHeader
  | Some _ => ret tt
  end ;;;
  f <- get_file ;;
  ret (File.doshdr f).

(** [func (file *File) DOSStub() ([]byte, error)]. *)
Definition DOSStub : M (option (list byte)) :=
  doshdr <- DOSHeader ;;
  h <- deref doshdr ;;
  let peoff := DOSHeader.PEHdrOffset h in
  let stubSize := uint32 (peoff - dosHdrSize) in
  if stubSize <=? 0 then ret None
  else
    let stubOff := dosHdrSize in
    let sr := SectionReader.New stubOff stubSize in
    emit (EvMake AllocDOSStub stubSize) ;;;
    '(dosStub, err, _) <- io_ReadFull sr stubSize ;;
    match err with
    | Some e => fail (ErrDOSStubRead e)
    | None => ret (Some dosStub)
    end.

(** [func (file *File) parseFileHeader() error]. *)
Definition parseFileHeader : M unit :=
  doshdr <- DOSHeader ;;
  h <- deref doshdr ;;
  let peoff := DOSHeader.PEHdrOffset h in
  let sr := SectionReader.New peoff fileHdrSize in
  '(bs, err, sr) <- binary_Read sr 4 ;;
  match err with
  | Some e => fail (ErrFileSignatureRead e)
  | None =>
      let magic := le_combine bs in
      if negb (magic =? pe) then fail (ErrFileSignature magic)
      else
        modify_file (File.set_fileHdr (Some FileHeader.zero)) ;;;
        '(bs, err, sr) <- binary_Read sr FileHeader.size ;;
        match err with
        | Some e => fail (ErrFileHeaderRead e)
        | None => modify_file (File.set_fileHdr (Some (FileHeader.decode bs)))
        end
  end.

(** [func (file *File) FileHeader() (fileHdr *FileHeader, err error)]. *)
Definition FileHeader : M (option FileHeader.t) :=
  f <- get_file ;;
  match File.fileHdr f with
  | None => parseFileHeader
  | Some _ => ret tt
  end ;;;
  f <- get_file ;;
  ret (File.fileHdr f).

(** [func (file *File) parseOptHeader() error].  [opthdr] aliases
    [file.opthdr], so every store goes to the struct of the file.  The
    [make] of the data directories is recorded with the declared count and
    then taken to succeed, and the buffer [binary.Read] makes for their bytes
    is not recorded. *)
Definition parseOptHeader : M unit :=
  doshdr <- DOSHeader ;;
  h <- deref doshdr ;;
  let optoff := DOSHeader.PEHdrOffset h + fileHdrSize in
  let sr := SectionReader.New optoff maxOptHdrSize in
  modify_file (File.set_opthdr (Some OptHeader.zero)) ;;;
  '(bs, err, sr) <- binary_Read sr OptHeader32.size ;;
  match err with
  | Some e => fail (ErrOptHeaderRead e)
  | None =>
      let h32 := OptHeader32.decode bs in
      modify_file (File.set_opthdr (Some (OptHeader.mk h32 None))) ;;;
      when (negb (OptHeader32.Res h32 =? 0))
           (emit (EvLog (LogOptReserved (OptHeader32.Res h32)))) ;;;
      let n := OptHeader32.NDataDir h32 in
      emit (EvMake AllocDataDirs n) ;;;
      modify_file (File.set_opthdr
        (Some (OptHeader.mk h32 (Some (repeat DataDirectory.zero (Z.to_nat n)))))) ;;;
      '(bs, err, sr) <- binary_Read sr (DataDirectory.size * n) ;;
      match err with
      | Some e => fail (ErrDataDirsRead e)
      | None =>
          modify_file (File.set_opthdr
            (Some (OptHeader.mk h32
               (Some (decode_array DataDirectory.decode DataDirectory.size bs
                        (Z.to_nat n))))))
      end
  end.

(** [func (file *File) OptHeader() (opthdr *OptHeader, err error)]. *)
Definition OptHeader : M (option OptHeader.t) :=
  f <- get_file ;;
  match File.opthdr f with
  | None => parseOptHeader
  | Some _ => ret tt
  end ;;;
  f <- get_file ;;
  ret (File.opthdr f).

(** [file.sectHdrs[i] = v]. *)
Definition set_sectHdr (i : nat) (v : option SectHeader.t) : M unit :=
  modify_file (fun f =>
    File.set_sectHdrs
      (match File.sectHdrs f with
       | Some l => Some (update l i v)
       | None => None
       end) f).

(** The body of [for i := range file.sectHdrs], over the indices [idxs]. *)
Fixpoint readSectHeaders (idxs : list nat) (sr : SectionReader.t) : M unit :=
  match idxs with
  | [] => ret tt
  | i :: idxs' =>
      set_sectHdr i (Some SectHeader.zero) ;;;
      '(bs, err, sr) <- binary_Read sr SectHeader.size ;;
      match err with
      | Some e => fail (ErrSectHeaderRead e)
      | None =>
          set_sectHdr i (Some (SectHeader.decode bs)) ;;;
          readSectHeaders idxs' sr
      end
  end.

(** [func (file *File) parseSectHeaders() error]. *)
Definition parseSectHeaders : M unit :=
  doshdr <- DOSHeader ;;
  h <- deref doshdr ;;
  let optoff := DOSHeader.PEHdrOffset h + fileHdrSize in
  fileHdr <- FileHeader ;;
  fh <- deref fileHdr ;;
  let sectHdrsOff := optoff + FileHeader.OptHdrSize fh in
  let sectHdrsSize := FileHeader.NSection fh * sectHdrSize in
  let sr := SectionReader.New sectHdrsOff sectHdrsSize in
  let n := Z.to_nat (FileHeader.NSection fh) in
  emit (EvMake AllocSectHdrs (FileHeader.NSection fh)) ;;;
  modify_file (File.set_sectHdrs (Some (repeat None n))) ;;;
  readSectHeaders (seq 0 n) sr.

(** [func (file *File) SectHeaders() (sectHdrs []*SectHeader, err error)]. *)
Definition SectHeaders : M (option (list (option SectHeader.t))) :=
  f <- get_file ;;
  match File.sectHdrs f with
  | None => parseSectHeaders
  | Some _ => ret tt
  end ;;;
  f <- get_file ;;
  ret (File.sectHdrs f).

(** [func (file *File) Section(sectHdr *SectHeader) (data []byte, err error)].
    [grow] and [fuel] are those of [ReadAll].  The reads [ioutil.ReadAll]
    issues and the buffers it grows are not recorded in the trace: the model
    of [Section] gives the bytes and the error, not the effects. *)
Definition Section (grow : Z -> Z) (fuel : nat) (sectHdr : option SectHeader.t)
    : M (list byte) :=
  sh <- deref sectHdr ;;
  let sr := SectionReader.New (SectHeader.Offset sh) (SectHeader.Size sh) in
  f <- get_file ;;
  match ReadAll grow fuel (File.r f) sr with
  | None => out_of_fuel
  | Some (data, None) => ret data
  | Some (_, Some e) => fail (ErrIO e)
  end.

(** The [for _, sectHdr := range sectHdrs] loop of [parseOverlay]. *)
Fixpoint overlayStart_loop (sectHdrs : list (option SectHeader.t))
    (overlayStart : Z) : M Z :=
  match sectHdrs with
  | [] => ret overlayStart
  | sectHdr :: rest =>
      sh <- deref sectHdr ;;
      let sectStart := uint32 (SectHeader.Offset sh + SectHeader.Size sh) in
      overlayStart_loop rest
        (if sectStart >? overlayStart then sectStart else overlayStart)
  end.

(** [func (file *File) parseOverlay() error]. *)
Definition parseOverlay : M unit :=
  sectHdrs <- map_err ErrWithStack SectHeaders ;;
  overlayStart <- overlayStart_loop
                    (match sectHdrs with Some l => l | None => [] end) 0 ;;
  f <- get_file ;;
  let overlayEnd := SeekEnd (File.r f) in
  let overlaySize := overlayEnd - overlayStart in
  if overlaySize <? 0 then panic MakeSliceLenRange
  else
    emit (EvMake AllocOverlay overlaySize) ;;;
    emit (EvRead overlayStart overlaySize) ;;;
    let '(bs, err) := ReadAt (File.r f) overlaySize overlayStart in
    match err with
    | Some e => fail (ErrWithStack (ErrIO e))
    | None => modify_file (File.set_overlay (Some bs))
    end.

(** [func (file *File) Overlay() ([]byte, error)]. *)
Definition Overlay : M (option (list byte)) :=
  f <- get_file ;;
  match File.overlay f with
  | None => parseOverlay
  | Some _ => ret tt
  end ;;;
  f <- get_file ;;
  ret (File.overlay f).

(** [func (file *File) Parse() error]. *)
Definition Parse : M unit :=
  parseDOSHeader ;;;
  parseFileHeader ;;;
  f <- get_file ;;
  fh <- deref (File.fileHdr f) ;;
  when (FileHeader.OptHdrSize fh >? 0) parseOptHeader ;;;
  parseSectHeaders.

End FileMethods.

(** Running a method on a file, with an empty trace. *)
Definition run {A} (c : M A) (f : File.t) : outcome A * state := c (f, []).

(* ===================================================================== *)
(** ** Concrete images *)
(* ===================================================================== *)

Definition zeros (n : nat) : list byte := repeat Byte.x00 n.

(** A DOS header: "MZ", 58 zero bytes, and [PEHdrOffset]. *)
Definition dos_image (peoff : Z) : list byte :=
  le_split 2 mz ++ zeros 58 ++ le_split 4 peoff.

(** "PE\0\0" and a COFF file header for I386 with the given [NSection] and
    [OptHdrSize]. *)
Definition file_header_image (nsection opthdrsize : Z) : list byte :=
  le_split 4 pe ++ le_split 2 0x014C ++ le_split 2 nsection ++ zeros 12
    ++ le_split 2 opthdrsize ++ le_split 2 0.

(** A 32-bit optional header whose only non-zero fields are [State] and
    [NDataDir]. *)
Definition opt_header_image (ndatadir : Z) : list byte :=
  le_split 2 0x010B ++ zeros 90 ++ le_split 4 ndatadir.

(** A section header whose only non-zero fields are [Size] and [Offset]. *)
Definition sect_header_image (size offset : Z) : list byte :=
  zeros 16 ++ le_split 4 size ++ le_split 4 offset ++ zeros 16.

(* ===================================================================== *)
(** ** Notions used in the statements *)
(* ===================================================================== *)

(** The log lines of a reserved group, as a pure function. *)
Fixpoint reserved_events (i : Z) (vs : list Z) : list event :=
  match vs with
  | [] => []
  | v :: vs' =>
      (if negb (v =? 0) then [EvLog (LogDOSReserved i v)] else [])
        ++ reserved_events (i + 1) vs'
  end.

(** The DOS header a source holds, and the trace of parsing it. *)
Definition dos_of (src : list byte) : DOSHeader.t :=
  DOSHeader.decode (slice src 2 DOSHeader.size).

Definition dos_trace (src : list byte) : list event :=
  [EvRead 0 2; EvRead 2 DOSHeader.size]
    ++ reserved_events 0 (DOSHeader.Res (dos_of src))
    ++ reserved_events 0 (DOSHeader.Res2 (dos_of src)).

(** The file header a source holds at [peoff], and the trace of parsing it. *)
Definition filehdr_at (src : list byte) (peoff : Z) : FileHeader.t :=
  FileHeader.decode (slice src (peoff + 4) FileHeader.size).

Definition filehdr_trace (peoff : Z) : list event :=
  [EvRead peoff 4; EvRead (peoff + 4) FileHeader.size].

(** The state after the DOS header of a fresh file has been parsed. *)
Definition file_dos (src : list byte) : File.t :=
  File.set_doshdr (Some (dos_of src)) (File.New src).

Definition peoff (src : list byte) : Z := DOSHeader.PEHdrOffset (dos_of src).

(** The fixed part of the optional header a source holds after the file header
    at [p], and the effects of parsing the optional header. *)
Definition opthdr32_at (src : list byte) (p : Z) : OptHeader32.t :=
  OptHeader32.decode (slice src (p + fileHdrSize) OptHeader32.size).

Definition opt_log (h32 : OptHeader32.t) : list event :=
  if negb (OptHeader32.Res h32 =? 0)
  then [EvLog (LogOptReserved (OptHeader32.Res h32))] else [].

Definition opt_trace (src : list byte) (p : Z) : list event :=
  let h32 := opthdr32_at src p in
  [EvRead (p + fileHdrSize) OptHeader32.size] ++ opt_log h32
    ++ [EvMake AllocDataDirs (OptHeader32.NDataDir h32);
        EvRead (p + fileHdrSize + OptHeader32.size)
               (DataDirectory.size * OptHeader32.NDataDir h32)].

Definition datadirs_at (src : list byte) (p : Z) : list DataDirectory.t :=
  let n := OptHeader32.NDataDir (opthdr32_at src p) in
  decode_array DataDirectory.decode DataDirectory.size
    (slice src (p + fileHdrSize + OptHeader32.size) (DataDirectory.size * n))
    (Z.to_nat n).

(** The state after DOS header and file header of a fresh file have been
    parsed. *)
Definition file_hdrs (src : list byte) : File.t :=
  File.set_fileHdr (Some (filehdr_at src (peoff src))) (file_dos src).

Definition hdrs_trace (src : list byte) : list event :=
  dos_trace src ++ filehdr_trace (peoff src).

(** The section header in the [i]-th 40-byte window after [base], the table of
    the first [n] of them, and the reads of windows [k .. k+m-1]. *)
Definition sect_at (src : list byte) (base : Z) (i : nat) : SectHeader.t :=
  SectHeader.decode (slice src (base + sectHdrSize * Z.of_nat i) sectHdrSize).

Definition sects_at (src : list byte) (base : Z) (n : nat) : list SectHeader.t :=
  map (sect_at src base) (seq 0 n).

Definition sect_trace (base : Z) (k m : nat) : list event :=
  map (fun i => EvRead (base + sectHdrSize * Z.of_nat i) sectHdrSize) (seq k m).

(** The base of the section table of a source. *)
Definition sect_base (src : list byte) : Z :=
  peoff src + fileHdrSize + FileHeader.OptHdrSize (filehdr_at src (peoff src)).

Definition nsection (src : list byte) : Z :=
  FileHeader.NSection (filehdr_at src (peoff src)).

(** An image with one section header, declaring 4 bytes at offset 128. *)
Definition image_one_section : list byte :=
  dos_image 64 ++ file_header_image 1 0 ++ sect_header_image 4 128 ++ zeros 10.



(** The start of the overlay [parseOverlay] computes from section headers. *)
Fixpoint overlay_start (shs : list SectHeader.t) (acc : Z) : Z :=
  match shs with
  | [] => acc
  | sh :: rest =>
      let sectStart := uint32 (SectHeader.Offset sh + SectHeader.Size sh) in
      overlay_start rest (if sectStart >? acc then sectStart else acc)
  end.

(** No method replaces the byte source of the file. *)
Definition preserves_r {A} (c : M A) : Prop :=
  forall st : state, File.r (fst (snd (c st))) = File.r (fst st).

(** An image whose only section declares 40 bytes at offset 128, where the
    source ends. *)
Definition image_section_past_end : list byte :=
  dos_image 64 ++ file_header_image 1 0 ++ sect_header_image 40 128.

(** An image that declares no section, with two bytes after the file header. *)
Definition image_no_section : list byte :=
  dos_image 64 ++ file_header_image 0 0 ++ [Byte.xaa; Byte.xbb].

(** An image with [OptHdrSize = 0] and three section headers. *)
Definition image_no_opthdr : list byte :=
  dos_image 64 ++ file_header_image 3 0 ++ sect_header_image 4 208
    ++ sect_header_image 0 0 ++ sect_header_image 0 0 ++ zeros 4.

(** The text of a flag bit: its name, or the unknown-flag marker. *)
Definition flag_text (mask : Z) : string :=
  match SectFlag.lookup SectFlag.sectFlagName mask with
  | Some s => s
  | None => ("unknown flag: " ++ fmt_0x08X mask)%string
  end.

(** The bits of the alignment value. *)
Definition align_bits : Z := 0x00F00000.

Definition idx32 : list Z := map Z.of_nat (seq 0 32).

(** What bit [i] of [flags] contributes to the rendering. *)
Definition bit_entry (flags : Z) (i : Z) : list string :=
  if negb (SectFlag.is_align_mask (SectFlag.bit i)) && Z.testbit flags i
  then [flag_text (SectFlag.bit i)] else [].

(** What the alignment value contributes to the rendering. *)
Definition align_entry (flags : Z) : list string :=
  let a := Z.land flags align_bits in
  if (SectFlag.SectFlagObjAlign1 <=? a) && (a <=? SectFlag.SectFlagObjAlign8192)
  then [if SectFlag.align_of a =? 0
        then ("unknown align flag: " ++ fmt_0x08X a)%string
        else ("align " ++ fmt_d (SectFlag.align_of a))%string]
  else [].

(** The flags left after the iterations over [idxs]. *)
Definition clear_bits (idxs : list Z) (flags : Z) : Z :=
  fold_left (fun fl i => if SectFlag.is_align_mask (SectFlag.bit i) then fl
                         else Z.ldiff fl (SectFlag.bit i)) idxs flags.

(** The bits that the iterations over [idxs] clear. *)
Definition cleared_mask (idxs : list Z) (acc : Z) : Z :=
  fold_left (fun m i => if SectFlag.is_align_mask (SectFlag.bit i) then m
                        else Z.lor m (SectFlag.bit i)) idxs acc.

(** The shape all five accessors share: parse when the cache is nil, then
    return the cache. *)
Definition cached_accessor {A} (cache : File.t -> option A) (parse : M unit)
    : M (option A) :=
  (f <- get_file ;;
   match cache f with
   | None => parse
   | Some _ => ret tt
   end ;;;
   f <- get_file ;;
   ret (cache f))%monad.

(** An image that declares three sections and ends four bytes into the
    second section header. *)
Definition image_cut_table : list byte :=
  dos_image 64 ++ file_header_image 3 0 ++ sect_header_image 4 208 ++ zeros 4.

(** The effects of [Parse] on a source all of whose headers can be read. *)
Definition parse_trace (src : list byte) : list event :=
  hdrs_trace src
    ++ (if FileHeader.OptHdrSize (filehdr_at src (peoff src)) >? 0
        then opt_trace src (peoff src) else [])
    ++ [EvMake AllocSectHdrs (nsection src)]
    ++ sect_trace (sect_base src) 0 (Z.to_nat (nsection src)).

(** Bits 20-23 of a section-flags word hold the alignment value. *)
Definition outside_align (i : Z) : bool := negb ((20 <=? i) && (i <=? 23)).

(** The texts of a section-flags word: the texts of the set bits outside the
    alignment value, lowest bit first, then "align N" for an alignment value
    [a] from 1 to 14, with [N = 2^(a-1)]. *)
Definition sect_flag_texts (flags : Z) : list string :=
  let a := (flags / 2 ^ 20) mod 16 in
  map (fun i => flag_text (2 ^ i))
      (filter (fun i => Z.testbit flags i && outside_align i) idx32)
    ++ (if (1 <=? a) && (a <=? 14)
        then [("align " ++ fmt_d (2 ^ (a - 1)))%string] else []).


(** An image with [OptHdrSize = 8], eight bytes [0xFF] in the place of the
    optional header, and two section headers. *)
Definition image_two_sections : list byte :=
  dos_image 64 ++ file_header_image 2 8 ++ repeat Byte.xff 8
    ++ sect_header_image 4 200 ++ sect_header_image 6 300.

(** An image whose DOS header is valid and whose four bytes at [PEHdrOffset]
    are "QE\0\0", followed by the bytes of a file header, of an optional
    header with one data directory, and of that directory. *)
Definition image_bad_pe_signature : list byte :=
  dos_image 64
    ++ (le_split 4 0x00004551 ++ le_split 2 0x014C ++ le_split 2 0 ++ zeros 12
          ++ le_split 2 224 ++ le_split 2 0)
    ++ opt_header_image 1 ++ le_split 4 0x1000 ++ le_split 4 0x20.

(* ===================================================================== *)
(** ** The 16-bit flag words and the names of codes *)
(* ===================================================================== *)

(** [fmt.Sprintf("0x%04X", v)] for a [uint16]. *)
Definition fmt_0x04X (z : Z) : string := ("0x" ++ hexdigits 4 z)%string.

(** [s, ok := m[k]] for a map with integer keys, as an association list. *)
Fixpoint map_get (m : list (Z * string)) (k : Z) : option string :=
  match m with
  | [] => None
  | (k', s) :: m' => if k' =? k then Some s else map_get m' k
  end.

Module Arch.
(** [type Arch uint16]. *)
Definition t := Z.

Definition ArchI386 : t := 0x014C.
Definition ArchIA64 : t := 0x0200.
Definition ArchAMD64 : t := 0x8664.

(** [var archName = map[Arch]string{...}]. *)
Definition archName : list (t * string) :=
  [ (ArchI386, "I386"); (ArchIA64, "IA64"); (ArchAMD64, "AMD64") ]%string.

(** [func (arch Arch) String() string]. *)
Definition String (arch : t) : string :=
  match map_get archName arch with
  | Some s => s
  | None => ("unknown arch: " ++ fmt_0x04X (uint16 arch))%string
  end.
End Arch.

Module Flag.
(** [type Flag uint16]; the constants are [1 << iota], the values 4 and 6 of
    [iota] going to blank identifiers. *)
Definition t := Z.

Definition FlagNoReloc : t := Z.shiftl 1 0.
Definition FlagExecutable : t := Z.shiftl 1 1.
Definition FlagNoLineNums : t := Z.shiftl 1 2.
Definition FlagNoSymTbl : t := Z.shiftl 1 3.
Definition FlagLargeAddr : t := Z.shiftl 1 5.
Definition Flag32bit : t := Z.shiftl 1 7.
Definition FlagNoDebug : t := Z.shiftl 1 8.
Definition FlagUSBCopyToSwap : t := Z.shiftl 1 9.
Definition FlagNetCopyToSwap : t := Z.shiftl 1 10.
Definition FlagSystem : t := Z.shiftl 1 11.
Definition FlagDLL : t := Z.shiftl 1 12.
Definition FlagUniprocessor : t := Z.shiftl 1 13.

(** [var flagName = map[Flag]string{...}]. *)
Definition flagName : list (t * string) :=
  [ (FlagNoReloc, "no reloc");
    (FlagExecutable, "executable");
    (FlagNoLineNums, "no line numbers");
    (FlagNoSymTbl, "no symbol table");
    (FlagLargeAddr, "large addresses");
    (Flag32bit, "32-bit");
    (FlagNoDebug, "no debug");
    (FlagUSBCopyToSwap, "USB copy to swap");
    (FlagNetCopyToSwap, "NET copy to swap");
    (FlagSystem, "system file");
    (FlagDLL, "DLL");
    (FlagUniprocessor, "uniprocessor") ]%string.

(** [Flag(1 << i)]. *)
Definition bit (i : Z) : t := uint16 (Z.shiftl 1 i).

(** One iteration of the [for i := uint(0); i < 16; i++] loop; the loop state
    is the remaining [flags] and the strings collected so far. *)
Definition step (st : t * list string) (i : Z) : t * list string :=
  let '(flags, ss) := st in
  let mask := bit i in
  if negb (Z.land flags mask =? 0) then
    let flags' := Z.ldiff flags mask in
    let s := match map_get flagName mask with
             | Some s => s
             | None => ("unknown flag: " ++ fmt_0x04X (uint16 mask))%string
             end in
    (flags', ss ++ [s])
  else st.

(** The slice [ss] after the loop. *)
Definition parts (flags : t) : list string :=
  snd (fold_left step (map Z.of_nat (seq 0 16)) (flags, [])).

(** [func (flags Flag) String() string]. *)
Definition String (flags : t) : string :=
  let ss := parts flags in
  if (List.length ss =? 0)%nat then "none"%string else Join ss "|".
End Flag.

Module OptState.
(** [type OptState uint16]. *)
Definition t := Z.

Definition OptState32 : t := 0x010B.
Definition OptState64 : t := 0x020B.
Definition OptStateROM : t := 0x0107.

(** [var optStateName = map[OptState]string{...}]. *)
Definition optStateName : list (t * string) :=
  [ (OptState32, "32-bit"); (OptState64, "64-bit"); (OptStateROM, "ROM") ]%string.

(** [func (state OptState) String() string]. *)
Definition String (state : t) : string :=
  match map_get optStateName state with
  | Some s => s
  | None => ("unknown state: " ++ fmt_0x04X (uint16 state))%string
  end.
End OptState.

Module Subsystem.
(** [type Subsystem uint16]; the constants are the values of [iota], of which
    4, 6, 8 and 15 go to blank identifiers. *)
Definition t := Z.

Definition SubsystemUnknown : t := 0.
Definition SubsystemNative : t := 1.
Definition SubsystemWinGUI : t := 2.
Definition SubsystemWinCLI : t := 3.
Definition SubsystemOS2CLI : t := 5.
Definition SubsystemPOSIXCLI : t := 7.
Definition SubsystemWinCEGUI : t := 9.
Definition SubsystemEFIApp : t := 10.
Definition SubsystemEFIBootDriver : t := 11.
Definition SubsystemEFIRuntimeDriver : t := 12.
Definition SubsystemEFIROM : t := 13.
Definition SubsystemXbox : t := 14.
Definition SubsystemWinBootApp : t := 16.

(** [var subsystemName = map[Subsystem]string{...}]. *)
Definition subsystemName : list (t * string) :=
  [ (SubsystemUnknown, "unknown");
    (SubsystemNative, "native");
    (SubsystemWinGUI, "Windows GUI");
    (SubsystemWinCLI, "Windows CLI");
    (SubsystemOS2CLI, "OS/2 CLI");
    (SubsystemPOSIXCLI, "POSIX CLI");
    (SubsystemWinCEGUI, "Windows CE GUI");
    (SubsystemEFIApp, "EFI application");
    (SubsystemEFIBootDriver, "EFI boot driver");
    (SubsystemEFIRuntimeDriver, "EFI runtime driver");
    (SubsystemEFIROM, "EFI ROM");
    (SubsystemXbox, "Xbox");
    (SubsystemWinBootApp, "boot application") ]%string.

(** [func (subsystem Subsystem) String() string]. *)
Definition String (subsystem : t) : string :=
  match map_get subsystemName subsystem with
  | Some s => s
  | None => ("unknown subsystem: " ++ fmt_0x04X (uint16 subsystem))%string
  end.
End Subsystem.

Module DLLFlag.
(** [type DLLFlag uint16]. *)
Definition t := Z.

Definition DLLFlagDynBase : t := 0x0040.
Definition DLLFlagForceIntegrity : t := 0x0080.
Definition DLLFlagCanDEP : t := 0x0100.
Definition DLLFlagNoIsolation : t := 0x0200.
Definition DLLFlagNoSEH : t := 0x0400.
Definition DLLFlagNoBind : t := 0x0800.
Definition DLLFlagWDMDriver : t := 0x2000.
Definition DLLFlagCanRDS : t := 0x8000.

(** [var dllFlagName = map[DLLFlag]string{...}]. *)
Definition dllFlagName : list (t * string) :=
  [ (DLLFlagDynBase, "dynamic base");
    (DLLFlagForceIntegrity, "force integrity");
    (DLLFlagCanDEP, "can DEP");
    (DLLFlagNoIsolation, "no isolation");
    (DLLFlagNoSEH, "no SEH");
    (DLLFlagNoBind, "no bind");
    (DLLFlagWDMDriver, "WDM driver");
    (DLLFlagCanRDS, "can RDS") ]%string.

(** [DLLFlag(1 << i)]. *)
Definition bit (i : Z) : t := uint16 (Z.shiftl 1 i).

(** One iteration of the [for i := uint(0); i < 16; i++] loop. *)
Definition step (st : t * list string) (i : Z) : t * list string :=
  let '(flags, ss) := st in
  let mask := bit i in
  if negb (Z.land flags mask =? 0) then
    let flags' := Z.ldiff flags mask in
    let s := match map_get dllFlagName mask with
             | Some s => s
             | None => ("unknown flag: " ++ fmt_0x04X (uint16 mask))%string
             end in
    (flags', ss ++ [s])
  else st.

(** The slice [ss] after the loop. *)
Definition parts (flags : t) : list string :=
  snd (fold_left step (map Z.of_nat (seq 0 16)) (flags, [])).

(** [func (flags DLLFlag) String() string]. *)
Definition String (flags : t) : string :=
  let ss := parts flags in
  if (List.length ss =? 0)%nat then "none"%string else Join ss "|".
End DLLFlag.

(* ===================================================================== *)
(** ** Further notions used in the statements *)
(* ===================================================================== *)

(** The bit positions of a 16-bit word. *)
Definition idx16 : list Z := map Z.of_nat (seq 0 16).

(** The text of a bit of a 16-bit flags word under a table of names. *)
Definition bit_text (names : list (Z * string)) (mask : Z) : string :=
  match map_get names mask with
  | Some s => s
  | None => ("unknown flag: " ++ fmt_0x04X (uint16 mask))%string
  end.

(** The loop body [Flag.String] and [DLLFlag.String] share, over a table. *)
Definition step16 (names : list (Z * string)) (st : Z * list string) (i : Z)
    : Z * list string :=
  let '(flags, ss) := st in
  let mask := uint16 (Z.shiftl 1 i) in
  if negb (Z.land flags mask =? 0)
  then (Z.ldiff flags mask, ss ++ [bit_text names mask])
  else st.

(** The texts of the set bits of a 16-bit word, lowest bit first. *)
Definition set_bit_texts (names : list (Z * string)) (flags : Z) : list string :=
  map (fun i => bit_text names (2 ^ i)) (filter (Z.testbit flags) idx16).

(** A code renders by its name, or by a marker and four hexadecimal digits. *)
Definition code_text (names : list (Z * string)) (marker : string) (v : Z) : string :=
  match map_get names v with
  | Some s => s
  | None => (marker ++ fmt_0x04X (uint16 v))%string
  end.

(** A method respects a relation between the state it starts in and the state
    it leaves, whatever its outcome. *)
Definition respects {A} (R : state -> state -> Prop) (c : M A) : Prop :=
  forall st : state, R st (snd (c st)).

(** What a method may have done to the file: the cache fields whose flag is
    set are as they were, the byte source is as it was, and the trace has only
    grown. *)
Definition frame (dos fh opt sh ov : bool) (st st' : state) : Prop :=
  (dos = true -> File.doshdr (fst st') = File.doshdr (fst st)) /\
  (fh = true -> File.fileHdr (fst st') = File.fileHdr (fst st)) /\
  (opt = true -> File.opthdr (fst st') = File.opthdr (fst st)) /\
  (sh = true -> File.sectHdrs (fst st') = File.sectHdrs (fst st)) /\
  (ov = true -> File.overlay (fst st') = File.overlay (fst st)) /\
  File.r (fst st') = File.r (fst st) /\
  exists tr : list event, snd st' = snd st ++ tr.

(* ===================================================================== *)
(** ** Properties: lists, slices and little-endian values *)
(* ===================================================================== *)

Lemma Zlen_nonneg {A} (l : list A) : 0 <= Zlen l.
Proof. unfold Zlen. lia. Qed.

Lemma Zlen_app {A} (l1 l2 : list A) : Zlen (l1 ++ l2) = Zlen l1 + Zlen l2.
Proof. unfold Zlen. rewrite length_app. lia. Qed.

Lemma Zlen_slice {A} (l : list A) (off n : Z) :
  0 <= off -> Zlen (slice l off n) = Z.max 0 (Z.min n (Zlen l - off)).
Proof.
  intros Hoff. unfold slice, Zlen.
  rewrite length_firstn, length_skipn. lia.
Qed.

Lemma Zlen_slice_full {A} (l : list A) (off n : Z) :
  0 <= off -> 0 <= n -> off + n <= Zlen l -> Zlen (slice l off n) = n.
Proof. intros. rewrite Zlen_slice by assumption. lia. Qed.

Lemma slice_slice {A} (l : list A) (a m b n : Z) :
  0 <= a -> 0 <= b -> 0 <= n -> b + n <= m ->
  slice (slice l a m) b n = slice l (a + b) n.
Proof.
  intros Ha Hb Hn Hm. unfold slice.
  rewrite skipn_firstn_comm, firstn_firstn, skipn_skipn.
  f_equal; [lia|]. f_equal. lia.
Qed.

Lemma le_at_range (bs : list byte) (off n : Z) :
  0 <= n -> 0 <= le_at bs off n < 2 ^ (8 * n).
Proof.
  intros Hn. unfold le_at.
  pose proof (le_combine_bound (slice bs off n)) as [H0 H1].
  split; [exact H0|].
  eapply Z.lt_le_trans; [exact H1|].
  apply Z.pow_le_mono_r; [lia|].
  unfold slice. rewrite length_firstn. lia.
Qed.

Lemma u16_range (bs : list byte) (off : Z) : 0 <= u16 bs off < 2 ^ 16.
Proof. apply (le_at_range bs off 2). lia. Qed.

Lemma u32_range (bs : list byte) (off : Z) : 0 <= u32 bs off < 2 ^ 32.
Proof. apply (le_at_range bs off 4). lia. Qed.

(* ===================================================================== *)
(** ** Properties: FPO records *)
(* ===================================================================== *)

Lemma land_pow2 (b i : Z) :
  0 <= i -> Z.land b (2 ^ i) = Z.b2z (Z.testbit b i) * 2 ^ i.
Proof.
  intros Hi. apply Z.bits_inj'. intros n Hn.
  rewrite Z.land_spec, Z.pow2_bits_eqb by lia.
  destruct (Z.testbit b i) eqn:Hb; cbn [Z.b2z].
  - rewrite Z.mul_1_l, Z.pow2_bits_eqb by lia.
    destruct (Z.eqb_spec i n) as [->|Hne].
    + rewrite Hb. reflexivity.
    + apply andb_false_r.
  - rewrite Z.mul_0_l, Z.bits_0.
    destruct (Z.eqb_spec i n) as [->|Hne].
    + rewrite Hb. reflexivity.
    + apply andb_false_r.
Qed.

Lemma land_bit_nonzero (b i : Z) :
  0 <= i -> negb (Z.land b (2 ^ i) =? 0) = Z.testbit b i.
Proof.
  intros Hi. rewrite land_pow2 by assumption.
  assert (0 < 2 ^ i) by (apply Z.pow_pos_nonneg; lia).
  destruct (Z.testbit b i); cbn [Z.b2z].
  - destruct (Z.eqb_spec (1 * 2 ^ i) 0); [lia|reflexivity].
  - reflexivity.
Qed.

Lemma bitfield_frame (b : Z) :
  0 <= b < 2 ^ 8 -> uint8 (Z.shiftr (Z.land b 0xC0) 6) = b / 64.
Proof.
  intros Hb. unfold uint8.
  assert (Hq : 0 <= b / 64 < 4).
  { split; [apply Z.div_pos; lia|apply Z.div_lt_upper_bound; lia]. }
  replace (Z.shiftr (Z.land b 0xC0) 6) with (b / 64).
  - apply Z.mod_small. lia.
  - rewrite Z.shiftr_land. change (Z.shiftr 0xC0 6) with (Z.ones 2).
    rewrite Z.land_ones, Z.shiftr_div_pow2 by lia.
    change (2 ^ 6) with 64. change (2 ^ 2) with 4.
    symmetry. apply Z.mod_small. exact Hq.
Qed.

(** C7.  For every raw FPO record (with fields in the ranges of their Go
    types), [ParseFPOData] returns a record whose [Regs] is bits 0-2 of the
    bitfield byte, [HasSEH] bit 3, [UseBP] bit 4, [Reserved] bit 5 and [Frame]
    bits 6-7 read as a [FrameType] (so it is [FrameTypeNonFPO] exactly when
    those bits hold 3); [NLocals] and [Params] are 4 times their raw values,
    and [OffsetStart], [FuncSize] and [Prolog] are copied unchanged. *)
Theorem ParseFPOData_decodes (raw : FPODataRaw.t) :
  FPODataRaw.wf raw ->
  let b := FPODataRaw.Bitfield raw in
  let fpo := ParseFPOData raw in
  FPOData.Regs fpo = b mod 2 ^ 3 /\
  FPOData.HasSEH fpo = Z.testbit b 3 /\
  FPOData.UseBP fpo = Z.testbit b 4 /\
  FPOData.Reserved fpo = Z.b2z (Z.testbit b 5) /\
  FPOData.Frame fpo = (b / 2 ^ 6) mod 2 ^ 2 /\
  (FPOData.Frame fpo = FrameTypeNonFPO <-> (Z.testbit b 6 = true /\ Z.testbit b 7 = true)) /\
  FPOData.NLocals fpo = 4 * FPODataRaw.NLocals raw /\
  FPOData.Params fpo = 4 * FPODataRaw.Params raw /\
  FPOData.OffsetStart fpo = FPODataRaw.OffsetStart raw /\
  FPOData.FuncSize fpo = FPODataRaw.FuncSize raw /\
  FPOData.Prolog fpo = FPODataRaw.Prolog raw.
Proof.
  intros (Hos & Hfs & Hnl & Hpa & Hpr & Hb) b fpo.
  subst b fpo. unfold ParseFPOData. cbn [FPOData.Regs FPOData.HasSEH FPOData.UseBP
    FPOData.Reserved FPOData.Frame FPOData.NLocals FPOData.Params
    FPOData.OffsetStart FPOData.FuncSize FPOData.Prolog].
  set (b := FPODataRaw.Bitfield raw) in *.
  assert (Hq : 0 <= b / 64 < 4).
  { split; [apply Z.div_pos; lia|apply Z.div_lt_upper_bound; lia]. }
  assert (Hframe : uint8 (Z.shiftr (Z.land b 0xC0) 6) = b / 64)
    by (apply bitfield_frame; exact Hb).
  repeat split.
  - unfold uint8. change 0x07 with (Z.ones 3). rewrite Z.land_ones by lia.
    apply Z.mod_small.
    pose proof (Z.mod_pos_bound b (2 ^ 3) ltac:(lia)). lia.
  - apply (land_bit_nonzero b 3). lia.
  - apply (land_bit_nonzero b 4). lia.
  - unfold uint8. change 0x20 with (2 ^ 5). rewrite land_pow2 by lia.
    rewrite Z.shiftr_div_pow2, Z.div_mul by lia.
    destruct (Z.testbit b 5); reflexivity.
  - rewrite Hframe. change (2 ^ 6) with 64. change (2 ^ 2) with 4.
    symmetry. apply Z.mod_small. exact Hq.
  - rewrite Hframe in H. unfold FrameTypeNonFPO in H.
    change 64 with (2 ^ 6) in H.
    rewrite <- (Z.shiftr_div_pow2 b 6) in H by lia.
    replace 6 with (0 + 6) by lia. rewrite <- Z.shiftr_spec, H by lia. reflexivity.
  - rewrite Hframe in H. unfold FrameTypeNonFPO in H.
    change 64 with (2 ^ 6) in H.
    rewrite <- (Z.shiftr_div_pow2 b 6) in H by lia.
    replace 7 with (1 + 6) by lia. rewrite <- Z.shiftr_spec, H by lia. reflexivity.
  - intros [H6 H7]. rewrite Hframe. unfold FrameTypeNonFPO.
    change 64 with (2 ^ 6). rewrite <- Z.shiftr_div_pow2 by lia.
    apply Z.bits_inj'. intros n Hn. rewrite Z.shiftr_spec by lia.
    destruct (Z.eq_dec n 0) as [->|Hn0]; [exact H6|].
    destruct (Z.eq_dec n 1) as [->|Hn1]; [exact H7|].
    transitivity false.
    + apply (Z.bits_above_log2 b (n + 6)); [lia|].
      destruct (Z.eq_dec b 0) as [->|Hb0]; [cbn; lia|].
      apply Z.log2_lt_pow2; [lia|].
      eapply Z.lt_le_trans; [apply Hb|]. apply Z.pow_le_mono_r; lia.
    + symmetry. apply (Z.bits_above_log2 3 n); [lia|]. cbn. lia.
  - unfold uint64. rewrite (Z.mod_small (FPODataRaw.NLocals raw)) by lia.
    rewrite Z.mod_small by lia. lia.
  - unfold uint32. rewrite (Z.mod_small (FPODataRaw.Params raw)) by lia.
    rewrite Z.mod_small by lia. lia.
Qed.

Lemma ParseFPOData_decodes_witness :
  let raw := FPODataRaw.mk 0x1000 0x40 3 2 5 0xDD in
  FPODataRaw.wf raw /\
  FPOData.Regs (ParseFPOData raw) = 5 /\
  FPOData.Frame (ParseFPOData raw) = FrameTypeNonFPO /\
  FPOData.NLocals (ParseFPOData raw) = 12 /\
  FPOData.Params (ParseFPOData raw) = 8.
Proof.
  intros raw.
  assert (Hwf : FPODataRaw.wf raw) by (unfold FPODataRaw.wf; cbn; lia).
  destruct (ParseFPOData_decodes raw Hwf)
    as (Hregs & _ & _ & _ & _ & Hframe & Hnl & Hpa & _).
  split; [exact Hwf|].
  split; [rewrite Hregs; reflexivity|].
  split; [apply Hframe; split; reflexivity|].
  split; [rewrite Hnl; reflexivity|rewrite Hpa; reflexivity].
Defined.

(* ===================================================================== *)
(** ** Properties: section flags *)
(* ===================================================================== *)

(** Renderings of a few words: the alignment value 15 leaves no trace. *)
Example SectFlag_String_examples :
  SectFlag.String 0x60500020 = "code|mem exec|mem read|align 16"%string /\
  SectFlag.String 0x00000001 = "unknown flag: 0x00000001"%string /\
  SectFlag.String 0x00E00020 = "code|align 8192"%string /\
  SectFlag.String 0x00F00020 = "code"%string /\
  SectFlag.String 0x00F00000 = "none"%string /\
  SectFlag.String 0 = "none"%string.
Proof. vm_compute. repeat split; reflexivity. Qed.

(* ===================================================================== *)
(** ** Properties: the readers *)
(* ===================================================================== *)

Lemma New_small (off n : Z) :
  off + n <= maxint64 ->
  SectionReader.New off n = SectionReader.mk off off (off + n).
Proof.
  intros H. unfold SectionReader.New.
  destruct (Z.leb_spec off (maxint64 - n)); [|lia].
  f_equal. lia.
Qed.

Lemma advance_0 (s : SectionReader.t) : SectionReader.advance s 0 = s.
Proof. destruct s. unfold SectionReader.advance. cbn. f_equal. lia. Qed.

Lemma slice_nil_past {A} (l : list A) (off n : Z) :
  0 <= off -> Zlen l <= off -> slice l off n = [].
Proof.
  intros H0 H. unfold slice. rewrite skipn_all2; [apply firstn_nil|].
  unfold Zlen in H. lia.
Qed.

Lemma slice_clip {A} (l : list A) (off n m : Z) :
  0 <= off -> Zlen l - off <= n -> Zlen l - off <= m ->
  slice l off n = slice l off m.
Proof.
  intros H0 Hn Hm. unfold slice.
  rewrite !firstn_all2; [reflexivity| |]; rewrite length_skipn; unfold Zlen in *; lia.
Qed.

(** A successful [io.ReadFull]. *)
Lemma ReadFull_ok (r : list byte) (s : SectionReader.t) (n : Z) :
  0 < n -> 0 <= SectionReader.off s ->
  SectionReader.off s + n <= SectionReader.limit s ->
  SectionReader.off s + n <= Zlen r ->
  ReadFull r s n = (slice r (SectionReader.off s) n, None, SectionReader.advance s n).
Proof.
  intros Hn Hoff Hlim Hlen. unfold ReadFull.
  destruct (Z.leb_spec n 0); [lia|].
  destruct (Z.geb_spec (SectionReader.off s) (SectionReader.limit s)); [lia|].
  destruct (Z.ltb_spec (SectionReader.off s) 0); [lia|].
  destruct (Z.leb_spec n (Z.min (SectionReader.limit s - SectionReader.off s)
                               (Zlen r - SectionReader.off s))); [reflexivity|lia].
Qed.

(** A failing [io.ReadFull]: the bytes asked for are not all there. *)
Lemma ReadFull_short (r : list byte) (s : SectionReader.t) (n : Z) :
  0 < n -> 0 <= SectionReader.off s ->
  (SectionReader.limit s < SectionReader.off s + n \/
   Zlen r < SectionReader.off s + n) ->
  exists bs e s', ReadFull r s n = (bs, Some e, s') /\ (e = EOF \/ e = ErrUnexpectedEOF).
Proof.
  intros Hn Hoff Hshort. unfold ReadFull.
  destruct (Z.leb_spec n 0); [lia|].
  destruct (Z.geb_spec (SectionReader.off s) (SectionReader.limit s)); [eauto 6|].
  destruct (Z.ltb_spec (SectionReader.off s) 0); [lia|].
  destruct (Z.leb_spec n (Z.min (SectionReader.limit s - SectionReader.off s)
                               (Zlen r - SectionReader.off s))); [lia|].
  destruct (Z.leb_spec (Z.min (SectionReader.limit s - SectionReader.off s)
                               (Zlen r - SectionReader.off s)) 0); eauto 6.
Qed.

(** The loop of [io.ReadAtLeast] needs at most two calls of [Read], and
    computes [ReadFull]. *)
Lemma ReadFull_fuel_closed (fuel : nat) (r : list byte) (s : SectionReader.t) (n : Z) :
  (2 <= fuel)%nat ->
  ReadFull_fuel fuel r s n = Some (ReadFull r s n).
Proof.
  intros Hfuel. destruct fuel as [|[|fuel]]; [lia|lia|clear Hfuel].
  unfold ReadFull_fuel, ReadFull.
  cbn [ReadAtLeast_loop]. change (Zlen (@nil byte)) with 0.
  destruct (Z.ltb_spec 0 n) as [Hn|Hn]; cbn [andb].
  2:{ destruct (Z.leb_spec n 0); [|lia]. unfold ReadAtLeast_err.
      change (Zlen (@nil byte)) with 0.
      destruct (Z.geb_spec 0 n); [reflexivity|lia]. }
  destruct (Z.leb_spec n 0); [lia|].
  rewrite Z.sub_0_r. unfold SectionReader.Read.
  destruct (Z.geb_spec (SectionReader.off s) (SectionReader.limit s)) as [Hlim|Hlim].
  { cbn [app]. change (Zlen (@nil byte)) with 0.
    destruct (Z.ltb_spec 0 n); [|lia]. cbn [andb].
    unfold ReadAtLeast_err. change (Zlen (@nil byte)) with 0.
    destruct (Z.geb_spec 0 n); [lia|]. reflexivity. }
  set (off := SectionReader.off s) in *. set (lim := SectionReader.limit s) in *.
  unfold ReadAt.
  destruct (Z.ltb_spec off 0) as [Hneg|Hneg].
  { cbn [app]. change (Zlen (@nil byte)) with 0. rewrite advance_0.
    destruct (Z.ltb_spec 0 n); [|lia]. cbn [andb].
    unfold ReadAtLeast_err. change (Zlen (@nil byte)) with 0.
    destruct (Z.geb_spec 0 n); [lia|]. reflexivity. }
  set (k := if n >? lim - off then lim - off else n).
  assert (Hk : k = Z.min n (lim - off)).
  { subst k. destruct (Z.gtb_spec n (lim - off)); lia. }
  clearbody k.
  destruct (Z.leb_spec k 0); [lia|].
  cbn [app].
  pose proof (Zlen_slice r off k Hneg) as Hlen.
  destruct (Z.ltb_spec (Zlen (slice r off k)) k) as [Hshort|Hfull].
  - (* the source ends inside the request *)
    destruct (Z.ltb_spec (Zlen (slice r off k)) n); [|lia]. cbn [andb].
    destruct (Z.leb_spec n (Z.min (lim - off) (Zlen r - off))); [lia|].
    unfold ReadAtLeast_err.
    destruct (Z.geb_spec (Zlen (slice r off k)) n); [lia|].
    destruct (Z.leb_spec (Z.min (lim - off) (Zlen r - off)) 0) as [Hav|Hav].
    + rewrite (slice_nil_past r off k) by lia.
      change (Zlen (@nil byte)) with 0. rewrite advance_0. reflexivity.
    + destruct (Z.gtb_spec (Zlen (slice r off k)) 0); [|lia]. cbn [andb].
      rewrite (slice_clip r off k (Z.min (lim - off) (Zlen r - off))) by lia.
      rewrite Zlen_slice by lia.
      do 3 f_equal. lia.
  - destruct (Z.ltb_spec (Zlen (slice r off k)) n) as [Hclip|Hall]; cbn [andb].
    + (* the window ends inside the request: a second Read reports EOF *)
      cbn [ReadAtLeast_loop]. 
      destruct (Z.ltb_spec (Zlen (slice r off k)) n); [|lia]. cbn [andb].
      unfold SectionReader.Read. cbn [SectionReader.advance SectionReader.off SectionReader.limit].
      fold off. fold lim.
      destruct (Z.geb_spec (off + Zlen (slice r off k)) lim); [|lia].
      rewrite app_nil_r.
      destruct (Z.ltb_spec (Zlen (slice r off k)) n); [|lia]. cbn [andb].
      destruct fuel; cbn [ReadAtLeast_loop];
        (destruct (Z.ltb_spec (Zlen (slice r off k)) n); [|lia]); cbn [andb];
        destruct (Z.leb_spec n (Z.min (lim - off) (Zlen r - off))); try lia;
        destruct (Z.leb_spec (Z.min (lim - off) (Zlen r - off)) 0); try lia;
        unfold ReadAtLeast_err;
        (destruct (Z.geb_spec (Zlen (slice r off k)) n); [lia|]);
        (destruct (Z.gtb_spec (Zlen (slice r off k)) 0); [|lia]); cbn [andb];
        replace (Z.min (lim - off) (Zlen r - off)) with k by lia;
        unfold SectionReader.advance; cbn; fold off; fold lim;
        do 3 f_equal; lia.
    + cbn [ReadAtLeast_loop].
      destruct (Z.ltb_spec (Zlen (slice r off k)) n); [lia|]. cbn [andb].
      destruct (Z.leb_spec n (Z.min (lim - off) (Zlen r - off))); [|lia].
      unfold ReadAtLeast_err.
      destruct (Z.geb_spec (Zlen (slice r off k)) n); [|lia].
      assert (Hkn : k = n) by lia. rewrite Hkn in *.
      do 3 f_equal. lia.
Qed.

(* ===================================================================== *)
(** ** Properties: the DOS header *)
(* ===================================================================== *)

Ltac munfold :=
  repeat progress
    (unfold binary_Read, io_ReadFull, bind, ret, fail, panic, out_of_fuel,
       get_file, emit, modify_file, when, deref, map_err;
     cbn [fst snd]).

Lemma log_reserved_run (vs : list Z) : forall (i : Z) (f : File.t) (tr : list event),
  log_reserved i vs (f, tr) = (Ok tt, (f, tr ++ reserved_events i vs)).
Proof.
  induction vs as [|v vs IH]; intros i f tr; cbn [log_reserved reserved_events].
  - munfold. rewrite app_nil_r. reflexivity.
  - munfold. destruct (negb (v =? 0)); munfold.
    + rewrite IH. rewrite <- app_assoc. reflexivity.
    + rewrite IH. reflexivity.
Qed.

Lemma parseDOSHeader_ok (f : File.t) (tr : list event) :
  dosHdrSize <= Zlen (File.r f) -> u16 (File.r f) 0 = mz ->
  parseDOSHeader (f, tr) =
    (Ok tt, (File.set_doshdr (Some (dos_of (File.r f))) f, tr ++ dos_trace (File.r f))).
Proof.
  unfold dosHdrSize. intros Hlen Hmz.
  unfold parseDOSHeader. rewrite New_small by (unfold dosHdrSize, maxint64; lia).
  munfold.
  rewrite ReadFull_ok by (cbn; unfold dosHdrSize; lia).
  cbn [SectionReader.off SectionReader.advance SectionReader.base SectionReader.limit].
  change (le_combine (slice (File.r f) 0 2)) with (u16 (File.r f) 0).
  rewrite Hmz, Z.eqb_refl. cbn [negb fst snd File.r File.set_doshdr].
  rewrite ReadFull_ok by (cbn; unfold dosHdrSize, DOSHeader.size; lia).
  cbn [SectionReader.off fst snd].
  rewrite !log_reserved_run.
  unfold dos_trace, dos_of. cbn [File.set_doshdr File.r].
  rewrite <- !app_assoc. reflexivity.
Qed.

Lemma parseDOSHeader_no_signature (f : File.t) (tr : list event) :
  Zlen (File.r f) < 2 ->
  exists e, parseDOSHeader (f, tr) =
              (Err (ErrDOSSignatureRead e), (f, tr ++ [EvRead 0 2])).
Proof.
  intros Hlen. unfold parseDOSHeader.
  rewrite New_small by (unfold dosHdrSize, maxint64; lia).
  munfold.
  destruct (ReadFull_short (File.r f) (SectionReader.mk 0 0 (0 + dosHdrSize)) 2)
    as (bs & e & s' & -> & _); [lia|cbn; lia|cbn; lia|].
  exists e. reflexivity.
Qed.

Lemma parseDOSHeader_bad_signature (f : File.t) (tr : list event) :
  2 <= Zlen (File.r f) -> u16 (File.r f) 0 <> mz ->
  parseDOSHeader (f, tr) =
    (Err (ErrDOSSignature (u16 (File.r f) 0)), (f, tr ++ [EvRead 0 2])).
Proof.
  intros Hlen Hmz. unfold parseDOSHeader.
  rewrite New_small by (unfold dosHdrSize, maxint64; lia).
  munfold.
  rewrite ReadFull_ok by (cbn; unfold dosHdrSize; lia).
  cbn [SectionReader.off].
  change (le_combine (slice (File.r f) 0 2)) with (u16 (File.r f) 0).
  destruct (Z.eqb_spec (u16 (File.r f) 0) mz); [contradiction|].
  reflexivity.
Qed.

Lemma parseDOSHeader_truncated (f : File.t) (tr : list event) :
  2 <= Zlen (File.r f) < dosHdrSize -> u16 (File.r f) 0 = mz ->
  exists e, parseDOSHeader (f, tr) =
              (Err (ErrDOSHeaderRead e),
               (File.set_doshdr (Some DOSHeader.zero) f,
                tr ++ [EvRead 0 2; EvRead 2 DOSHeader.size])).
Proof.
  unfold dosHdrSize. intros Hlen Hmz. unfold parseDOSHeader.
  rewrite New_small by (unfold dosHdrSize, maxint64; lia).
  munfold.
  rewrite ReadFull_ok by (cbn; unfold dosHdrSize; lia).
  cbn [SectionReader.off SectionReader.advance SectionReader.base SectionReader.limit].
  change (le_combine (slice (File.r f) 0 2)) with (u16 (File.r f) 0).
  rewrite Hmz, Z.eqb_refl. cbn [negb fst snd File.r File.set_doshdr].
  unfold SectionReader.advance. cbn [SectionReader.off SectionReader.base SectionReader.limit].
  destruct (ReadFull_short (File.r f) (SectionReader.mk 0 (0 + 2) (0 + dosHdrSize))
              DOSHeader.size)
    as (bs & e & s' & -> & _);
    [unfold DOSHeader.size; lia|cbn; lia|cbn; unfold DOSHeader.size; lia|].
  exists e. cbn [SectionReader.off]. rewrite <- app_assoc. reflexivity.
Qed.

(** [parseDOSHeader] succeeds exactly on the sources that hold 64 bytes
    starting with "MZ". *)
Lemma parseDOSHeader_ok_inv (f : File.t) (tr : list event) (st : state) :
  parseDOSHeader (f, tr) = (Ok tt, st) ->
  dosHdrSize <= Zlen (File.r f) /\ u16 (File.r f) 0 = mz.
Proof.
  intros H.
  destruct (Z.lt_ge_cases (Zlen (File.r f)) 2) as [Hlt|Hge].
  { destruct (parseDOSHeader_no_signature f tr Hlt) as [e He]. congruence. }
  destruct (Z.eq_dec (u16 (File.r f) 0) mz) as [Hmz|Hmz].
  2:{ rewrite (parseDOSHeader_bad_signature f tr Hge Hmz) in H. congruence. }
  destruct (Z.lt_ge_cases (Zlen (File.r f)) dosHdrSize) as [Hshort|Hfull].
  { destruct (parseDOSHeader_truncated f tr (conj Hge Hshort) Hmz) as [e He].
    congruence. }
  split; assumption.
Qed.

Lemma DOSHeader_cached (f : File.t) (tr : list event) (h : DOSHeader.t) :
  File.doshdr f = Some h ->
  DOSHeader (f, tr) = (Ok (Some h), (f, tr)).
Proof. intros H. unfold DOSHeader. munfold. rewrite H. munfold. rewrite H. reflexivity. Qed.

Lemma DOSHeader_fresh (f : File.t) (tr : list event) :
  File.doshdr f = None ->
  dosHdrSize <= Zlen (File.r f) -> u16 (File.r f) 0 = mz ->
  DOSHeader (f, tr) =
    (Ok (Some (dos_of (File.r f))),
     (File.set_doshdr (Some (dos_of (File.r f))) f, tr ++ dos_trace (File.r f))).
Proof.
  intros Hnil Hlen Hmz. unfold DOSHeader. munfold. rewrite Hnil.
  rewrite parseDOSHeader_ok by assumption. reflexivity.
Qed.

Lemma DOSHeader_fresh_inv (f : File.t) (tr : list event)
    (p : option DOSHeader.t) (st : state) :
  File.doshdr f = None ->
  DOSHeader (f, tr) = (Ok p, st) ->
  dosHdrSize <= Zlen (File.r f) /\ u16 (File.r f) 0 = mz.
Proof.
  intros Hnil H. unfold DOSHeader in H. revert H. munfold. rewrite Hnil.
  destruct (parseDOSHeader (f, tr)) as [[[]| | |] st'] eqn:Hp; try discriminate.
  intros _. eapply parseDOSHeader_ok_inv. exact Hp.
Qed.

Lemma PEHdrOffset_range (src : list byte) :
  0 <= DOSHeader.PEHdrOffset (dos_of src) < 2 ^ 32.
Proof. apply u32_range. Qed.

Lemma uint32_sub_wraps (p : Z) :
  0 <= p < dosHdrSize -> uint32 (p - dosHdrSize) = p + 2 ^ 32 - dosHdrSize.
Proof.
  unfold uint32, dosHdrSize. intros Hp.
  symmetry. apply (Z.mod_unique _ _ (-1)); lia.
Qed.

Lemma uint32_sub_small (p : Z) :
  dosHdrSize <= p < 2 ^ 32 -> uint32 (p - dosHdrSize) = p - dosHdrSize.
Proof. unfold uint32, dosHdrSize. intros Hp. apply Z.mod_small. lia. Qed.

Lemma off_New (off n : Z) : SectionReader.off (SectionReader.New off n) = off.
Proof. reflexivity. Qed.

(** [DOSStub] on a fresh file whose DOS header parses. *)
Lemma DOSStub_run (src : list byte) :
  dosHdrSize <= Zlen src -> u16 src 0 = mz ->
  let p := DOSHeader.PEHdrOffset (dos_of src) in
  let stubSize := uint32 (p - dosHdrSize) in
  let f1 := File.set_doshdr (Some (dos_of src)) (File.New src) in
  DOSStub (File.New src, []) =
    if stubSize <=? 0 then (Ok None, (f1, dos_trace src))
    else
      let tr := dos_trace src
                  ++ [EvMake AllocDOSStub stubSize; EvRead dosHdrSize stubSize] in
      match ReadFull src (SectionReader.New dosHdrSize stubSize) stubSize with
      | (_, Some e, _) => (Err (ErrDOSStubRead e), (f1, tr))
      | (bs, None, _) => (Ok (Some bs), (f1, tr))
      end.
Proof.
  intros Hlen Hmz. cbv zeta.
  pose proof (DOSHeader_fresh (File.New src) [] eq_refl Hlen Hmz) as Hrun.
  cbn [File.New File.r app] in Hrun. fold (File.New src) in Hrun.
  unfold DOSStub. unfold bind at 1. rewrite Hrun. munfold.
  destruct (uint32 _ <=? 0); [reflexivity|].
  munfold. rewrite off_New. cbn [File.set_doshdr File.r File.New].
  rewrite <- app_assoc. cbn [app].
  destruct (ReadFull _ _ _) as [[bs [e|]] s']; reflexivity.
Qed.

(** C10.  Once the DOS header has parsed, [DOSStub] returns a nil stub with a
    nil error exactly when [PEHdrOffset] is 64.  For [PEHdrOffset < 64] the
    32-bit difference wraps to [PEHdrOffset + 2^32 - 64], the empty-stub guard
    is not taken, a buffer of that size is made and a read of that size is
    requested at offset 64; on every source shorter than
    [PEHdrOffset + 2^32] bytes the method fails with the read error. *)
Theorem DOSStub_empty_only_at_64 (src : list byte) (h : DOSHeader.t) (st : state) :
  run DOSHeader (File.New src) = (Ok (Some h), st) ->
  let p := DOSHeader.PEHdrOffset h in
  let res := run DOSStub (File.New src) in
  (fst res = Ok None <-> p = dosHdrSize) /\
  (p < dosHdrSize ->
     let stubSize := p + 2 ^ 32 - dosHdrSize in
     uint32 (p - dosHdrSize) = stubSize /\
     2 ^ 32 - dosHdrSize <= stubSize /\
     In (EvMake AllocDOSStub stubSize) (snd (snd res)) /\
     In (EvRead dosHdrSize stubSize) (snd (snd res)) /\
     (Zlen src < dosHdrSize + stubSize ->
        exists e, fst res = Err (ErrDOSStubRead e))).
Proof.
  unfold run. intros Hdos.
  destruct (DOSHeader_fresh_inv (File.New src) [] _ _ eq_refl Hdos) as [Hlen Hmz].
  cbn [File.New File.r] in Hlen, Hmz.
  pose proof (DOSHeader_fresh (File.New src) [] eq_refl Hlen Hmz) as Hrun.
  cbn [File.New File.r] in Hrun. fold (File.New src) in Hrun.
  rewrite Hrun in Hdos. injection Hdos as Hh _. subst h. clear st Hrun.
  pose proof (PEHdrOffset_range src) as Hp.
  cbv zeta. rewrite (DOSStub_run src Hlen Hmz). cbv zeta.
  set (p := DOSHeader.PEHdrOffset (dos_of src)) in *.
  split.
  - (* nil stub exactly at 64 *)
    destruct (Z.lt_trichotomy p dosHdrSize) as [Hlt|[Heq|Hgt]].
    + rewrite uint32_sub_wraps by lia.
      destruct (Z.leb_spec (p + 2 ^ 32 - dosHdrSize) 0); [unfold dosHdrSize in *; lia|].
      destruct (ReadFull _ _ _) as [[bs [e|]] s']; cbn [fst];
        (split; [discriminate|lia]).
    + rewrite Heq. change (uint32 (dosHdrSize - dosHdrSize) <=? 0) with true.
      cbn [fst]. split; reflexivity.
    + rewrite uint32_sub_small by lia.
      destruct (Z.leb_spec (p - dosHdrSize) 0); [lia|].
      destruct (ReadFull _ _ _) as [[bs [e|]] s']; cbn [fst];
        (split; [discriminate|lia]).
  - (* the wrap-around below 64 *)
    intros Hlt. rewrite uint32_sub_wraps by lia.
    split; [reflexivity|]. split; [lia|].
    destruct (Z.leb_spec (p + 2 ^ 32 - dosHdrSize) 0); [unfold dosHdrSize in *; lia|].
    rewrite New_small by (unfold dosHdrSize, maxint64 in *; lia).
    split; [|split].
    + destruct (ReadFull _ _ _) as [[bs [e|]] s']; cbn [snd];
        apply in_or_app; right; left; reflexivity.
    + destruct (ReadFull _ _ _) as [[bs [e|]] s']; cbn [snd];
        apply in_or_app; right; right; left; reflexivity.
    + intros Hshort.
      destruct (ReadFull_short src
                  (SectionReader.mk dosHdrSize dosHdrSize
                     (dosHdrSize + (p + 2 ^ 32 - dosHdrSize)))
                  (p + 2 ^ 32 - dosHdrSize))
        as (bs & e & s' & -> & _);
        [lia|cbn; unfold dosHdrSize; lia|right; exact Hshort|].
      exists e. reflexivity.
Qed.

Lemma DOSStub_empty_only_at_64_witness :
  let src := dos_image 10 ++ zeros 100 in
  DOSHeader.PEHdrOffset (dos_of src) = 10 /\
  exists e, fst (run DOSStub (File.New src)) = Err (ErrDOSStubRead e).
Proof.
  intros src.
  assert (H : run DOSHeader (File.New src) =
              (Ok (Some (dos_of src)), snd (run DOSHeader (File.New src))))
    by (vm_compute; reflexivity).
  destruct (DOSStub_empty_only_at_64 src _ _ H) as [_ Hlt].
  split; [vm_compute; reflexivity|].
  apply Hlt; vm_compute; reflexivity.
Defined.

(* ===================================================================== *)
(** ** Properties: the COFF file header *)
(* ===================================================================== *)

Section FileHeaderParsing.
Variables (f : File.t) (tr : list event) (h : DOSHeader.t).
Hypothesis Hdos : File.doshdr f = Some h.
Let p := DOSHeader.PEHdrOffset h.
Hypothesis Hp : 0 <= p < 2 ^ 32.

Lemma parseFileHeader_start :
  parseFileHeader (f, tr) =
    (let sr := SectionReader.mk p p (p + fileHdrSize) in
     '(bs, err, sr) <- binary_Read sr 4 ;;
     match err with
     | Some e => fail (ErrFileSignatureRead e)
     | None =>
         let magic := le_combine bs in
         if negb (magic =? pe) then fail (ErrFileSignature magic)
         else
           modify_file (File.set_fileHdr (Some FileHeader.zero)) ;;;
           '(bs, err, sr) <- binary_Read sr FileHeader.size ;;
           match err with
           | Some e => fail (ErrFileHeaderRead e)
           | None => modify_file (File.set_fileHdr (Some (FileHeader.decode bs)))
           end
     end)%monad (f, tr).
Proof.
  unfold parseFileHeader. unfold bind at 1.
  rewrite (DOSHeader_cached f tr h Hdos).
  unfold bind at 1. unfold deref at 1. unfold ret at 1. fold p.
  rewrite New_small by (unfold fileHdrSize, maxint64; lia).
  reflexivity.
Qed.

Lemma parseFileHeader_ok :
  p + fileHdrSize <= Zlen (File.r f) -> u32 (File.r f) p = pe ->
  parseFileHeader (f, tr) =
    (Ok tt, (File.set_fileHdr (Some (filehdr_at (File.r f) p)) f,
             tr ++ filehdr_trace p)).
Proof.
  unfold fileHdrSize. intros Hlen Hpe. rewrite parseFileHeader_start. munfold.
  rewrite ReadFull_ok by (cbn; unfold fileHdrSize; lia).
  unfold SectionReader.advance.
  cbn [SectionReader.off SectionReader.base SectionReader.limit].
  change (le_combine (slice (File.r f) p 4)) with (u32 (File.r f) p).
  rewrite Hpe, Z.eqb_refl. cbn [negb fst snd File.r File.set_fileHdr].
  rewrite ReadFull_ok by (cbn; unfold fileHdrSize, FileHeader.size; lia).
  cbn [SectionReader.off fst snd File.set_fileHdr File.doshdr File.opthdr
         File.sectHdrs File.overlay File.r].
  unfold filehdr_at, filehdr_trace, File.set_fileHdr.
  rewrite <- app_assoc. reflexivity.
Qed.

Lemma parseFileHeader_no_signature :
  Zlen (File.r f) < p + 4 ->
  exists e, parseFileHeader (f, tr) =
              (Err (ErrFileSignatureRead e), (f, tr ++ [EvRead p 4])).
Proof.
  intros Hlen. rewrite parseFileHeader_start. munfold.
  destruct (ReadFull_short (File.r f) (SectionReader.mk p p (p + fileHdrSize)) 4)
    as (bs & e & s' & -> & _); [lia|cbn; lia|right; cbn; lia|].
  exists e. reflexivity.
Qed.

Lemma parseFileHeader_bad_signature :
  p + 4 <= Zlen (File.r f) -> u32 (File.r f) p <> pe ->
  parseFileHeader (f, tr) =
    (Err (ErrFileSignature (u32 (File.r f) p)), (f, tr ++ [EvRead p 4])).
Proof.
  intros Hlen Hpe. rewrite parseFileHeader_start. munfold.
  rewrite ReadFull_ok by (cbn; unfold fileHdrSize; lia).
  cbn [SectionReader.off].
  change (le_combine (slice (File.r f) p 4)) with (u32 (File.r f) p).
  destruct (Z.eqb_spec (u32 (File.r f) p) pe); [contradiction|].
  reflexivity.
Qed.

Lemma parseFileHeader_truncated :
  p + 4 <= Zlen (File.r f) < p + fileHdrSize -> u32 (File.r f) p = pe ->
  exists e, parseFileHeader (f, tr) =
              (Err (ErrFileHeaderRead e),
               (File.set_fileHdr (Some FileHeader.zero) f, tr ++ filehdr_trace p)).
Proof.
  unfold fileHdrSize. intros Hlen Hpe. rewrite parseFileHeader_start. munfold.
  rewrite ReadFull_ok by (cbn; unfold fileHdrSize; lia).
  unfold SectionReader.advance.
  cbn [SectionReader.off SectionReader.base SectionReader.limit].
  change (le_combine (slice (File.r f) p 4)) with (u32 (File.r f) p).
  rewrite Hpe, Z.eqb_refl. cbn [negb fst snd File.r File.set_fileHdr].
  destruct (ReadFull_short (File.r f) (SectionReader.mk p (p + 4) (p + fileHdrSize))
              FileHeader.size)
    as (bs & e & s' & -> & _);
    [unfold FileHeader.size; lia|cbn; lia|
     right; cbn; unfold FileHeader.size; lia|].
  exists e. cbn [SectionReader.off]. unfold filehdr_trace.
  rewrite <- app_assoc. reflexivity.
Qed.

Lemma parseFileHeader_ok_inv (st : state) :
  parseFileHeader (f, tr) = (Ok tt, st) ->
  p + fileHdrSize <= Zlen (File.r f) /\ u32 (File.r f) p = pe.
Proof.
  intros H.
  destruct (Z.lt_ge_cases (Zlen (File.r f)) (p + 4)) as [Hlt|Hge].
  { destruct (parseFileHeader_no_signature Hlt) as [e He]. congruence. }
  destruct (Z.eq_dec (u32 (File.r f) p) pe) as [Hpe|Hpe].
  2:{ rewrite (parseFileHeader_bad_signature Hge Hpe) in H. congruence. }
  destruct (Z.lt_ge_cases (Zlen (File.r f)) (p + fileHdrSize)) as [Hshort|Hfull].
  { destruct (parseFileHeader_truncated (conj Hge Hshort) Hpe) as [e He].
    congruence. }
  split; assumption.
Qed.
End FileHeaderParsing.

Lemma FileHeader_cached (f : File.t) (tr : list event) (fh : FileHeader.t) :
  File.fileHdr f = Some fh ->
  FileHeader (f, tr) = (Ok (Some fh), (f, tr)).
Proof. intros H. unfold FileHeader. munfold. rewrite H. munfold. rewrite H. reflexivity. Qed.

(** [FileHeader] runs [parseFileHeader] when nothing is cached. *)
Lemma FileHeader_uncached (f : File.t) (tr : list event) :
  File.fileHdr f = None ->
  FileHeader (f, tr) =
    match parseFileHeader (f, tr) with
    | (Ok _, st') => (Ok (File.fileHdr (fst st')), st')
    | (Err e, st') => (Err e, st')
    | (Panic p, st') => (Panic p, st')
    | (OutOfFuel, st') => (OutOfFuel, st')
    end.
Proof.
  intros H. unfold FileHeader. munfold. rewrite H.
  destruct (parseFileHeader (f, tr)) as [[[]| | |] st']; reflexivity.
Qed.

(* ===================================================================== *)
(** ** Properties: chaining of the accessors *)
(* ===================================================================== *)

Lemma bind_eq_ok {A B} (c : M A) (k : A -> M B) (st st' : state) (a : A) :
  c st = (Ok a, st') -> bind c k st = k a st'.
Proof. unfold bind. intros ->. reflexivity. Qed.

Lemma bind_eq_err {A B} (c : M A) (k : A -> M B) (st st' : state) (e : error) :
  c st = (Err e, st') -> bind c k st = (Err e, st').
Proof. unfold bind. intros ->. reflexivity. Qed.

Lemma bind_eq_panic {A B} (c : M A) (k : A -> M B) (st st' : state) (p : panic_reason) :
  c st = (Panic p, st') -> bind c k st = (Panic p, st').
Proof. unfold bind. intros ->. reflexivity. Qed.

Lemma peoff_range (src : list byte) : 0 <= peoff src < 2 ^ 32.
Proof. apply PEHdrOffset_range. Qed.

(** A DOS header parsed from a fresh file is the one at the start of the
    source. *)
Lemma DOSHeader_New_inv (src : list byte) (h : DOSHeader.t) (st : state) :
  run DOSHeader (File.New src) = (Ok (Some h), st) ->
  dosHdrSize <= Zlen src /\ u16 src 0 = mz /\
  h = dos_of src /\ st = (file_dos src, dos_trace src).
Proof.
  unfold run. intros H.
  destruct (DOSHeader_fresh_inv (File.New src) [] _ _ eq_refl H) as [Hlen Hmz].
  cbn [File.New File.r] in Hlen, Hmz.
  rewrite (DOSHeader_fresh (File.New src) [] eq_refl Hlen Hmz) in H.
  cbn [File.New File.r app] in H. injection H as Hh Hst.
  repeat split; try assumption; symmetry; assumption.
Qed.

Lemma DOSHeader_New (src : list byte) :
  dosHdrSize <= Zlen src -> u16 src 0 = mz ->
  DOSHeader (File.New src, []) = (Ok (Some (dos_of src)), (file_dos src, dos_trace src)).
Proof.
  intros Hlen Hmz.
  rewrite (DOSHeader_fresh (File.New src) [] eq_refl Hlen Hmz). reflexivity.
Qed.

(** A method that starts with [file.DOSHeader()] continues, on a fresh file
    whose DOS header parses, as it does on the file with that header cached. *)
Lemma DOSHeader_bind_New {B} (k : option DOSHeader.t -> M B) (src : list byte) :
  dosHdrSize <= Zlen src -> u16 src 0 = mz ->
  bind DOSHeader k (File.New src, []) = bind DOSHeader k (file_dos src, dos_trace src).
Proof.
  intros Hlen Hmz.
  rewrite (bind_eq_ok _ _ _ _ _ (DOSHeader_New src Hlen Hmz)).
  rewrite (bind_eq_ok _ _ _ _ _ (DOSHeader_cached (file_dos src) _ _ eq_refl)).
  reflexivity.
Qed.

(** A failing DOS header makes every method fail with the same error, in the
    same state. *)
Section DOSHeaderFails.
Variables (f : File.t) (tr : list event) (e : error) (st : state).
Hypothesis Hnil : File.doshdr f = None.
Hypothesis Hfail : parseDOSHeader (f, tr) = (Err e, st).

Lemma DOSHeader_fails : DOSHeader (f, tr) = (Err e, st).
Proof. unfold DOSHeader. munfold. rewrite Hnil, Hfail. reflexivity. Qed.

Lemma parseFileHeader_fails_dos : parseFileHeader (f, tr) = (Err e, st).
Proof. unfold parseFileHeader. apply bind_eq_err, DOSHeader_fails. Qed.

Lemma parseOptHeader_fails_dos : parseOptHeader (f, tr) = (Err e, st).
Proof. unfold parseOptHeader. apply bind_eq_err, DOSHeader_fails. Qed.

Lemma parseSectHeaders_fails_dos : parseSectHeaders (f, tr) = (Err e, st).
Proof. unfold parseSectHeaders. apply bind_eq_err, DOSHeader_fails. Qed.

Lemma DOSStub_fails_dos : DOSStub (f, tr) = (Err e, st).
Proof. unfold DOSStub. apply bind_eq_err, DOSHeader_fails. Qed.

Lemma Parse_fails_dos : Parse (f, tr) = (Err e, st).
Proof. unfold Parse. apply bind_eq_err, Hfail. Qed.
End DOSHeaderFails.

(** An accessor with an empty cache fails as its parser does. *)
Lemma FileHeader_fails (f : File.t) (tr : list event) (e : error) (st : state) :
  File.fileHdr f = None -> parseFileHeader (f, tr) = (Err e, st) ->
  FileHeader (f, tr) = (Err e, st).
Proof. intros Hnil H. rewrite FileHeader_uncached, H by assumption. reflexivity. Qed.

Lemma OptHeader_fails (f : File.t) (tr : list event) (e : error) (st : state) :
  File.opthdr f = None -> parseOptHeader (f, tr) = (Err e, st) ->
  OptHeader (f, tr) = (Err e, st).
Proof. intros Hnil H. unfold OptHeader. munfold. rewrite Hnil, H. reflexivity. Qed.

Lemma SectHeaders_fails (f : File.t) (tr : list event) (e : error) (st : state) :
  File.sectHdrs f = None -> parseSectHeaders (f, tr) = (Err e, st) ->
  SectHeaders (f, tr) = (Err e, st).
Proof. intros Hnil H. unfold SectHeaders. munfold. rewrite Hnil, H. reflexivity. Qed.

Lemma Overlay_fails_sect (f : File.t) (tr : list event) (e : error) (st : state) :
  File.overlay f = None -> SectHeaders (f, tr) = (Err e, st) ->
  Overlay (f, tr) = (Err (ErrWithStack e), st).
Proof.
  intros Hnil H. unfold Overlay. munfold. rewrite Hnil.
  unfold parseOverlay. munfold. rewrite H. reflexivity.
Qed.

(** The two signatures as bytes. *)
Lemma u16_mz_bytes (src : list byte) :
  2 <= Zlen src -> (u16 src 0 = mz <-> slice src 0 2 = [Byte.x4d; Byte.x5a]).
Proof.
  intros Hlen. unfold u16, le_at. split.
  - intros H. apply le_combine_inj; [|exact H].
    pose proof (Zlen_slice_full src 0 2 ltac:(lia) ltac:(lia) ltac:(lia)) as Hl.
    unfold Zlen in Hl. cbn [List.length]. lia.
  - intros ->. reflexivity.
Qed.

Lemma u32_pe_bytes (src : list byte) (p : Z) :
  0 <= p -> p + 4 <= Zlen src ->
  (u32 src p = pe <-> slice src p 4 = [Byte.x50; Byte.x45; Byte.x00; Byte.x00]).
Proof.
  intros Hp Hlen. unfold u32, le_at. split.
  - intros H. apply le_combine_inj; [|exact H].
    pose proof (Zlen_slice_full src p 4 ltac:(lia) ltac:(lia) ltac:(lia)) as Hl.
    unfold Zlen in Hl. cbn [List.length]. lia.
  - intros ->. reflexivity.
Qed.

(* ===================================================================== *)
(** ** Properties: the optional header *)
(* ===================================================================== *)

Lemma ReadFull_ok_bytes (r : list byte) (s : SectionReader.t) (n : Z) :
  0 <= n -> 0 <= SectionReader.off s ->
  SectionReader.off s + n <= SectionReader.limit s ->
  SectionReader.off s + n <= Zlen r ->
  exists s', ReadFull r s n = (slice r (SectionReader.off s) n, None, s').
Proof.
  intros Hn Hoff Hlim Hlen.
  destruct (Z.eq_dec n 0) as [->|Hn0].
  - exists s. reflexivity.
  - exists (SectionReader.advance s n). apply ReadFull_ok; lia.
Qed.

Section OptHeaderParsing.
Variables (f : File.t) (tr : list event) (h : DOSHeader.t).
Hypothesis Hdos : File.doshdr f = Some h.
Let p := DOSHeader.PEHdrOffset h.
Hypothesis Hp : 0 <= p < 2 ^ 32.
Let optoff := p + fileHdrSize.
Let h32 := opthdr32_at (File.r f) p.
Let n := OptHeader32.NDataDir h32.

Lemma parseOptHeader_truncated :
  Zlen (File.r f) < optoff + OptHeader32.size ->
  exists e, parseOptHeader (f, tr) =
              (Err (ErrOptHeaderRead e),
               (File.set_opthdr (Some OptHeader.zero) f,
                tr ++ [EvRead optoff OptHeader32.size])).
Proof.
  intros Hlen. unfold parseOptHeader.
  rewrite (bind_eq_ok _ _ _ _ _ (DOSHeader_cached f tr h Hdos)).
  munfold. fold p. fold optoff.
  rewrite New_small by (subst optoff; unfold fileHdrSize, maxOptHdrSize, maxint64; lia).
  cbn [SectionReader.off File.set_opthdr File.r].
  destruct (ReadFull_short (File.r f)
              (SectionReader.mk optoff optoff (optoff + maxOptHdrSize))
              OptHeader32.size)
    as (bs & e & s' & -> & _);
    [unfold OptHeader32.size; lia
    |cbn; subst optoff; unfold fileHdrSize; lia
    |right; cbn; exact Hlen|].
  exists e. reflexivity.
Qed.

(** The state of [parseOptHeader] once the fixed part has been read and the
    data directories allocated. *)
Lemma parseOptHeader_fixed_part :
  optoff + OptHeader32.size <= Zlen (File.r f) ->
  parseOptHeader (f, tr) =
    (let sr := SectionReader.mk optoff (optoff + OptHeader32.size)
                 (optoff + maxOptHdrSize) in
     '(bs, err, sr) <- binary_Read sr (DataDirectory.size * n) ;;
     match err with
     | Some e => fail (ErrDataDirsRead e)
     | None =>
         modify_file (File.set_opthdr
           (Some (OptHeader.mk h32
              (Some (decode_array DataDirectory.decode DataDirectory.size bs
                       (Z.to_nat n))))))
     end)%monad
    (File.set_opthdr
       (Some (OptHeader.mk h32 (Some (repeat DataDirectory.zero (Z.to_nat n))))) f,
     tr ++ [EvRead optoff OptHeader32.size] ++ opt_log h32
        ++ [EvMake AllocDataDirs n]).
Proof.
  intros Hlen. unfold parseOptHeader.
  rewrite (bind_eq_ok _ _ _ _ _ (DOSHeader_cached f tr h Hdos)).
  munfold. fold p. fold optoff.
  rewrite New_small by (subst optoff; unfold fileHdrSize, maxOptHdrSize, maxint64; lia).
  cbn [File.r File.set_opthdr SectionReader.off].
  rewrite ReadFull_ok by
    (cbn; subst optoff; unfold fileHdrSize, OptHeader32.size, maxOptHdrSize in *; lia).
  unfold SectionReader.advance.
  cbn [SectionReader.off SectionReader.base SectionReader.limit].
  subst n h32. unfold opt_log, opthdr32_at. fold optoff.
  destruct (negb (OptHeader32.Res _ =? 0)); munfold;
    cbn [File.set_opthdr File.doshdr File.fileHdr File.opthdr
           File.sectHdrs File.overlay File.r];
    rewrite <- ?app_assoc; reflexivity.
Qed.


Lemma parseOptHeader_ok :
  n <= 16 ->
  optoff + OptHeader32.size + DataDirectory.size * n <= Zlen (File.r f) ->
  parseOptHeader (f, tr) =
    (Ok tt,
     (File.set_opthdr
        (Some (OptHeader.mk h32 (Some (datadirs_at (File.r f) p)))) f,
      tr ++ opt_trace (File.r f) p)).
Proof.
  intros Hn Hlen.
  assert (Hn0 : 0 <= n) by (subst n; apply u32_range).
  rewrite parseOptHeader_fixed_part
    by (unfold DataDirectory.size in Hlen; lia).
  munfold. cbn [File.r File.set_opthdr SectionReader.off].
  destruct (ReadFull_ok_bytes (File.r f)
              (SectionReader.mk optoff (optoff + OptHeader32.size)
                 (optoff + maxOptHdrSize))
              (DataDirectory.size * n))
    as (s' & ->).
  - unfold DataDirectory.size. lia.
  - cbn. subst optoff. unfold fileHdrSize, OptHeader32.size. lia.
  - cbn [SectionReader.off SectionReader.limit].
    unfold DataDirectory.size, OptHeader32.size, maxOptHdrSize. lia.
  - cbn [SectionReader.off]. lia.
  - cbn [SectionReader.off fst snd File.set_opthdr File.doshdr File.fileHdr
           File.opthdr File.sectHdrs File.overlay File.r].
    unfold opt_trace, datadirs_at. fold h32. fold n. fold optoff.
    rewrite <- !app_assoc. reflexivity.
Qed.
End OptHeaderParsing.

Lemma FileHeader_dos_cached (src : list byte) :
  peoff src + fileHdrSize <= Zlen src -> u32 src (peoff src) = pe ->
  FileHeader (file_dos src, dos_trace src) =
    (Ok (Some (filehdr_at src (peoff src))), (file_hdrs src, hdrs_trace src)).
Proof.
  intros Hlen Hpe. rewrite FileHeader_uncached by reflexivity.
  rewrite (parseFileHeader_ok (file_dos src) (dos_trace src) (dos_of src) eq_refl
             (peoff_range src) Hlen Hpe).
  reflexivity.
Qed.

Lemma parseFileHeader_New (src : list byte) :
  dosHdrSize <= Zlen src -> u16 src 0 = mz ->
  parseFileHeader (File.New src, []) = parseFileHeader (file_dos src, dos_trace src).
Proof. intros. unfold parseFileHeader. apply DOSHeader_bind_New; assumption. Qed.

Lemma FileHeader_New (src : list byte) :
  dosHdrSize <= Zlen src -> u16 src 0 = mz ->
  peoff src + fileHdrSize <= Zlen src -> u32 src (peoff src) = pe ->
  FileHeader (File.New src, []) =
    (Ok (Some (filehdr_at src (peoff src))), (file_hdrs src, hdrs_trace src)).
Proof.
  intros Hlen Hmz Hlen2 Hpe. rewrite FileHeader_uncached by reflexivity.
  rewrite parseFileHeader_New by assumption.
  rewrite (parseFileHeader_ok (file_dos src) (dos_trace src) (dos_of src) eq_refl
             (peoff_range src) Hlen2 Hpe).
  reflexivity.
Qed.

(** A file header parsed from a fresh file is the one at [PEHdrOffset], behind
    the two signatures. *)
Lemma FileHeader_New_inv (src : list byte) (fh : FileHeader.t) (st : state) :
  run FileHeader (File.New src) = (Ok (Some fh), st) ->
  dosHdrSize <= Zlen src /\ u16 src 0 = mz /\
  peoff src + fileHdrSize <= Zlen src /\ u32 src (peoff src) = pe /\
  fh = filehdr_at src (peoff src) /\ st = (file_hdrs src, hdrs_trace src).
Proof.
  unfold run. intros H.
  assert (Hparse : exists st', parseFileHeader (File.New src, []) = (Ok tt, st')).
  { rewrite FileHeader_uncached in H by reflexivity.
    destruct (parseFileHeader (File.New src, [])) as [[[]| | |] st']; try discriminate.
    eauto. }
  destruct Hparse as [st' Hparse].
  assert (Hdos : dosHdrSize <= Zlen src /\ u16 src 0 = mz).
  { unfold parseFileHeader, bind in Hparse.
    destruct (DOSHeader (File.New src, [])) as [[[h|]| | |] st0] eqn:E;
      try discriminate.
    destruct (DOSHeader_New_inv src h st0 E) as (? & ? & _). split; assumption. }
  destruct Hdos as [Hlen Hmz].
  rewrite parseFileHeader_New in Hparse by assumption.
  destruct (parseFileHeader_ok_inv (file_dos src) (dos_trace src) (dos_of src)
              eq_refl (peoff_range src) st' Hparse) as [Hlen2 Hpe].
  fold (peoff src) in Hlen2, Hpe.
  rewrite (FileHeader_New src Hlen Hmz Hlen2 Hpe) in H.
  injection H as Hfh Hst.
  repeat split; try assumption; symmetry; assumption.
Qed.

(* ===================================================================== *)
(** ** Properties: the section headers *)
(* ===================================================================== *)

Lemma update_app {A} (l1 l2 : list A) (x y : A) :
  update (l1 ++ x :: l2) (List.length l1) y = l1 ++ y :: l2.
Proof. induction l1 as [|a l1 IH]; cbn; [reflexivity|]. rewrite IH. reflexivity. Qed.

Lemma update_app_at {A} (l1 l2 : list A) (x y : A) (k : nat) :
  List.length l1 = k -> update (l1 ++ x :: l2) k y = l1 ++ y :: l2.
Proof. intros <-. apply update_app. Qed.


Lemma sects_at_S (src : list byte) (base : Z) (n : nat) :
  sects_at src base (S n) = sects_at src base n ++ [sect_at src base n].
Proof. unfold sects_at. rewrite seq_S, map_app. reflexivity. Qed.

Lemma length_sects_at (src : list byte) (base : Z) (n : nat) :
  List.length (sects_at src base n) = n.
Proof. unfold sects_at. rewrite length_map, length_seq. reflexivity. Qed.

(** The loop of [parseSectHeaders] when the whole table lies in the source:
    started at index [k] with the first [k] entries decoded, it decodes the
    remaining [m] windows in order. *)
Lemma readSectHeaders_ok (src : list byte) (base : Z) (N : nat) :
  0 <= base -> base + sectHdrSize * Z.of_nat N <= Zlen src ->
  forall (m k : nat) (d : option DOSHeader.t) (fh : option FileHeader.t)
         (o : option OptHeader.t) (ov : option (list byte)) (tr : list event),
  (k + m = N)%nat ->
  readSectHeaders (seq k m)
    (SectionReader.mk base (base + sectHdrSize * Z.of_nat k)
       (base + sectHdrSize * Z.of_nat N))
    (File.mk d fh o (Some (map Some (sects_at src base k) ++ repeat None m)) ov src, tr)
  = (Ok tt,
     (File.mk d fh o (Some (map Some (sects_at src base N))) ov src,
      tr ++ sect_trace base k m)).
Proof.
  unfold sectHdrSize. intros Hbase Hlen.
  induction m as [|m IH]; intros k d fh o ov tr Hkm.
  - cbn [seq readSectHeaders repeat]. unfold ret, sect_trace. cbn [seq map].
    rewrite !app_nil_r. replace k with N by lia. reflexivity.
  - cbn [seq readSectHeaders repeat]. unfold set_sectHdr. munfold.
    cbn [File.r File.sectHdrs File.set_sectHdrs File.doshdr File.fileHdr
           File.opthdr File.overlay].
    rewrite ReadFull_ok
      by (cbn [SectionReader.off SectionReader.limit]; unfold SectHeader.size; lia).
    unfold SectionReader.advance.
    cbn [SectionReader.off SectionReader.base SectionReader.limit fst snd].
    cbn [File.r File.sectHdrs File.set_sectHdrs File.doshdr File.fileHdr
           File.opthdr File.overlay].
    assert (Hk : List.length (map Some (sects_at src base k)) = k)
      by (rewrite length_map; apply length_sects_at).
    rewrite !(update_app_at _ _ _ _ k) by exact Hk.
    unfold File.set_sectHdrs.
    cbn [File.r File.sectHdrs File.doshdr File.fileHdr File.opthdr File.overlay].
    replace (map Some (sects_at src base k)
               ++ Some (SectHeader.decode
                          (slice src (base + 40 * Z.of_nat k) SectHeader.size))
                  :: repeat None m)
      with (map Some (sects_at src base (S k)) ++ repeat None m).
    2:{ rewrite sects_at_S, map_app, <- app_assoc. reflexivity. }
    replace (base + 40 * Z.of_nat k + SectHeader.size)
      with (base + 40 * Z.of_nat (S k)) by (unfold SectHeader.size; lia).
    rewrite IH by lia.
    unfold sect_trace. cbn [seq map]. rewrite <- app_assoc. reflexivity.
Qed.


(** [parseSectHeaders] once both headers are cached: the slice is made, then
    the loop runs over the window that the declared [OptHdrSize] locates. *)
Lemma parseSectHeaders_cached (f : File.t) (tr : list event)
    (h : DOSHeader.t) (fh : FileHeader.t) :
  File.doshdr f = Some h -> File.fileHdr f = Some fh ->
  let base := DOSHeader.PEHdrOffset h + fileHdrSize + FileHeader.OptHdrSize fh in
  let n := FileHeader.NSection fh in
  0 <= base + sectHdrSize * n <= maxint64 ->
  parseSectHeaders (f, tr) =
    readSectHeaders (seq 0 (Z.to_nat n))
      (SectionReader.mk base base (base + sectHdrSize * n))
      (File.set_sectHdrs (Some (repeat None (Z.to_nat n))) f,
       tr ++ [EvMake AllocSectHdrs n]).
Proof.
  intros Hd Hf base n Hrange. unfold parseSectHeaders.
  rewrite (bind_eq_ok _ _ _ _ _ (DOSHeader_cached f tr h Hd)).
  unfold deref at 1. unfold bind at 1. unfold ret at 1.
  rewrite (bind_eq_ok _ _ _ _ _ (FileHeader_cached f tr fh Hf)).
  unfold deref at 1. unfold bind at 1. unfold ret at 1.
  fold base. fold n. munfold.
  rewrite New_small by (rewrite Z.mul_comm; lia).
  rewrite (Z.mul_comm n sectHdrSize). reflexivity.
Qed.

Lemma filehdr_ranges (src : list byte) (p : Z) :
  0 <= FileHeader.NSection (filehdr_at src p) < 2 ^ 16 /\
  0 <= FileHeader.OptHdrSize (filehdr_at src p) < 2 ^ 16.
Proof. split; apply u16_range. Qed.

Lemma sect_base_range (src : list byte) :
  0 <= sect_base src /\ 0 <= nsection src < 2 ^ 16 /\
  0 <= sect_base src + sectHdrSize * nsection src <= maxint64.
Proof.
  unfold sect_base, nsection, fileHdrSize, sectHdrSize, maxint64.
  pose proof (peoff_range src).
  destruct (filehdr_ranges src (peoff src)). lia.
Qed.

(** [parseSectHeaders] on a fresh file whose two headers parse. *)
Lemma parseSectHeaders_New (src : list byte) :
  dosHdrSize <= Zlen src -> u16 src 0 = mz ->
  peoff src + fileHdrSize <= Zlen src -> u32 src (peoff src) = pe ->
  parseSectHeaders (File.New src, []) =
    readSectHeaders (seq 0 (Z.to_nat (nsection src)))
      (SectionReader.mk (sect_base src) (sect_base src)
         (sect_base src + sectHdrSize * nsection src))
      (File.set_sectHdrs (Some (repeat None (Z.to_nat (nsection src)))) (file_hdrs src),
       hdrs_trace src ++ [EvMake AllocSectHdrs (nsection src)]).
Proof.
  intros Hlen Hmz Hlen2 Hpe.
  destruct (sect_base_range src) as (Hb & Hn & Hr).
  transitivity (parseSectHeaders (file_hdrs src, hdrs_trace src)).
  2:{ exact (parseSectHeaders_cached (file_hdrs src) (hdrs_trace src)
               (dos_of src) (filehdr_at src (peoff src)) eq_refl eq_refl Hr). }
  unfold parseSectHeaders.
  rewrite DOSHeader_bind_New by assumption.
  rewrite (bind_eq_ok _ _ _ _ _ (DOSHeader_cached (file_dos src) _ _ eq_refl)).
  rewrite (bind_eq_ok _ _ _ _ _ (DOSHeader_cached (file_hdrs src) _ _ eq_refl)).
  munfold.
  rewrite (FileHeader_dos_cached src Hlen2 Hpe).
  rewrite (FileHeader_cached (file_hdrs src) (hdrs_trace src) _ eq_refl).
  reflexivity.
Qed.

(** The fields of a section header decoded from the window at [a] are the
    little-endian values at fixed offsets inside that window. *)
Lemma SectHeader_decode_window (src : list byte) (a : Z) :
  0 <= a ->
  SectHeader.decode (slice src a sectHdrSize) =
    {| SectHeader.Name := slice src a 8;
       SectHeader.VirtSize := u32 src (a + 8);
       SectHeader.RelAddr := u32 src (a + 12);
       SectHeader.Size := u32 src (a + 16);
       SectHeader.Offset := u32 src (a + 20);
       SectHeader.RelocsOffset := u32 src (a + 24);
       SectHeader.LineNumsOffset := u32 src (a + 28);
       SectHeader.NReloc := u16 src (a + 32);
       SectHeader.NLineNum := u16 src (a + 34);
       SectHeader.Flags := u32 src (a + 36) |}.
Proof.
  intros Ha. unfold SectHeader.decode, u32, u16, le_at, sectHdrSize.
  rewrite !slice_slice by lia. rewrite Z.add_0_r. reflexivity.
Qed.

Lemma nth_error_sects_at (src : list byte) (base : Z) (n i : nat) :
  (i < n)%nat ->
  nth_error (map Some (sects_at src base n)) i = Some (Some (sect_at src base i)).
Proof.
  intros Hi. unfold sects_at. rewrite map_map.
  rewrite (nth_error_map (fun x => Some (sect_at src base x))).
  rewrite nth_error_seq. destruct (Nat.ltb_spec i n); [reflexivity|lia].
Qed.

(** [SectHeaders] on a fresh file whose headers parse and whose section table
    lies inside the source. *)
Lemma SectHeaders_New_ok (src : list byte) :
  dosHdrSize <= Zlen src -> u16 src 0 = mz ->
  peoff src + fileHdrSize <= Zlen src -> u32 src (peoff src) = pe ->
  sect_base src + sectHdrSize * nsection src <= Zlen src ->
  let n := Z.to_nat (nsection src) in
  let l := map Some (sects_at src (sect_base src) n) in
  SectHeaders (File.New src, []) =
    (Ok (Some l),
     (File.set_sectHdrs (Some l) (file_hdrs src),
      hdrs_trace src ++ [EvMake AllocSectHdrs (nsection src)]
        ++ sect_trace (sect_base src) 0 n)).
Proof.
  intros Hlen Hmz Hlen2 Hpe Htable. cbv zeta.
  destruct (sect_base_range src) as (Hb & Hn & Hr).
  unfold SectHeaders. munfold. cbn [File.New File.sectHdrs].
  fold (File.New src).
  rewrite parseSectHeaders_New by assumption.
  assert (Hid : Z.of_nat (Z.to_nat (nsection src)) = nsection src)
    by (apply Z2Nat.id; lia).
  rewrite <- Hid at 2.
  pose proof (readSectHeaders_ok src (sect_base src) (Z.to_nat (nsection src)) Hb
                ltac:(rewrite Hid; exact Htable) (Z.to_nat (nsection src)) 0%nat
                (Some (dos_of src)) (Some (filehdr_at src (peoff src))) None None
                (hdrs_trace src ++ [EvMake AllocSectHdrs (nsection src)])
                eq_refl) as Hloop.
  cbn [sects_at seq map app] in Hloop.
  rewrite Z.mul_0_r, Z.add_0_r in Hloop.
  unfold file_hdrs, file_dos, File.set_fileHdr, File.set_doshdr, File.set_sectHdrs, File.New.
  cbn [File.doshdr File.fileHdr File.opthdr File.sectHdrs File.overlay File.r].
  unfold sects_at in *.
  rewrite Hloop. cbn [fst snd File.sectHdrs].
  rewrite <- app_assoc. reflexivity.
Qed.

(** C8, as stated, at [image_cut_table]: the DOS and file headers parse and
    declare three sections, the source ends four bytes into the second section
    header, and [SectHeaders] returns no list of three entries: it fails with
    the read error. *)
Lemma SectHeaders_fails_on_cut_table :
  let src := image_cut_table in
  (exists (fh : FileHeader.t) (st : state),
     run FileHeader (File.New src) = (Ok (Some fh), st) /\
     FileHeader.NSection fh = 3) /\
  fst (run SectHeaders (File.New src)) = Err (ErrSectHeaderRead ErrUnexpectedEOF) /\
  ~ (exists (l : list (option SectHeader.t)) (st : state),
       run SectHeaders (File.New src) = (Ok (Some l), st) /\ Zlen l = 3).
Proof.
  intros src.
  assert (Hrun : fst (run SectHeaders (File.New src)) =
                 Err (ErrSectHeaderRead ErrUnexpectedEOF))
    by (vm_compute; reflexivity).
  split; [|split; [exact Hrun|]].
  - exists (filehdr_at src 64). eexists. split; vm_compute; reflexivity.
  - intros (l & st & Hok & _). rewrite Hok in Hrun. discriminate Hrun.
Qed.

(** C8 (amended).  For every file whose DOS and COFF file headers parse and whose
    section table lies inside the source, [SectHeaders] returns exactly
    [NSection] entries, in on-disk order; entry [i] is decoded little-endian
    from the 40-byte window at file offset
    [PEHdrOffset + 24 + OptHdrSize + 40*i], where [OptHdrSize] is the declared
    field of the file header: the optional header itself is never read, and
    the reads after the two headers are exactly these windows, in order. *)
Theorem SectHeaders_decodes_declared_windows
    (src : list byte) (h : DOSHeader.t) (fh : FileHeader.t) (st1 : state) :
  run FileHeader (File.New src) = (Ok (Some fh), st1) ->
  File.doshdr (fst st1) = Some h ->
  let n := FileHeader.NSection fh in
  let base := DOSHeader.PEHdrOffset h + fileHdrSize + FileHeader.OptHdrSize fh in
  base + sectHdrSize * n <= Zlen src ->
  exists (l : list (option SectHeader.t)) (st : state),
    run SectHeaders (File.New src) = (Ok (Some l), st) /\
    Zlen l = n /\
    (forall i : Z, 0 <= i < n ->
       let a := base + sectHdrSize * i in
       nth_error l (Z.to_nat i) =
         Some (Some {| SectHeader.Name := slice src a 8;
                       SectHeader.VirtSize := u32 src (a + 8);
                       SectHeader.RelAddr := u32 src (a + 12);
                       SectHeader.Size := u32 src (a + 16);
                       SectHeader.Offset := u32 src (a + 20);
                       SectHeader.RelocsOffset := u32 src (a + 24);
                       SectHeader.LineNumsOffset := u32 src (a + 28);
                       SectHeader.NReloc := u16 src (a + 32);
                       SectHeader.NLineNum := u16 src (a + 34);
                       SectHeader.Flags := u32 src (a + 36) |})) /\
    File.opthdr (fst st) = None /\
    snd st = snd st1 ++ EvMake AllocSectHdrs n
               :: map (fun i => EvRead (base + sectHdrSize * Z.of_nat i) sectHdrSize)
                    (seq 0 (Z.to_nat n)).
Proof.
  intros Hfh Hh.
  destruct (FileHeader_New_inv src fh st1 Hfh) as (Hlen & Hmz & Hlen2 & Hpe & -> & ->).
  cbn [fst snd file_hdrs file_dos File.set_fileHdr File.set_doshdr File.doshdr
         File.New] in Hh.
  injection Hh as <-. fold (peoff src). fold (nsection src). fold (sect_base src).
  cbv zeta. intros Htable.
  destruct (sect_base_range src) as (Hb & Hn & Hr).
  eexists. eexists. unfold run.
  split; [apply SectHeaders_New_ok; assumption|].
  split; [|split; [|split]].
  - unfold Zlen. rewrite length_map, length_sects_at. lia.
  - intros i Hi.
    rewrite nth_error_sects_at by lia.
    unfold sect_at. rewrite Z2Nat.id by lia.
    rewrite SectHeader_decode_window by (unfold sectHdrSize; lia).
    reflexivity.
  - reflexivity.
  - cbn [snd]. reflexivity.
Qed.

Lemma SectHeaders_decodes_declared_windows_witness :
  FileHeader.OptHdrSize (filehdr_at image_two_sections 64) = 8 /\
  exists (l : list (option SectHeader.t)) (st : state),
    run SectHeaders (File.New image_two_sections) = (Ok (Some l), st) /\
    Zlen l = 2 /\
    nth_error l 0 =
      Some (Some (SectHeader.mk (repeat Byte.x00 8) 0 0 4 200 0 0 0 0 0)) /\
    nth_error l 1 =
      Some (Some (SectHeader.mk (repeat Byte.x00 8) 0 0 6 300 0 0 0 0 0)) /\
    snd st = hdrs_trace image_two_sections
               ++ [EvMake AllocSectHdrs 2; EvRead 96 40; EvRead 136 40].
Proof.
  split; [vm_compute; reflexivity|].
  assert (Hfh : run FileHeader (File.New image_two_sections) =
                (Ok (Some (filehdr_at image_two_sections 64)),
                 snd (run FileHeader (File.New image_two_sections))))
    by (vm_compute; reflexivity).
  destruct (SectHeaders_decodes_declared_windows image_two_sections
              (dos_of image_two_sections) _ _ Hfh)
    as (l & st & Hrun & Hlen & Hnth & _ & Htr).
  - vm_compute. reflexivity.
  - vm_compute. discriminate.
  - exists l, st. split; [exact Hrun|]. split; [exact Hlen|].
    assert (H0 : 0 <= 0 < FileHeader.NSection (filehdr_at image_two_sections 64))
      by (vm_compute; split; [discriminate|reflexivity]).
    assert (H1 : 0 <= 1 < FileHeader.NSection (filehdr_at image_two_sections 64))
      by (vm_compute; split; [discriminate|reflexivity]).
    pose proof (Hnth 0 H0) as Hentry0. pose proof (Hnth 1 H1) as Hentry1.
    cbv zeta in Hentry0, Hentry1.
    change (Z.to_nat 0) with 0%nat in Hentry0.
    change (Z.to_nat 1) with 1%nat in Hentry1.
    split; [rewrite Hentry0; vm_compute; reflexivity|].
    split; [rewrite Hentry1; vm_compute; reflexivity|].
    rewrite Htr. vm_compute. reflexivity.
Defined.

(* ===================================================================== *)
(** ** Properties: declared counts and allocation *)
(* ===================================================================== *)

Lemma parseOptHeader_New (src : list byte) :
  dosHdrSize <= Zlen src -> u16 src 0 = mz ->
  parseOptHeader (File.New src, []) = parseOptHeader (file_dos src, dos_trace src).
Proof. intros. unfold parseOptHeader. apply DOSHeader_bind_New; assumption. Qed.

(** [OptHeader] with an empty cache runs [parseOptHeader]. *)
Lemma OptHeader_uncached (f : File.t) (tr : list event) :
  File.opthdr f = None ->
  OptHeader (f, tr) =
    match parseOptHeader (f, tr) with
    | (Ok _, st') => (Ok (File.opthdr (fst st')), st')
    | (Err e, st') => (Err e, st')
    | (Panic p, st') => (Panic p, st')
    | (OutOfFuel, st') => (OutOfFuel, st')
    end.
Proof.
  intros H. unfold OptHeader. munfold. rewrite H.
  destruct (parseOptHeader (f, tr)) as [[[]| | |] st']; reflexivity.
Qed.




(* ===================================================================== *)
(** ** Properties: the signature checks *)
(* ===================================================================== *)

(** C9.  The signature checks and what they guard.
    (1) On a source whose first two bytes are not [0x4D 0x5A], [DOSHeader]
    fails with the invalid-signature error; the only effect is the two-byte
    read, no header is cached, and [FileHeader], [OptHeader], [SectHeaders],
    [Overlay] and [Parse] fail with that error in that same state, so no
    later header is attempted.
    (2) On a source whose DOS header parses and whose four bytes at
    [PEHdrOffset] are not "PE\0\0", [FileHeader] fails with the
    invalid-signature error after the four-byte read, and so do
    [SectHeaders], [Overlay] and [Parse]: only the DOS header is cached.
    (3) [OptHeader] is not guarded by that check.  On the same source, when
    the optional header and its data directories can be read, [OptHeader]
    succeeds: it never reads the four bytes at [PEHdrOffset], decodes the
    optional header behind the invalid signature and caches it, while the
    file header stays nil. *)
Theorem signature_checks_miss_OptHeader (src : list byte) :
  let f0 := File.New src in
  (2 <= Zlen src -> slice src 0 2 <> [Byte.x4d; Byte.x5a] ->
   let e := ErrDOSSignature (u16 src 0) in
   let st := (f0, [EvRead 0 2]) in
   run DOSHeader f0 = (Err e, st) /\
   run FileHeader f0 = (Err e, st) /\
   run OptHeader f0 = (Err e, st) /\
   run SectHeaders f0 = (Err e, st) /\
   run Overlay f0 = (Err (ErrWithStack e), st) /\
   run Parse f0 = (Err e, st))
  /\
  (forall (h : DOSHeader.t) (st1 : state),
   run DOSHeader f0 = (Ok (Some h), st1) ->
   let p := DOSHeader.PEHdrOffset h in
   p + 4 <= Zlen src ->
   slice src p 4 <> [Byte.x50; Byte.x45; Byte.x00; Byte.x00] ->
   let e := ErrFileSignature (u32 src p) in
   let st := (File.mk (Some h) None None None None src, dos_trace src ++ [EvRead p 4]) in
   run FileHeader f0 = (Err e, st) /\
   run SectHeaders f0 = (Err e, st) /\
   run Overlay f0 = (Err (ErrWithStack e), st) /\
   run Parse f0 = (Err e, st) /\
   (let n := OptHeader32.NDataDir (opthdr32_at src p) in
    n <= 16 ->
    p + fileHdrSize + OptHeader32.size + DataDirectory.size * n <= Zlen src ->
    let o := OptHeader.mk (opthdr32_at src p) (Some (datadirs_at src p)) in
    run OptHeader f0 =
      (Ok (Some o),
       (File.mk (Some h) None (Some o) None None src,
        dos_trace src ++ opt_trace src p)))).
Proof.
  cbv zeta. unfold run. split.
  - intros Hlen Hbytes.
    assert (Hmz : u16 src 0 <> mz).
    { intros H. apply Hbytes. apply u16_mz_bytes; assumption. }
    pose proof (parseDOSHeader_bad_signature (File.New src) [] Hlen Hmz) as Hfail.
    cbn [File.New File.r app] in Hfail. fold (File.New src) in Hfail.
    assert (Hsect : SectHeaders (File.New src, []) =
                    (Err (ErrDOSSignature (u16 src 0)), (File.New src, [EvRead 0 2]))).
    { apply SectHeaders_fails; [reflexivity|].
      apply parseSectHeaders_fails_dos; [reflexivity|exact Hfail]. }
    repeat split.
    + apply DOSHeader_fails; [reflexivity|exact Hfail].
    + apply FileHeader_fails; [reflexivity|].
      apply parseFileHeader_fails_dos; [reflexivity|exact Hfail].
    + apply OptHeader_fails; [reflexivity|].
      apply parseOptHeader_fails_dos; [reflexivity|exact Hfail].
    + exact Hsect.
    + apply Overlay_fails_sect; [reflexivity|exact Hsect].
    + apply Parse_fails_dos. exact Hfail.
  - intros h st1 Hdos Hlen Hbytes.
    destruct (DOSHeader_New_inv src h st1 Hdos) as (Hlen64 & Hmz & -> & ->).
    fold (peoff src) in *. pose proof (peoff_range src) as Hp.
    assert (Hpe : u32 src (peoff src) <> pe).
    { intros H. apply Hbytes. apply u32_pe_bytes; [lia|assumption|assumption]. }
    pose proof (parseFileHeader_bad_signature (file_dos src) (dos_trace src)
                  (dos_of src) eq_refl Hp Hlen Hpe) as Hfail.
    cbn [file_dos File.set_doshdr File.New File.r File.fileHdr File.opthdr
           File.sectHdrs File.overlay] in Hfail.
    change (File.mk (Some (dos_of src)) None None None None src)
      with (file_dos src) in *.
    fold (peoff src) in Hfail.
    assert (Hfresh : parseFileHeader (File.New src, []) =
                     (Err (ErrFileSignature (u32 src (peoff src))),
                      (file_dos src, dos_trace src ++ [EvRead (peoff src) 4]))).
    { unfold parseFileHeader. rewrite DOSHeader_bind_New by assumption. exact Hfail. }
    assert (Hacc : FileHeader (file_dos src, dos_trace src) =
                   (Err (ErrFileSignature (u32 src (peoff src))),
                    (file_dos src, dos_trace src ++ [EvRead (peoff src) 4]))).
    { apply FileHeader_fails; [reflexivity|exact Hfail]. }
    assert (Hsect : SectHeaders (File.New src, []) =
                    (Err (ErrFileSignature (u32 src (peoff src))),
                     (file_dos src, dos_trace src ++ [EvRead (peoff src) 4]))).
    { apply SectHeaders_fails; [reflexivity|].
      unfold parseSectHeaders. rewrite DOSHeader_bind_New by assumption.
      rewrite (bind_eq_ok _ _ _ _ _ (DOSHeader_cached (file_dos src) _ _ eq_refl)).
      unfold deref at 1. unfold bind at 1. unfold ret at 1.
      apply bind_eq_err. exact Hacc. }
    split; [|split; [|split; [|split]]].
    + apply FileHeader_fails; [reflexivity|exact Hfresh].
    + exact Hsect.
    + apply Overlay_fails_sect; [reflexivity|exact Hsect].
    + unfold Parse.
      rewrite (bind_eq_ok _ _ _ _ _
                 (parseDOSHeader_ok (File.New src) [] Hlen64 Hmz)).
      apply bind_eq_err. exact Hfail.
    + intros Hn Hfits.
      rewrite OptHeader_uncached by reflexivity.
      rewrite parseOptHeader_New by assumption.
      rewrite (parseOptHeader_ok (file_dos src) (dos_trace src) (dos_of src) eq_refl
                 Hp Hn Hfits).
      reflexivity.
Qed.

Lemma signature_checks_miss_OptHeader_witness :
  (let src := zeros 64 in
   run Parse (File.New src) = (Err (ErrDOSSignature 0), (File.New src, [EvRead 0 2])))
  /\
  (let src := image_bad_pe_signature in
   fst (run FileHeader (File.New src)) = Err (ErrFileSignature 0x4551) /\
   fst (run SectHeaders (File.New src)) = Err (ErrFileSignature 0x4551) /\
   exists (o : OptHeader.t) (st : state),
     run OptHeader (File.New src) = (Ok (Some o), st) /\
     OptHeader32.State (OptHeader.Hdr32 o) = 0x010B /\
     OptHeader.DataDirs o =
       Some [{| DataDirectory.RelAddr := 0x1000; DataDirectory.Size := 0x20 |}] /\
     File.opthdr (fst st) = Some o /\
     File.fileHdr (fst st) = None /\
     ~ In (EvRead 64 4) (snd st)).
Proof.
  split.
  - intros src.
    destruct (signature_checks_miss_OptHeader src) as [H _].
    destruct H as (_ & _ & _ & _ & _ & H).
    + vm_compute. discriminate.
    + vm_compute. discriminate.
    + exact H.
  - intros src.
    destruct (signature_checks_miss_OptHeader src) as [_ H].
    assert (Hdos : run DOSHeader (File.New src) =
                   (Ok (Some (dos_of src)), snd (run DOSHeader (File.New src))))
      by (vm_compute; reflexivity).
    destruct (H _ _ Hdos) as (Hf & Hs & _ & _ & Hopt).
    + vm_compute. discriminate.
    + vm_compute. discriminate.
    + split; [rewrite Hf; vm_compute; reflexivity|].
      split; [rewrite Hs; vm_compute; reflexivity|].
      eexists. eexists. split.
      * apply Hopt; vm_compute; first [discriminate|reflexivity].
      * cbn [fst snd File.opthdr File.fileHdr OptHeader.Hdr32 OptHeader.DataDirs].
        split; [vm_compute; reflexivity|]. split; [vm_compute; reflexivity|].
        split; [reflexivity|]. split; [reflexivity|].
        vm_compute. intros Hin.
        repeat (destruct Hin as [Hin|Hin]; [discriminate Hin|]). exact Hin.
Defined.

(* ===================================================================== *)
(** ** Properties: the overlay *)
(* ===================================================================== *)

Lemma overlayStart_loop_run (shs : list SectHeader.t) :
  forall (acc : Z) (st : state),
  overlayStart_loop (map Some shs) acc st = (Ok (overlay_start shs acc), st).
Proof.
  induction shs as [|sh shs IH]; intros acc st; cbn [map overlayStart_loop overlay_start].
  - reflexivity.
  - munfold. apply IH.
Qed.

Lemma overlay_start_ge (shs : list SectHeader.t) :
  forall acc : Z, acc <= overlay_start shs acc.
Proof.
  induction shs as [|sh shs IH]; intros acc; cbn [overlay_start]; [lia|].
  destruct (Z.gtb_spec (uint32 (SectHeader.Offset sh + SectHeader.Size sh)) acc).
  - etransitivity; [|apply IH]. lia.
  - apply IH.
Qed.

(** The overlay buffer is read whole when it lies inside the source. *)
Lemma ReadAt_tail (src : list byte) (start : Z) :
  0 <= start <= Zlen src ->
  ReadAt src (Zlen src - start) start = (slice src start (Zlen src - start), None).
Proof.
  intros Hs. unfold ReadAt.
  destruct (Z.ltb_spec start 0); [lia|].
  destruct (Z.leb_spec (Zlen src - start) 0).
  - replace (Zlen src - start) with 0 by lia. reflexivity.
  - rewrite Zlen_slice_full by lia.
    destruct (Z.ltb_spec (Zlen src - start) (Zlen src - start)); [lia|reflexivity].
Qed.

(** [Overlay] with an empty cache, once the section headers are known. *)
Lemma Overlay_run (f f1 : File.t) (tr tr1 : list event) (shs : list SectHeader.t) :
  File.overlay f = None ->
  SectHeaders (f, tr) = (Ok (Some (map Some shs)), (f1, tr1)) ->
  let start := overlay_start shs 0 in
  let size := SeekEnd (File.r f1) - start in
  Overlay (f, tr) =
    if size <? 0 then (Panic MakeSliceLenRange, (f1, tr1))
    else
      let tr2 := tr1 ++ [EvMake AllocOverlay size; EvRead start size] in
      match ReadAt (File.r f1) size start with
      | (_, Some e) => (Err (ErrWithStack (ErrIO e)), (f1, tr2))
      | (bs, None) => (Ok (Some bs), (File.set_overlay (Some bs) f1, tr2))
      end.
Proof.
  intros Hnil Hsect. cbv zeta. unfold Overlay. munfold. rewrite Hnil.
  unfold parseOverlay. munfold. rewrite Hsect.
  rewrite overlayStart_loop_run. cbn [fst snd].
  destruct (_ <? 0); [reflexivity|].
  rewrite <- app_assoc. cbn [app].
  destruct (ReadAt _ _ _) as [bs [e|]]; reflexivity.
Qed.

Lemma preserves_r_ret {A} (a : A) : preserves_r (ret a).
Proof. intros st. reflexivity. Qed.

Lemma preserves_r_fail {A} (e : error) : preserves_r (@fail A e).
Proof. intros st. reflexivity. Qed.

Lemma preserves_r_panic {A} (p : panic_reason) : preserves_r (@panic A p).
Proof. intros st. reflexivity. Qed.

Lemma preserves_r_get_file : preserves_r get_file.
Proof. intros st. reflexivity. Qed.

Lemma preserves_r_emit (e : event) : preserves_r (emit e).
Proof. intros st. reflexivity. Qed.

Lemma preserves_r_modify_file (g : File.t -> File.t) :
  (forall f, File.r (g f) = File.r f) -> preserves_r (modify_file g).
Proof. intros Hg st. apply Hg. Qed.

Lemma preserves_r_bind {A B} (c : M A) (k : A -> M B) :
  preserves_r c -> (forall a, preserves_r (k a)) -> preserves_r (bind c k).
Proof.
  intros Hc Hk st. unfold bind. specialize (Hc st).
  destruct (c st) as [[a|e|p|] st']; cbn [fst snd] in *; try exact Hc.
  rewrite Hk. exact Hc.
Qed.

Lemma preserves_r_map_err {A} (wrap : error -> error) (c : M A) :
  preserves_r c -> preserves_r (map_err wrap c).
Proof.
  intros Hc st. unfold map_err. specialize (Hc st).
  destruct (c st) as [[a|e|p|] st']; exact Hc.
Qed.

Create HintDb preserves discriminated.
#[local] Hint Resolve preserves_r_ret preserves_r_fail preserves_r_panic
  preserves_r_get_file preserves_r_emit preserves_r_map_err : preserves.

Ltac preserves_step :=
  match goal with
  | |- preserves_r (bind _ _) => apply preserves_r_bind; [|intros]
  | |- preserves_r (modify_file _) => apply preserves_r_modify_file; intros; reflexivity
  | |- preserves_r (when ?b _) => unfold when; destruct b
  | |- preserves_r (deref ?p) => unfold deref; destruct p
  | |- preserves_r (binary_Read _ _) => unfold binary_Read, io_ReadFull
  | |- preserves_r (io_ReadFull _ _) => unfold io_ReadFull
  | |- preserves_r (match ?x with _ => _ end) => destruct x
  | |- preserves_r (if ?b then _ else _) => destruct b
  | |- preserves_r _ => solve [auto with preserves]
  end.

Ltac preserves := repeat preserves_step.

Lemma preserves_r_log_reserved (vs : list Z) : forall i, preserves_r (log_reserved i vs).
Proof.
  induction vs as [|v vs IH]; intros i; cbn [log_reserved]; preserves; apply IH.
Qed.

Lemma preserves_r_parseDOSHeader : preserves_r parseDOSHeader.
Proof. unfold parseDOSHeader. preserves; apply preserves_r_log_reserved. Qed.
#[local] Hint Resolve preserves_r_parseDOSHeader : preserves.

Lemma preserves_r_DOSHeader : preserves_r DOSHeader.
Proof. unfold DOSHeader. preserves. Qed.
#[local] Hint Resolve preserves_r_DOSHeader : preserves.

Lemma preserves_r_parseFileHeader : preserves_r parseFileHeader.
Proof. unfold parseFileHeader. preserves. Qed.
#[local] Hint Resolve preserves_r_parseFileHeader : preserves.

Lemma preserves_r_FileHeader : preserves_r FileHeader.
Proof. unfold FileHeader. preserves. Qed.
#[local] Hint Resolve preserves_r_FileHeader : preserves.

Lemma preserves_r_readSectHeaders (idxs : list nat) :
  forall sr, preserves_r (readSectHeaders idxs sr).
Proof.
  induction idxs as [|i idxs IH]; intros sr; cbn [readSectHeaders];
    unfold set_sectHdr; preserves; apply IH.
Qed.

Lemma preserves_r_parseSectHeaders : preserves_r parseSectHeaders.
Proof. unfold parseSectHeaders. preserves. apply preserves_r_readSectHeaders. Qed.
#[local] Hint Resolve preserves_r_parseSectHeaders : preserves.

Lemma preserves_r_SectHeaders : preserves_r SectHeaders.
Proof. unfold SectHeaders. preserves. Qed.

(** C2.  With the section table parsed, let [ext] be the maximum section
    extent as [parseOverlay] computes it (the maximum of
    [uint32(Offset + Size)], or 0).  When [ext] equals the length of the
    source, [Overlay] succeeds with an empty, non-nil overlay; when [ext] is
    greater, [Overlay] neither succeeds nor returns an error: [make] is
    called with a negative length and panics. *)
Theorem Overlay_panics_when_extent_exceeds_source
    (src : list byte) (shs : list SectHeader.t) (st1 : state) :
  run SectHeaders (File.New src) = (Ok (Some (map Some shs)), st1) ->
  let ext := overlay_start shs 0 in
  (ext = Zlen src -> fst (run Overlay (File.New src)) = Ok (Some [])) /\
  (Zlen src < ext -> fst (run Overlay (File.New src)) = Panic MakeSliceLenRange).
Proof.
  unfold run. intros Hsect. destruct st1 as [f1 tr1].
  assert (Hr : File.r f1 = src).
  { pose proof (preserves_r_SectHeaders (File.New src, [])) as H.
    rewrite Hsect in H. exact H. }
  rewrite (Overlay_run (File.New src) f1 [] tr1 shs eq_refl Hsect).
  cbv zeta. rewrite Hr. unfold SeekEnd.
  pose proof (overlay_start_ge shs 0) as Hge.
  split.
  - intros Hext. rewrite Hext.
    destruct (Z.ltb_spec (Zlen src - Zlen src) 0); [lia|].
    rewrite ReadAt_tail by (pose proof (Zlen_nonneg src); lia).
    rewrite Z.sub_diag. reflexivity.
  - intros Hext.
    destruct (Z.ltb_spec (Zlen src - overlay_start shs 0) 0); [reflexivity|lia].
Qed.

Lemma Overlay_panics_when_extent_exceeds_source_witness :
  Zlen image_section_past_end = 128 /\
  overlay_start [SectHeader.decode (sect_header_image 40 128)] 0 = 168 /\
  fst (run Overlay (File.New image_section_past_end)) = Panic MakeSliceLenRange.
Proof.
  split; [vm_compute; reflexivity|]. split; [vm_compute; reflexivity|].
  assert (Hsect : run SectHeaders (File.New image_section_past_end) =
                  (Ok (Some (map Some [SectHeader.decode (sect_header_image 40 128)])),
                   snd (run SectHeaders (File.New image_section_past_end))))
    by (vm_compute; reflexivity).
  destruct (Overlay_panics_when_extent_exceeds_source _ _ _ Hsect) as [_ Hpanic].
  apply Hpanic. vm_compute. reflexivity.
Defined.

(** [SectHeaders] on a fresh file that declares no section: an empty, non-nil
    slice, whatever follows the headers. *)
Lemma SectHeaders_New_none (src : list byte) :
  dosHdrSize <= Zlen src -> u16 src 0 = mz ->
  peoff src + fileHdrSize <= Zlen src -> u32 src (peoff src) = pe ->
  nsection src = 0 ->
  SectHeaders (File.New src, []) =
    (Ok (Some []),
     (File.set_sectHdrs (Some []) (file_hdrs src),
      hdrs_trace src ++ [EvMake AllocSectHdrs 0])).
Proof.
  intros Hlen Hmz Hlen2 Hpe Hn.
  unfold SectHeaders. munfold. cbn [File.New File.sectHdrs]. fold (File.New src).
  rewrite parseSectHeaders_New by assumption.
  rewrite Hn. reflexivity.
Qed.

(** C4, as stated, at [image_no_section]: the file parses with no section, and
    the overlay is not the two bytes that follow the header region. *)
Lemma overlay_without_sections_is_not_after_headers :
  let src := image_no_section in
  let hdr_end := peoff src + fileHdrSize
                 + FileHeader.OptHdrSize (filehdr_at src (peoff src)) in
  fst (run Parse (File.New src)) = Ok tt /\
  nsection src = 0 /\
  slice src hdr_end (Zlen src - hdr_end) = [Byte.xaa; Byte.xbb] /\
  ~ fst (run Overlay (File.New src)) =
      Ok (Some (slice src hdr_end (Zlen src - hdr_end))).
Proof.
  vm_compute. repeat split; discriminate.
Qed.

(** C4 (amended).  For every file whose headers parse and declare no section,
    [SectHeaders] returns an empty list, and [Overlay] returns the whole
    source: the overlay starts at offset 0 (the default of [overlayStart]),
    not after the last parsed header. *)
Theorem overlay_without_sections_is_whole_source
    (src : list byte) (fh : FileHeader.t) (st1 : state) :
  run FileHeader (File.New src) = (Ok (Some fh), st1) ->
  FileHeader.NSection fh = 0 ->
  fst (run SectHeaders (File.New src)) = Ok (Some []) /\
  exists st : state,
    run Overlay (File.New src) = (Ok (Some src), st) /\
    File.overlay (fst st) = Some src /\
    snd st = snd st1 ++ [EvMake AllocSectHdrs 0;
                         EvMake AllocOverlay (Zlen src); EvRead 0 (Zlen src)].
Proof.
  intros Hfh Hn.
  destruct (FileHeader_New_inv src fh st1 Hfh) as (Hlen & Hmz & Hlen2 & Hpe & -> & ->).
  fold (nsection src) in Hn.
  pose proof (SectHeaders_New_none src Hlen Hmz Hlen2 Hpe Hn) as Hsect.
  unfold run. split; [rewrite Hsect; reflexivity|].
  rewrite (Overlay_run (File.New src) _ [] _ [] eq_refl Hsect).
  cbv zeta. cbn [overlay_start File.r File.set_sectHdrs file_hdrs file_dos
                   File.set_fileHdr File.set_doshdr File.New].
  unfold SeekEnd. rewrite Z.sub_0_r.
  pose proof (Zlen_nonneg src) as Hnn.
  destruct (Z.ltb_spec (Zlen src) 0); [lia|].
  pose proof (ReadAt_tail src 0 ltac:(lia)) as Hread.
  rewrite Z.sub_0_r in Hread. rewrite Hread.
  assert (Hall : slice src 0 (Zlen src) = src).
  { unfold slice, Zlen. cbn [Z.to_nat skipn]. rewrite Nat2Z.id. apply firstn_all. }
  rewrite Hall. eexists. split; [reflexivity|]. split; [reflexivity|].
  cbn [snd]. rewrite <- app_assoc. reflexivity.
Qed.

Lemma overlay_without_sections_is_whole_source_witness :
  fst (run Overlay (File.New image_no_section)) = Ok (Some image_no_section).
Proof.
  assert (Hfh : run FileHeader (File.New image_no_section) =
                (Ok (Some (filehdr_at image_no_section 64)),
                 snd (run FileHeader (File.New image_no_section))))
    by (vm_compute; reflexivity).
  destruct (overlay_without_sections_is_whole_source _ _ _ Hfh)
    as (_ & st & Hrun & _).
  - vm_compute. reflexivity.
  - rewrite Hrun. reflexivity.
Defined.

(* ===================================================================== *)
(** ** Properties: the optional header accessor *)
(* ===================================================================== *)

(** C3.  [OptHeader] does not consult the file header: on a file whose
    headers parse and declare [OptHdrSize = 0], and which holds 96 bytes
    after the file header whose [NDataDir] field fits, the accessor reads
    those bytes and returns a populated, non-nil structure instead of an
    absent one. *)
Theorem OptHeader_reads_despite_zero_OptHdrSize
    (src : list byte) (h : DOSHeader.t) (fh : FileHeader.t) (st1 : state) :
  run FileHeader (File.New src) = (Ok (Some fh), st1) ->
  File.doshdr (fst st1) = Some h ->
  FileHeader.OptHdrSize fh = 0 ->
  let p := DOSHeader.PEHdrOffset h in
  let n := OptHeader32.NDataDir (opthdr32_at src p) in
  n <= 16 ->
  p + fileHdrSize + OptHeader32.size + DataDirectory.size * n <= Zlen src ->
  exists st : state,
    run OptHeader (File.New src) =
      (Ok (Some (OptHeader.mk (opthdr32_at src p) (Some (datadirs_at src p)))), st) /\
    In (EvRead (p + fileHdrSize) OptHeader32.size) (snd st).
Proof.
  intros Hfh Hh Hzero.
  destruct (FileHeader_New_inv src fh st1 Hfh) as (Hlen & Hmz & Hlen2 & Hpe & -> & ->).
  cbn [fst snd file_hdrs file_dos File.set_fileHdr File.set_doshdr File.doshdr
         File.New] in Hh.
  injection Hh as <-. fold (peoff src). cbv zeta. intros Hn Hfits.
  unfold run. rewrite OptHeader_uncached by reflexivity.
  rewrite parseOptHeader_New by assumption.
  rewrite (parseOptHeader_ok (file_dos src) (dos_trace src) (dos_of src) eq_refl
             (peoff_range src) Hn Hfits).
  eexists. split; [reflexivity|].
  cbn [snd file_dos File.set_doshdr File.New File.r]. fold (peoff src).
  apply in_or_app. right. unfold opt_trace. left. reflexivity.
Qed.

Lemma OptHeader_reads_despite_zero_OptHdrSize_witness :
  FileHeader.OptHdrSize (filehdr_at image_no_opthdr 64) = 0 /\
  File.opthdr (fst (snd (run Parse (File.New image_no_opthdr)))) = None /\
  exists (o : OptHeader.t),
    fst (run OptHeader (File.New image_no_opthdr)) = Ok (Some o) /\
    OptHeader32.EntryRelAddr (OptHeader.Hdr32 o) = 4 /\
    OptHeader32.CodeBase (OptHeader.Hdr32 o) = 208.
Proof.
  split; [vm_compute; reflexivity|]. split; [vm_compute; reflexivity|].
  assert (Hfh : run FileHeader (File.New image_no_opthdr) =
                (Ok (Some (filehdr_at image_no_opthdr 64)),
                 snd (run FileHeader (File.New image_no_opthdr))))
    by (vm_compute; reflexivity).
  destruct (OptHeader_reads_despite_zero_OptHdrSize image_no_opthdr
              (dos_of image_no_opthdr) _ _ Hfh)
    as (st & Hrun & _).
  - vm_compute. reflexivity.
  - vm_compute. reflexivity.
  - vm_compute. discriminate.
  - vm_compute. discriminate.
  - eexists. rewrite Hrun. split; [reflexivity|].
    split; vm_compute; reflexivity.
Defined.

(** A failed parse leaves the zero-valued struct that [parseOptHeader] stores
    before reading in the cache: the next call of the accessor returns it with
    a nil error. *)
Lemma OptHeader_failed_parse_is_cached :
  let res := run OptHeader (File.New image_one_section) in
  fst res = Err (ErrOptHeaderRead ErrUnexpectedEOF) /\
  fst (OptHeader (snd res)) = Ok (Some OptHeader.zero).
Proof. vm_compute. split; reflexivity. Qed.

(* ===================================================================== *)
(** ** Properties: section data *)
(* ===================================================================== *)

Lemma firstn_add {A} (n k : nat) : forall l : list A,
  firstn (n + k) l = firstn n l ++ firstn k (skipn n l).
Proof.
  induction n as [|n IH]; intros l; [reflexivity|].
  destruct l as [|a l]; cbn [Nat.add firstn skipn app].
  - rewrite firstn_nil. reflexivity.
  - rewrite IH. reflexivity.
Qed.

Lemma slice_app {A} (l : list A) (a n k : Z) :
  0 <= a -> 0 <= n -> 0 <= k ->
  slice l a n ++ slice l (a + n) k = slice l a (n + k).
Proof.
  intros Ha Hn Hk. unfold slice.
  rewrite !Z2Nat.inj_add by lia.
  rewrite firstn_add, skipn_skipn, (Nat.add_comm (Z.to_nat n)). reflexivity.
Qed.

Section ReadAllLoop.
Variable grow : Z -> Z.
Hypothesis grow_larger : forall c : Z, 0 < c -> c < grow c.
Variables (src : list byte) (base lim : Z).
Hypothesis Hbase : 0 <= base <= lim.

(** [ReadAll] on a section reader returns the bytes of the window that the
    source holds, as soon as the fuel exceeds their number. *)
Lemma ReadAll_loop_window :
  forall (fuel : nat) (s : SectionReader.t) (b : list byte) (cap : Z),
  SectionReader.off s = base + Zlen b ->
  SectionReader.limit s = lim ->
  Zlen b < cap ->
  b = slice src base (Zlen b) ->
  base + Zlen b <= lim ->
  Z.max 0 (Z.min lim (Zlen src) - (base + Zlen b)) < Z.of_nat fuel ->
  ReadAll_loop grow fuel src s b cap = Some (slice src base (lim - base), None).
Proof.
  induction fuel as [|fuel IH]; intros s b cap Hoff Hlim Hcap Hb Hin Hfuel; [lia|].
  pose proof (Zlen_nonneg b) as Hb0.
  assert (Hbsrc : base + Zlen b <= Zlen src \/ Zlen b = 0).
  { destruct (Z.eq_dec (Zlen b) 0); [right; assumption|left].
    assert (Zlen b = Z.max 0 (Z.min (Zlen b) (Zlen src - base)))
      by (rewrite Hb at 1; apply Zlen_slice; lia).
    lia. }
  cbn [ReadAll_loop]. unfold SectionReader.Read. rewrite Hoff, Hlim.
  destruct (Z.geb_spec (base + Zlen b) lim) as [Hend|Hmore].
  - (* the window is exhausted *)
    rewrite app_nil_r. rewrite Hb at 1. do 3 f_equal. lia.
  - set (k := if cap - Zlen b >? lim - (base + Zlen b)
              then lim - (base + Zlen b) else cap - Zlen b).
    assert (Hk : 0 < k /\ k <= cap - Zlen b /\ k <= lim - (base + Zlen b)).
    { subst k. destruct (Z.gtb_spec (cap - Zlen b) (lim - (base + Zlen b))); lia. }
    clearbody k. unfold ReadAt.
    destruct (Z.ltb_spec (base + Zlen b) 0); [lia|].
    destruct (Z.leb_spec k 0); [lia|].
    pose proof (Zlen_slice src (base + Zlen b) k ltac:(lia)) as Hlen.
    destruct (Z.ltb_spec (Zlen (slice src (base + Zlen b) k)) k) as [Hshort|Hfull].
    + (* the source ends inside the request: io.EOF ends the loop *)
      rewrite Hb at 1. rewrite slice_app by lia.
      do 2 f_equal. apply slice_clip; lia.
    + (* the request is filled: the loop goes on *)
      assert (Hbk : Zlen (b ++ slice src (base + Zlen b) k) = Zlen b + k)
        by (rewrite Zlen_app; lia).
      apply IH.
      * cbn [SectionReader.advance SectionReader.off]. rewrite Hoff, Hbk. lia.
      * cbn [SectionReader.advance SectionReader.limit]. exact Hlim.
      * rewrite Hbk.
        destruct (Z.eqb_spec (Zlen b + k) cap) as [->|Hne];
          [apply grow_larger; lia|lia].
      * rewrite Hbk. rewrite Hb at 1. apply slice_app; lia.
      * rewrite Hbk. lia.
      * rewrite Hbk. lia.
Qed.
End ReadAllLoop.

(** C5, as stated, at a source of 10 bytes and a section header declaring 10
    bytes at offset 5: [Section] succeeds with the 5 bytes that exist. *)
Lemma Section_succeeds_with_fewer_bytes :
  let sh := SectHeader.decode (sect_header_image 10 5) in
  let res := fst (run (Section (fun c => 2 * c) 4 (Some sh)) (File.New (zeros 10))) in
  SectHeader.Size sh = 10 /\
  res = Ok (zeros 5) /\
  ~ (forall data : list byte, res = Ok data -> Zlen data = SectHeader.Size sh).
Proof.
  cbv zeta. split; [vm_compute; reflexivity|]. split; [vm_compute; reflexivity|].
  intros H. specialize (H (zeros 5) ltac:(vm_compute; reflexivity)).
  vm_compute in H. discriminate.
Qed.

(** C5 (amended).  For every section header and every source, [Section]
    succeeds (once the fuel of the read loop exceeds the number of bytes to
    deliver, and whatever the growth of the buffer) and returns the bytes of
    the source that lie in [[Offset, Offset + Size)]: exactly [Size] bytes
    when the source holds the whole range, the shorter tail that exists
    otherwise, and a zero-length slice when [Size = 0].  It makes no other
    change to the file. *)
Theorem Section_returns_bytes_in_range
    (grow : Z -> Z) (fuel : nat) (src : list byte) (sh : SectHeader.t) :
  (forall c : Z, 0 < c -> c < grow c) ->
  0 <= SectHeader.Offset sh < 2 ^ 32 ->
  0 <= SectHeader.Size sh < 2 ^ 32 ->
  Z.max 0 (Z.min (SectHeader.Size sh) (Zlen src - SectHeader.Offset sh))
    < Z.of_nat fuel ->
  let data := slice src (SectHeader.Offset sh) (SectHeader.Size sh) in
  run (Section grow fuel (Some sh)) (File.New src) = (Ok data, (File.New src, [])) /\
  Zlen data = Z.max 0 (Z.min (SectHeader.Size sh) (Zlen src - SectHeader.Offset sh)) /\
  (SectHeader.Offset sh + SectHeader.Size sh <= Zlen src ->
   Zlen data = SectHeader.Size sh) /\
  (SectHeader.Size sh = 0 -> data = []).
Proof.
  intros Hgrow Hoff Hsize Hfuel. cbv zeta.
  split; [|split; [|split]].
  - unfold run, Section. munfold. cbn [File.New File.r].
    rewrite New_small by (unfold maxint64; lia).
    unfold ReadAll.
    rewrite (ReadAll_loop_window grow Hgrow src (SectHeader.Offset sh)
               (SectHeader.Offset sh + SectHeader.Size sh) ltac:(lia)).
    + replace (SectHeader.Offset sh + SectHeader.Size sh - SectHeader.Offset sh)
        with (SectHeader.Size sh) by lia.
      reflexivity.
    + cbn. lia.
    + reflexivity.
    + cbn. lia.
    + reflexivity.
    + cbn. lia.
    + change (Zlen (@nil byte)) with 0. lia.
  - apply Zlen_slice. lia.
  - intros Hfits. apply Zlen_slice_full; lia.
  - intros ->. reflexivity.
Qed.

Lemma Section_returns_bytes_in_range_witness :
  let sh := SectHeader.decode (sect_header_image 4 128) in
  run (Section (fun c => 2 * c) 5 (Some sh)) (File.New image_one_section) =
    (Ok (zeros 4), (File.New image_one_section, [])).
Proof.
  intros sh.
  destruct (Section_returns_bytes_in_range (fun c => 2 * c) 5 image_one_section sh)
    as (Hrun & _).
  - intros c Hc. lia.
  - vm_compute. split; [discriminate|reflexivity].
  - vm_compute. split; [discriminate|reflexivity].
  - vm_compute. reflexivity.
  - rewrite Hrun. vm_compute. reflexivity.
Defined.

(* ===================================================================== *)
(** ** Properties: section flags, for every word *)
(* ===================================================================== *)

Lemma ldiff_disjoint (a b : Z) : Z.land a b = 0 -> Z.ldiff a b = a.
Proof.
  intros H. apply Z.bits_inj'. intros n Hn. rewrite Z.ldiff_spec.
  assert (Hb : Z.testbit (Z.land a b) n = false) by (rewrite H; apply Z.bits_0).
  rewrite Z.land_spec in Hb.
  destruct (Z.testbit a n), (Z.testbit b n); cbn in *; congruence.
Qed.

Lemma ldiff_ldiff (a b c : Z) : Z.ldiff (Z.ldiff a b) c = Z.ldiff a (Z.lor b c).
Proof.
  apply Z.bits_inj'. intros n Hn. rewrite !Z.ldiff_spec, Z.lor_spec.
  destruct (Z.testbit a n), (Z.testbit b n), (Z.testbit c n); reflexivity.
Qed.

Lemma bit_pow2 (i : Z) : 0 <= i < 32 -> SectFlag.bit i = 2 ^ i.
Proof.
  intros Hi. unfold SectFlag.bit, uint32.
  rewrite Z.shiftl_1_l. apply Z.mod_small.
  split; [apply Z.pow_nonneg; lia|apply Z.pow_lt_mono_r; lia].
Qed.

(** One iteration, in closed form. *)
Lemma step_closed (flags : Z) (ss : list string) (i : Z) :
  0 <= i < 32 ->
  SectFlag.step (flags, ss) i =
    (if SectFlag.is_align_mask (SectFlag.bit i) then flags
     else Z.ldiff flags (SectFlag.bit i),
     ss ++ bit_entry flags i).
Proof.
  intros Hi. unfold SectFlag.step, bit_entry.
  destruct (SectFlag.is_align_mask (SectFlag.bit i)); cbn [negb andb].
  - rewrite app_nil_r. reflexivity.
  - rewrite (bit_pow2 i Hi), land_bit_nonzero by lia.
    destruct (Z.testbit flags i) eqn:Hb.
    + reflexivity.
    + rewrite app_nil_r, ldiff_disjoint; [reflexivity|].
      rewrite land_pow2, Hb by lia. reflexivity.
Qed.

Lemma clear_bits_mask (idxs : list Z) : forall flags acc : Z,
  clear_bits idxs (Z.ldiff flags acc) = Z.ldiff flags (cleared_mask idxs acc).
Proof.
  induction idxs as [|i idxs IH]; intros flags acc; cbn [clear_bits cleared_mask fold_left].
  - reflexivity.
  - fold (clear_bits idxs). fold (cleared_mask idxs).
    destruct (SectFlag.is_align_mask (SectFlag.bit i)).
    + apply IH.
    + rewrite ldiff_ldiff. apply IH.
Qed.

Lemma bit_entry_ext (flags flags' : Z) (idxs : list Z) :
  (forall i, In i idxs -> Z.testbit flags' i = Z.testbit flags i) ->
  flat_map (bit_entry flags') idxs = flat_map (bit_entry flags) idxs.
Proof.
  induction idxs as [|i idxs IH]; intros H; cbn [flat_map]; [reflexivity|].
  rewrite IH by (intros j Hj; apply H; right; exact Hj).
  unfold bit_entry. rewrite (H i) by (left; reflexivity). reflexivity.
Qed.

(** The loop over distinct bit positions, in closed form. *)
Lemma fold_step_closed (idxs : list Z) :
  NoDup idxs -> (forall i, In i idxs -> 0 <= i < 32) ->
  forall (flags : Z) (ss : list string),
  fold_left SectFlag.step idxs (flags, ss) =
    (clear_bits idxs flags, ss ++ flat_map (bit_entry flags) idxs).
Proof.
  induction idxs as [|i idxs IH]; intros Hnd Hrange flags ss;
    cbn [fold_left flat_map clear_bits].
  - rewrite app_nil_r. reflexivity.
  - fold (clear_bits idxs).
    assert (Hi : 0 <= i < 32) by (apply Hrange; left; reflexivity).
    inversion Hnd as [|? ? Hnotin Hnd']; subst.
    rewrite step_closed by exact Hi.
    rewrite IH by (try assumption; intros j Hj; apply Hrange; right; exact Hj).
    rewrite <- app_assoc. f_equal. f_equal. f_equal.
    apply bit_entry_ext. intros j Hj.
    destruct (SectFlag.is_align_mask (SectFlag.bit i)); [reflexivity|].
    rewrite Z.ldiff_spec, (bit_pow2 i Hi), Z.pow2_bits_eqb by lia.
    destruct (Z.eqb_spec i j) as [->|Hne]; [contradiction|].
    apply andb_true_r.
Qed.

Lemma idx32_spec : NoDup idx32 /\ (forall i, In i idx32 -> 0 <= i < 32).
Proof.
  split.
  - unfold idx32. apply Finite.Injective_map_NoDup; [|apply seq_NoDup].
    intros x y. apply Nat2Z.inj.
  - unfold idx32. intros i Hi. apply in_map_iff in Hi as (n & <- & Hn).
    apply in_seq in Hn. lia.
Qed.

Lemma In_idx32 (i : Z) : 0 <= i < 32 -> In i idx32.
Proof.
  intros Hi. unfold idx32. apply in_map_iff. exists (Z.to_nat i).
  split; [lia|]. apply in_seq. lia.
Qed.

(** After the loop only the alignment bits are left. *)
Lemma loop_closed (flags : Z) :
  0 <= flags < 2 ^ 32 ->
  SectFlag.loop flags = (Z.land flags align_bits, flat_map (bit_entry flags) idx32).
Proof.
  intros Hf. unfold SectFlag.loop. fold idx32.
  destruct idx32_spec as [Hnd Hrange].
  rewrite (fold_step_closed idx32 Hnd Hrange). cbn [app]. f_equal.
  rewrite <- (Z.ldiff_0_r flags) at 1. rewrite clear_bits_mask.
  change (cleared_mask idx32 0) with 0xFF0FFFFF.
  rewrite <- (Z.mod_small flags (2 ^ 32)) at 1 by exact Hf.
  rewrite <- Z.land_ones by lia.
  apply Z.bits_inj'. intros n Hn.
  rewrite Z.ldiff_spec, !Z.land_spec.
  destruct (Z.ltb_spec n 32) as [Hlt|Hge].
  - assert (Hcases : In n idx32) by (apply In_idx32; lia).
    unfold idx32 in Hcases. cbn in Hcases.
    repeat (destruct Hcases as [<-|Hcases];
            [destruct (Z.testbit flags _); reflexivity|]).
    contradiction.
  - rewrite Z.ones_spec_high by lia. rewrite andb_false_r. cbn [andb].
    unfold align_bits.
    rewrite (Z.bits_above_log2 0x00F00000 n) by (cbn; lia).
    rewrite andb_false_r. reflexivity.
Qed.

(** The rendering of a word, in closed form: the texts of its set bits
    outside bits 20-23, in increasing order, then the text of the alignment
    value when that value is within [SectFlagObjAlign1 .. SectFlagObjAlign8192]. *)
Lemma parts_closed (flags : Z) :
  0 <= flags < 2 ^ 32 ->
  SectFlag.parts flags = flat_map (bit_entry flags) idx32 ++ align_entry flags.
Proof.
  intros Hf. unfold SectFlag.parts. rewrite (loop_closed flags Hf).
  unfold align_entry. cbv zeta.
  destruct ((SectFlag.SectFlagObjAlign1 <=? Z.land flags align_bits)
            && (Z.land flags align_bits <=? SectFlag.SectFlagObjAlign8192)).
  - reflexivity.
  - rewrite app_nil_r. reflexivity.
Qed.

Lemma is_align_mask_bit (i : Z) :
  0 <= i < 32 ->
  SectFlag.is_align_mask (SectFlag.bit i) = (20 <=? i) && (i <=? 23).
Proof.
  intros Hi. pose proof (In_idx32 i Hi) as Hcases.
  unfold idx32 in Hcases. cbn in Hcases.
  repeat (destruct Hcases as [<-|Hcases]; [reflexivity|]).
  contradiction.
Qed.

Lemma testbit_align_bits (i : Z) :
  0 <= i < 32 -> Z.testbit align_bits i = (20 <=? i) && (i <=? 23).
Proof.
  intros Hi. pose proof (In_idx32 i Hi) as Hcases.
  unfold idx32 in Hcases. cbn in Hcases.
  repeat (destruct Hcases as [<-|Hcases]; [reflexivity|]).
  contradiction.
Qed.

Lemma bit_entry_ldiff_align (flags : Z) :
  flat_map (bit_entry (Z.ldiff flags align_bits)) idx32
  = flat_map (bit_entry flags) idx32.
Proof.
  destruct idx32_spec as [_ Hrange]. revert Hrange.
  generalize idx32 as idxs.
  induction idxs as [|i idxs IH]; intros Hrange; cbn [flat_map]; [reflexivity|].
  rewrite IH by (intros j Hj; apply Hrange; right; exact Hj).
  f_equal. unfold bit_entry.
  assert (Hi : 0 <= i < 32) by (apply Hrange; left; reflexivity).
  rewrite Z.ldiff_spec, is_align_mask_bit, testbit_align_bits by exact Hi.
  destruct ((20 <=? i) && (i <=? 23)); cbn [negb andb]; [reflexivity|].
  rewrite andb_true_r. reflexivity.
Qed.

(** C6.  For every 32-bit section-flags word: (1) every set bit outside bits
    20-23 is rendered, by its name or by the unknown-flag marker; (2) an
    alignment value from 1 to 14 in bits 20-23 is rendered through the table
    1, 2, 4, ..., 8192; but (3) the alignment value 15 is outside the range
    that guards the alignment rendering, so its four set bits are dropped
    without any marker: the word renders exactly as the word with bits 20-23
    cleared. *)
Theorem SectFlag_String_drops_alignment_15 (flags : Z) :
  0 <= flags < 2 ^ 32 ->
  (forall i : Z, 0 <= i < 32 -> ~ 20 <= i <= 23 -> Z.testbit flags i = true ->
     In (flag_text (2 ^ i)) (SectFlag.parts flags)) /\
  (forall a : Z, 1 <= a <= 14 -> Z.land flags align_bits = a * 2 ^ 20 ->
     In ("align " ++ fmt_d (2 ^ (a - 1)))%string (SectFlag.parts flags)) /\
  (Z.land flags align_bits = align_bits ->
     SectFlag.parts flags = SectFlag.parts (Z.ldiff flags align_bits) /\
     SectFlag.String flags = SectFlag.String (Z.ldiff flags align_bits)).
Proof.
  intros Hf. rewrite (parts_closed flags Hf). split; [|split].
  - intros i Hi Hout Hbit. apply in_or_app. left.
    apply in_flat_map. exists i. split; [apply In_idx32; exact Hi|].
    unfold bit_entry. rewrite is_align_mask_bit, Hbit by exact Hi.
    destruct (Z.leb_spec 20 i), (Z.leb_spec i 23); cbn [negb andb]; try lia;
      rewrite (bit_pow2 i Hi); left; reflexivity.
  - intros a Ha Hland. apply in_or_app. right.
    unfold align_entry. cbv zeta. rewrite Hland.
    assert (Hcases : a = 1 \/ a = 2 \/ a = 3 \/ a = 4 \/ a = 5 \/ a = 6 \/ a = 7 \/
                     a = 8 \/ a = 9 \/ a = 10 \/ a = 11 \/ a = 12 \/ a = 13 \/ a = 14)
      by lia.
    repeat (destruct Hcases as [->|Hcases]; [left; reflexivity|]).
    subst a. left. reflexivity.
  - intros Hland.
    assert (Hclear : 0 <= Z.ldiff flags align_bits < 2 ^ 32).
    { assert (Hmod : Z.ldiff flags align_bits = Z.ldiff flags align_bits mod 2 ^ 32).
      { rewrite <- Z.land_ones by lia.
        rewrite <- (Z.mod_small flags (2 ^ 32)) at 1 by exact Hf.
        rewrite <- Z.land_ones by lia.
        apply Z.bits_inj'. intros n Hn.
        rewrite Z.land_spec, !Z.ldiff_spec, Z.land_spec.
        destruct (Z.testbit flags n), (Z.testbit (Z.ones 32) n),
          (Z.testbit align_bits n); reflexivity. }
      rewrite Hmod. apply Z.mod_pos_bound. lia. }
    assert (Hparts : flat_map (bit_entry flags) idx32 ++ align_entry flags
                     = SectFlag.parts (Z.ldiff flags align_bits)).
    { rewrite (parts_closed _ Hclear), bit_entry_ldiff_align. f_equal.
      unfold align_entry. cbv zeta. rewrite Hland.
      replace (Z.land (Z.ldiff flags align_bits) align_bits) with 0; [reflexivity|].
      symmetry. apply Z.bits_inj'. intros n Hn.
      rewrite Z.land_spec, Z.ldiff_spec, Z.bits_0.
      destruct (Z.testbit flags n), (Z.testbit align_bits n); reflexivity. }
    split; [exact Hparts|].
    unfold SectFlag.String. rewrite (parts_closed flags Hf), Hparts. reflexivity.
Qed.

Lemma SectFlag_String_drops_alignment_15_witness :
  SectFlag.String 0x00F00020 = SectFlag.String 0x00000020 /\
  SectFlag.String 0x00F00020 = "code"%string.
Proof.
  destruct (SectFlag_String_drops_alignment_15 0x00F00020) as (_ & _ & Hdrop).
  - vm_compute. split; [discriminate|reflexivity].
  - destruct Hdrop as [_ Hs]; [vm_compute; reflexivity|].
    split; [exact Hs|]. rewrite Hs. vm_compute. reflexivity.
Defined.

(* ===================================================================== *)
(** ** Further properties: the DOS header *)
(* ===================================================================== *)

(** The error of a failing [io.ReadFull] inside the window: [io.EOF] when the
    source holds no byte at the offset, [io.ErrUnexpectedEOF] otherwise. *)
Lemma ReadFull_short_kind (r : list byte) (s : SectionReader.t) (n : Z) :
  0 < n -> 0 <= SectionReader.off s ->
  SectionReader.off s + n <= SectionReader.limit s ->
  Zlen r < SectionReader.off s + n ->
  exists bs s',
    ReadFull r s n =
      (bs, Some (if Zlen r <=? SectionReader.off s then EOF else ErrUnexpectedEOF), s').
Proof.
  intros Hn Hoff Hlim Hshort. unfold ReadFull.
  destruct (Z.leb_spec n 0); [lia|].
  destruct (Z.geb_spec (SectionReader.off s) (SectionReader.limit s)); [lia|].
  destruct (Z.ltb_spec (SectionReader.off s) 0); [lia|].
  destruct (Z.leb_spec n (Z.min (SectionReader.limit s - SectionReader.off s)
                               (Zlen r - SectionReader.off s))); [lia|].
  destruct (Z.leb_spec (Z.min (SectionReader.limit s - SectionReader.off s)
                               (Zlen r - SectionReader.off s)) 0);
    destruct (Z.leb_spec (Zlen r) (SectionReader.off s)); try lia; eauto.
Qed.

(** X1.  [DOSHeader] succeeds on a fresh file exactly when the source holds at
    least 64 bytes and starts with "MZ"; it then returns the header decoded
    from bytes 2..63, caches it, and has read those 64 bytes and nothing else.
    In particular [PEHdrOffset] is the little-endian 32-bit value at file
    offset 60, and the reserved words are those at offsets 28 and 40. *)
Theorem DOSHeader_succeeds_iff (src : list byte) (h : DOSHeader.t) (st : state) :
  (run DOSHeader (File.New src) = (Ok (Some h), st) <->
   dosHdrSize <= Zlen src /\ slice src 0 2 = [Byte.x4d; Byte.x5a] /\
   h = dos_of src /\ st = (file_dos src, dos_trace src)) /\
  (dosHdrSize <= Zlen src ->
   DOSHeader.PEHdrOffset (dos_of src) = u32 src 60 /\
   DOSHeader.LastPageSize (dos_of src) = u16 src 2 /\
   DOSHeader.Res (dos_of src) = map (fun i => u16 src (28 + 2 * Z.of_nat i)) (seq 0 4) /\
   DOSHeader.Res2 (dos_of src) = map (fun i => u16 src (40 + 2 * Z.of_nat i)) (seq 0 10) /\
   File.doshdr (file_dos src) = Some (dos_of src) /\
   filter (fun e => match e with EvRead _ _ => true | _ => false end) (dos_trace src)
     = [EvRead 0 2; EvRead 2 62]).
Proof.
  split.
  - split.
    + intros H. destruct (DOSHeader_New_inv src h st H) as (Hlen & Hmz & Hh & Hst).
      repeat split; try assumption.
      apply u16_mz_bytes; [unfold dosHdrSize in Hlen; lia|exact Hmz].
    + intros (Hlen & Hmz & -> & ->). unfold run.
      apply DOSHeader_New; [exact Hlen|].
      apply u16_mz_bytes; [unfold dosHdrSize in Hlen; lia|exact Hmz].
  - unfold dosHdrSize. intros Hlen.
    unfold dos_of, DOSHeader.decode, DOSHeader.size, u32, u16, u16s, le_at.
    cbn [DOSHeader.PEHdrOffset DOSHeader.LastPageSize DOSHeader.Res DOSHeader.Res2].
    repeat split.
    + rewrite slice_slice by lia. reflexivity.
    + rewrite slice_slice by lia. reflexivity.
    + apply map_ext_in. intros i Hi. apply in_seq in Hi. unfold u16, le_at.
      rewrite slice_slice by lia. do 2 f_equal. lia.
    + apply map_ext_in. intros i Hi. apply in_seq in Hi. unfold u16, le_at.
      rewrite slice_slice by lia. do 2 f_equal. lia.
    + unfold dos_trace. cbn [app filter]. do 2 f_equal.
      rewrite filter_app.
      assert (Hlog : forall vs i,
                 filter (fun e => match e with EvRead _ _ => true | _ => false end)
                   (reserved_events i vs) = []).
      { induction vs as [|v vs IH]; intros i; cbn [reserved_events]; [reflexivity|].
        rewrite filter_app, IH. destruct (negb (v =? 0)); reflexivity. }
      rewrite !Hlog. reflexivity.
Qed.

(** X2.  On a source shorter than a DOS header: with fewer than two bytes the
    accessor fails reading the signature ([io.EOF] on an empty source,
    [io.ErrUnexpectedEOF] on one byte) and caches nothing; with the "MZ"
    signature but fewer than 64 bytes it fails reading the header
    ([io.EOF] when nothing follows the signature), yet the zero-valued header
    stored before the read stays cached, so that the next call returns that
    zero header with a nil error and without reading. *)
Theorem DOSHeader_on_short_source (src : list byte) :
  Zlen src < dosHdrSize ->
  (Zlen src < 2 ->
   run DOSHeader (File.New src) =
     (Err (ErrDOSSignatureRead (if Zlen src =? 0 then EOF else ErrUnexpectedEOF)),
      (File.New src, [EvRead 0 2]))) /\
  (2 <= Zlen src -> slice src 0 2 = [Byte.x4d; Byte.x5a] ->
   let st1 := (File.set_doshdr (Some DOSHeader.zero) (File.New src),
               [EvRead 0 2; EvRead 2 DOSHeader.size]) in
   run DOSHeader (File.New src) =
     (Err (ErrDOSHeaderRead (if Zlen src =? 2 then EOF else ErrUnexpectedEOF)), st1) /\
   DOSHeader st1 = (Ok (Some DOSHeader.zero), st1)).
Proof.
  unfold dosHdrSize. intros Hshort. pose proof (Zlen_nonneg src) as Hnn. split.
  - intros Hlen. unfold run. apply DOSHeader_fails; [reflexivity|].
    unfold parseDOSHeader. rewrite New_small by (unfold dosHdrSize, maxint64; lia).
    munfold. cbn [File.New File.r SectionReader.off].
    destruct (ReadFull_short_kind src (SectionReader.mk 0 0 (0 + dosHdrSize)) 2)
      as (bs & s' & ->); [lia|cbn; lia|cbn; unfold dosHdrSize; lia|cbn; lia|].
    cbn [SectionReader.off].
    destruct (Z.leb_spec (Zlen src) 0), (Z.eqb_spec (Zlen src) 0); try lia; reflexivity.
  - intros Hlen Hmz. cbv zeta.
    apply u16_mz_bytes in Hmz; [|exact Hlen].
    split.
    + unfold run. apply DOSHeader_fails; [reflexivity|].
      unfold parseDOSHeader. rewrite New_small by (unfold dosHdrSize, maxint64; lia).
      munfold. cbn [File.New File.r SectionReader.off].
      rewrite ReadFull_ok by (cbn; unfold dosHdrSize; lia).
      unfold SectionReader.advance.
      cbn [SectionReader.off SectionReader.base SectionReader.limit].
      change (le_combine (slice src 0 2)) with (u16 src 0).
      rewrite Hmz, Z.eqb_refl. cbn [negb fst snd File.r File.set_doshdr File.New].
      destruct (ReadFull_short_kind src (SectionReader.mk 0 (0 + 2) (0 + dosHdrSize))
                  DOSHeader.size)
        as (bs & s' & ->);
        [unfold DOSHeader.size; lia|cbn; lia
        |cbn; unfold DOSHeader.size, dosHdrSize; lia
        |cbn; unfold DOSHeader.size; lia|].
      cbn [SectionReader.off].
      destruct (Z.leb_spec (Zlen src) (0 + 2)), (Z.eqb_spec (Zlen src) 2);
        try lia; reflexivity.
    + apply DOSHeader_cached. reflexivity.
Qed.

Lemma DOSHeader_on_short_source_witness :
  let src := dos_image 64 in
  let src' := firstn 10 src in
  fst (run DOSHeader (File.New src')) = Err (ErrDOSHeaderRead ErrUnexpectedEOF) /\
  fst (DOSHeader (snd (run DOSHeader (File.New src')))) = Ok (Some DOSHeader.zero).
Proof.
  intros src src'.
  destruct (DOSHeader_on_short_source src') as [_ H].
  - vm_compute. reflexivity.
  - destruct H as [H1 H2].
    + vm_compute. discriminate.
    + vm_compute. reflexivity.
    + rewrite H1. cbn [fst snd]. rewrite H2. split; reflexivity.
Defined.

(* ===================================================================== *)
(** ** Further properties: the COFF file header *)
(* ===================================================================== *)

(** X3.  [FileHeader] succeeds on a fresh file exactly when the DOS header
    parses, the four bytes at [PEHdrOffset] are "PE\0\0" and the 20 bytes of
    the header follow inside the source; it returns the header decoded from
    the bytes at [PEHdrOffset + 4], whose fields are the little-endian values
    at fixed offsets: [NSection] at [PEHdrOffset + 6] and [OptHdrSize] at
    [PEHdrOffset + 20]. *)
Theorem FileHeader_succeeds_iff (src : list byte) (fh : FileHeader.t) (st : state) :
  let p := peoff src in
  (run FileHeader (File.New src) = (Ok (Some fh), st) <->
   dosHdrSize <= Zlen src /\ slice src 0 2 = [Byte.x4d; Byte.x5a] /\
   p + fileHdrSize <= Zlen src /\
   slice src p 4 = [Byte.x50; Byte.x45; Byte.x00; Byte.x00] /\
   fh = filehdr_at src p /\ st = (file_hdrs src, hdrs_trace src)) /\
  filehdr_at src p =
    {| FileHeader.Arch := u16 src (p + 4);
       FileHeader.NSection := u16 src (p + 6);
       FileHeader.Created := u32 src (p + 8);
       FileHeader.SymTblOffset := u32 src (p + 12);
       FileHeader.NSymbol := u32 src (p + 16);
       FileHeader.OptHdrSize := u16 src (p + 20);
       FileHeader.Flags := u16 src (p + 22) |}.
Proof.
  cbv zeta. pose proof (peoff_range src) as Hp. split.
  - split.
    + intros H.
      destruct (FileHeader_New_inv src fh st H) as (Hlen & Hmz & Hlen2 & Hpe & Hfh & Hst).
      repeat split; try assumption.
      * apply u16_mz_bytes; [unfold dosHdrSize in Hlen; lia|exact Hmz].
      * apply u32_pe_bytes; [lia|unfold fileHdrSize in Hlen2; lia|exact Hpe].
    + intros (Hlen & Hmz & Hlen2 & Hpe & -> & ->). unfold run.
      apply FileHeader_New; try assumption.
      * apply u16_mz_bytes; [unfold dosHdrSize in Hlen; lia|exact Hmz].
      * apply u32_pe_bytes; [lia|unfold fileHdrSize in Hlen2; lia|exact Hpe].
  - unfold filehdr_at, FileHeader.decode, FileHeader.size, u32, u16, le_at.
    rewrite !slice_slice by lia.
    repeat (f_equal; try lia).
Qed.

(** X4.  When the source ends inside the file header (signature present, fewer
    than 20 bytes after it), [FileHeader] fails reading the header, but the
    zero-valued header stored before the read stays cached.  The next call of
    [FileHeader] returns it with a nil error, and [SectHeaders], which fails
    on the fresh file, then succeeds with an empty list, since the cached
    header declares no section. *)
Theorem FileHeader_truncated_caches_zero_header (src : list byte) :
  dosHdrSize <= Zlen src -> slice src 0 2 = [Byte.x4d; Byte.x5a] ->
  let p := peoff src in
  p + 4 <= Zlen src < p + fileHdrSize ->
  slice src p 4 = [Byte.x50; Byte.x45; Byte.x00; Byte.x00] ->
  exists e : ioerr,
    let st1 := (File.set_fileHdr (Some FileHeader.zero) (file_dos src),
                dos_trace src ++ filehdr_trace p) in
    run FileHeader (File.New src) = (Err (ErrFileHeaderRead e), st1) /\
    fst (run SectHeaders (File.New src)) = Err (ErrFileHeaderRead e) /\
    FileHeader st1 = (Ok (Some FileHeader.zero), st1) /\
    fst (SectHeaders st1) = Ok (Some []).
Proof.
  intros Hlen Hmz p Hlen2 Hpe. subst p.
  pose proof (peoff_range src) as Hp.
  apply u16_mz_bytes in Hmz; [|unfold dosHdrSize in Hlen; lia].
  apply u32_pe_bytes in Hpe; [|lia|lia].
  destruct (parseFileHeader_truncated (file_dos src) (dos_trace src) (dos_of src)
              eq_refl Hp Hlen2 Hpe) as [e Hfail].
  cbn [file_dos File.set_doshdr File.New File.r] in Hfail.
  fold (File.New src) in Hfail. fold (file_dos src) in Hfail. fold (peoff src) in Hfail.
  exists e. cbv zeta. unfold run. split; [|split; [|split]].
  - apply FileHeader_fails; [reflexivity|].
    rewrite parseFileHeader_New by assumption. exact Hfail.
  - erewrite SectHeaders_fails; [reflexivity|reflexivity|].
    unfold parseSectHeaders. rewrite DOSHeader_bind_New by assumption.
    rewrite (bind_eq_ok _ _ _ _ _ (DOSHeader_cached (file_dos src) _ _ eq_refl)).
    unfold deref at 1. unfold bind at 1. unfold ret at 1.
    apply bind_eq_err. apply FileHeader_fails; [reflexivity|exact Hfail].
  - apply FileHeader_cached. reflexivity.
  - unfold SectHeaders. munfold.
    cbn [File.sectHdrs File.set_fileHdr file_dos File.set_doshdr File.New].
    rewrite (parseSectHeaders_cached
               (File.mk (Some (dos_of src)) (Some FileHeader.zero) None None None src)
               _ (dos_of src) FileHeader.zero eq_refl eq_refl).
    + cbn [FileHeader.NSection FileHeader.zero Z.to_nat seq readSectHeaders].
      reflexivity.
    + cbn [FileHeader.NSection FileHeader.OptHdrSize FileHeader.zero].
      fold (peoff src). unfold fileHdrSize, sectHdrSize, maxint64. lia.
Qed.

Lemma FileHeader_truncated_caches_zero_header_witness :
  let src := dos_image 64 ++ firstn 10 (file_header_image 3 0) in
  exists e : ioerr,
    fst (run SectHeaders (File.New src)) = Err (ErrFileHeaderRead e) /\
    fst (SectHeaders (snd (run FileHeader (File.New src)))) = Ok (Some []).
Proof.
  intros src.
  destruct (FileHeader_truncated_caches_zero_header src) as (e & H1 & H2 & _ & H4).
  - vm_compute. discriminate.
  - vm_compute. reflexivity.
  - vm_compute. split; [discriminate|reflexivity].
  - vm_compute. reflexivity.
  - exists e. split; [exact H2|]. rewrite H1. exact H4.
Defined.

(* ===================================================================== *)
(** ** Further properties: the caches of the accessors *)
(* ===================================================================== *)

(** A parser that succeeds has filled its cache. *)
Lemma parseDOSHeader_sets_cache (st st' : state) :
  parseDOSHeader st = (Ok tt, st') -> File.doshdr (fst st') <> None.
Proof.
  destruct st as [f tr]. unfold parseDOSHeader. munfold.
  destruct (ReadFull _ _ _) as [[bs [e|]] s]; [discriminate|].
  destruct (negb _); [discriminate|].
  cbn [fst snd].
  destruct (ReadFull _ _ _) as [[bs' [e|]] s']; [discriminate|].
  cbn [fst snd]. rewrite !log_reserved_run.
  intros H. injection H as <-. cbn. discriminate.
Qed.

Lemma DOSHeader_result (st st1 : state) (v : option DOSHeader.t) :
  DOSHeader st = (Ok v, st1) -> File.doshdr (fst st1) = v /\ v <> None.
Proof.
  destruct st as [f tr]. unfold DOSHeader. munfold.
  destruct (File.doshdr f) eqn:Hc.
  - munfold. intros H. injection H as <- <-. cbn [fst]. rewrite Hc.
    split; [reflexivity|discriminate].
  - destruct (parseDOSHeader (f, tr)) as [[[]| | |] st'] eqn:Hp; try discriminate.
    intros H. injection H as <- <-. split; [reflexivity|].
    eapply parseDOSHeader_sets_cache. exact Hp.
Qed.

Lemma parseFileHeader_sets_cache (st st' : state) :
  parseFileHeader st = (Ok tt, st') -> File.fileHdr (fst st') <> None.
Proof.
  unfold parseFileHeader. unfold bind at 1.
  destruct (DOSHeader st) as [[[h|]| | |] [f tr]]; try discriminate.
  munfold.
  destruct (ReadFull _ _ _) as [[bs [e|]] s]; [discriminate|].
  destruct (negb _); [discriminate|].
  cbn [fst snd].
  destruct (ReadFull _ _ _) as [[bs' [e|]] s']; [discriminate|].
  intros H. injection H as <-. cbn. discriminate.
Qed.

Lemma parseOptHeader_sets_cache (st st' : state) :
  parseOptHeader st = (Ok tt, st') -> File.opthdr (fst st') <> None.
Proof.
  unfold parseOptHeader. unfold bind at 1.
  destruct (DOSHeader st) as [[[h|]| | |] [f tr]]; try discriminate.
  munfold.
  destruct (ReadFull _ _ _) as [[bs [e|]] s]; [discriminate|].
  destruct (negb _); munfold;
    (destruct (ReadFull _ _ _) as [[bs' [e|]] s']; [discriminate|]);
    intros H; injection H as <-; cbn; discriminate.
Qed.

Lemma readSectHeaders_keeps_cache (idxs : list nat) :
  forall (sr : SectionReader.t) (st st' : state),
  File.sectHdrs (fst st) <> None ->
  readSectHeaders idxs sr st = (Ok tt, st') -> File.sectHdrs (fst st') <> None.
Proof.
  induction idxs as [|i idxs IH]; intros sr [f tr] st' Hc; cbn [readSectHeaders].
  - munfold. intros H. injection H as <-. exact Hc.
  - unfold set_sectHdr. munfold.
    destruct (ReadFull _ _ _) as [[bs [e|]] s]; [discriminate|].
    munfold. apply IH. cbn [fst] in *.
    unfold File.set_sectHdrs. cbn [File.sectHdrs].
    destruct (File.sectHdrs f); [discriminate|contradiction].
Qed.

Lemma parseSectHeaders_sets_cache (st st' : state) :
  parseSectHeaders st = (Ok tt, st') -> File.sectHdrs (fst st') <> None.
Proof.
  unfold parseSectHeaders. unfold bind at 1.
  destruct (DOSHeader st) as [[[h|]| | |] st0]; try discriminate.
  unfold deref at 1. unfold bind at 1. unfold ret at 1. unfold bind at 1.
  destruct (FileHeader st0) as [[[fh|]| | |] [f tr]]; try discriminate.
  munfold. apply readSectHeaders_keeps_cache. cbn. discriminate.
Qed.

Lemma parseOverlay_sets_cache (st st' : state) :
  parseOverlay st = (Ok tt, st') -> File.overlay (fst st') <> None.
Proof.
  unfold parseOverlay. unfold bind at 1. unfold map_err.
  destruct (SectHeaders st) as [[l| | |] st0]; try discriminate.
  unfold bind at 1.
  destruct (overlayStart_loop _ 0 st0) as [[start| | |] [f tr]]; try discriminate.
  munfold. destruct (_ <? 0); [discriminate|].
  destruct (ReadAt _ _ _) as [bs [e|]]; [discriminate|].
  intros H. injection H as <-. cbn. discriminate.
Qed.

Lemma cached_accessor_idempotent {A} (cache : File.t -> option A) (parse : M unit) :
  (forall st st', parse st = (Ok tt, st') -> cache (fst st') <> None) ->
  forall (st st1 : state) (v : option A),
  cached_accessor cache parse st = (Ok v, st1) ->
  v <> None /\ cache (fst st1) = v /\ cached_accessor cache parse st1 = (Ok v, st1).
Proof.
  intros Hparse [f tr] st1 v. unfold cached_accessor. munfold.
  destruct (cache f) eqn:Hc.
  - munfold. intros H. injection H as <- <-. cbn [fst]. rewrite Hc.
    repeat split; [discriminate|]. munfold. rewrite Hc. reflexivity.
  - destruct (parse (f, tr)) as [[[]| | |] [f' tr']] eqn:Hp; try discriminate.
    intros H. injection H as <- <-. cbn [fst].
    pose proof (Hparse _ _ Hp) as Hsome. cbn [fst] in Hsome.
    destruct (cache f') eqn:Hc'; [|contradiction].
    repeat split; [discriminate|]. munfold. rewrite Hc'. reflexivity.
Qed.

(** X5.  Every accessor is idempotent, from any state of the file: once a call
    has succeeded, its result is non-nil and cached, and the same call made
    again returns the same result without changing the file and without any
    further read, allocation or log line. *)
Theorem accessors_idempotent (st st1 : state) :
  (forall v, DOSHeader st = (Ok v, st1) ->
     v <> None /\ File.doshdr (fst st1) = v /\ DOSHeader st1 = (Ok v, st1)) /\
  (forall v, FileHeader st = (Ok v, st1) ->
     v <> None /\ File.fileHdr (fst st1) = v /\ FileHeader st1 = (Ok v, st1)) /\
  (forall v, OptHeader st = (Ok v, st1) ->
     v <> None /\ File.opthdr (fst st1) = v /\ OptHeader st1 = (Ok v, st1)) /\
  (forall v, SectHeaders st = (Ok v, st1) ->
     v <> None /\ File.sectHdrs (fst st1) = v /\ SectHeaders st1 = (Ok v, st1)) /\
  (forall v, Overlay st = (Ok v, st1) ->
     v <> None /\ File.overlay (fst st1) = v /\ Overlay st1 = (Ok v, st1)).
Proof.
  split; [|split; [|split; [|split]]]; intros v H.
  all: first
    [ apply (cached_accessor_idempotent File.doshdr parseDOSHeader
               parseDOSHeader_sets_cache st st1 v H)
    | apply (cached_accessor_idempotent File.fileHdr parseFileHeader
               parseFileHeader_sets_cache st st1 v H)
    | apply (cached_accessor_idempotent File.opthdr parseOptHeader
               parseOptHeader_sets_cache st st1 v H)
    | apply (cached_accessor_idempotent File.sectHdrs parseSectHeaders
               parseSectHeaders_sets_cache st st1 v H)
    | apply (cached_accessor_idempotent File.overlay parseOverlay
               parseOverlay_sets_cache st st1 v H) ].
Qed.

(* ===================================================================== *)
(** ** Further properties: [Parse] *)
(* ===================================================================== *)

Lemma readSectHeaders_all (src : list byte) (base : Z) (n : Z)
    (d : option DOSHeader.t) (fh : option FileHeader.t) (o : option OptHeader.t)
    (ov : option (list byte)) (tr : list event) :
  0 <= base -> 0 <= n -> base + sectHdrSize * n <= Zlen src ->
  readSectHeaders (seq 0 (Z.to_nat n))
    (SectionReader.mk base base (base + sectHdrSize * n))
    (File.mk d fh o (Some (repeat None (Z.to_nat n))) ov src, tr)
  = (Ok tt,
     (File.mk d fh o (Some (map Some (sects_at src base (Z.to_nat n)))) ov src,
      tr ++ sect_trace base 0 (Z.to_nat n))).
Proof.
  intros Hb Hn Hfits.
  assert (Hid : Z.of_nat (Z.to_nat n) = n) by (apply Z2Nat.id; exact Hn).
  pose proof (readSectHeaders_ok src base (Z.to_nat n) Hb
                ltac:(rewrite Hid; exact Hfits) (Z.to_nat n) 0%nat d fh o ov tr eq_refl)
    as Hloop.
  cbn [sects_at seq map app] in Hloop.
  rewrite Z.mul_0_r, Z.add_0_r, Hid in Hloop. exact Hloop.
Qed.

(** X6.  [Parse] on a fresh file whose two headers parse, whose section table
    lies inside the source and, when [OptHdrSize > 0], whose optional header
    and data directories can be read: it succeeds and fills the caches in
    order.  The optional header is parsed exactly when the declared
    [OptHdrSize] is positive and stays nil otherwise; the overlay is not
    computed; the section headers cached by [Parse] are those the accessor
    [SectHeaders] returns on a fresh file. *)
Theorem Parse_fills_caches (src : list byte) (fh : FileHeader.t) (st1 : state) :
  run FileHeader (File.New src) = (Ok (Some fh), st1) ->
  let p := peoff src in
  let n := FileHeader.NSection fh in
  let base := p + fileHdrSize + FileHeader.OptHdrSize fh in
  let ndir := OptHeader32.NDataDir (opthdr32_at src p) in
  base + sectHdrSize * n <= Zlen src ->
  (0 < FileHeader.OptHdrSize fh ->
   ndir <= 16 /\
   p + fileHdrSize + OptHeader32.size + DataDirectory.size * ndir <= Zlen src) ->
  exists st : state,
    run Parse (File.New src) = (Ok tt, st) /\
    File.doshdr (fst st) = Some (dos_of src) /\
    File.fileHdr (fst st) = Some fh /\
    File.opthdr (fst st) =
      (if FileHeader.OptHdrSize fh =? 0 then None
       else Some (OptHeader.mk (opthdr32_at src p) (Some (datadirs_at src p)))) /\
    File.sectHdrs (fst st) = Some (map Some (sects_at src base (Z.to_nat n))) /\
    File.overlay (fst st) = None /\
    Ok (File.sectHdrs (fst st)) = fst (run SectHeaders (File.New src)).
Proof.
  intros Hfh.
  destruct (FileHeader_New_inv src fh st1 Hfh) as (Hlen & Hmz & Hlen2 & Hpe & -> & ->).
  fold (nsection src). fold (sect_base src). cbv zeta. intros Hfits Hopt.
  destruct (sect_base_range src) as (Hb & Hn & Hr).
  pose proof (peoff_range src) as Hp.
  pose proof (SectHeaders_New_ok src Hlen Hmz Hlen2 Hpe Hfits) as Hacc.
  cbv zeta in Hacc. unfold run. rewrite Hacc. cbn [fst].
  unfold Parse.
  rewrite (bind_eq_ok _ _ _ _ _ (parseDOSHeader_ok (File.New src) [] Hlen Hmz)).
  cbn [File.New File.r app]. fold (File.New src). fold (file_dos src).
  rewrite (bind_eq_ok _ _ _ _ _
             (parseFileHeader_ok (file_dos src) (dos_trace src) (dos_of src) eq_refl
                Hp Hlen2 Hpe)).
  cbn [file_dos File.set_doshdr File.New File.r]. fold (File.New src).
  fold (file_dos src). fold (peoff src). fold (file_hdrs src).
  change (dos_trace src ++ filehdr_trace (peoff src)) with (hdrs_trace src).
  unfold bind at 1. unfold get_file at 1. cbn [fst].
  unfold bind at 1. unfold deref. cbn [file_hdrs File.set_fileHdr File.fileHdr].
  unfold ret at 1. fold (file_hdrs src).
  destruct (Z.gtb_spec (FileHeader.OptHdrSize (filehdr_at src (peoff src))) 0)
    as [Hpos|Hzero].
  - destruct (Hopt ltac:(lia)) as [Hdir Hdirfits].
    unfold when.
    rewrite (bind_eq_ok _ _ _ _ _
               (parseOptHeader_ok (file_hdrs src) (hdrs_trace src) (dos_of src) eq_refl
                  Hp Hdir Hdirfits)).
    cbn [file_hdrs file_dos File.set_fileHdr File.set_doshdr File.set_opthdr
           File.New File.r File.doshdr File.fileHdr File.opthdr File.sectHdrs
           File.overlay].
    fold (peoff src).
    match goal with
    | |- context [parseSectHeaders (?f, ?t)] =>
        rewrite (parseSectHeaders_cached f t (dos_of src)
                   (filehdr_at src (peoff src)) eq_refl eq_refl Hr)
    end.
    unfold File.set_sectHdrs.
    cbn [File.r File.doshdr File.fileHdr File.opthdr File.sectHdrs File.overlay].
    fold (peoff src). fold (nsection src). fold (sect_base src).
    rewrite readSectHeaders_all by (try assumption; lia).
    eexists. split; [reflexivity|]. cbn [fst File.doshdr File.fileHdr File.opthdr
      File.sectHdrs File.overlay].
    destruct (Z.eqb_spec (FileHeader.OptHdrSize (filehdr_at src (peoff src))) 0);
      [lia|].
    repeat split.
  - unfold when, ret at 1. unfold bind at 1.
    rewrite (parseSectHeaders_cached (file_hdrs src) (hdrs_trace src) (dos_of src)
               (filehdr_at src (peoff src)) eq_refl eq_refl Hr).
    unfold File.set_sectHdrs.
    cbn [file_hdrs file_dos File.set_fileHdr File.set_doshdr File.New
           File.r File.doshdr File.fileHdr File.opthdr File.sectHdrs File.overlay].
    fold (peoff src). fold (nsection src). fold (sect_base src).
    rewrite readSectHeaders_all by (try assumption; lia).
    eexists. split; [reflexivity|]. cbn [fst File.doshdr File.fileHdr File.opthdr
      File.sectHdrs File.overlay].
    pose proof (filehdr_ranges src (peoff src)) as [_ Hrange].
    destruct (Z.eqb_spec (FileHeader.OptHdrSize (filehdr_at src (peoff src))) 0);
      [|lia].
    repeat split.
Qed.

Lemma Parse_fills_caches_witness :
  exists st : state,
    run Parse (File.New image_one_section) = (Ok tt, st) /\
    File.opthdr (fst st) = None /\
    File.sectHdrs (fst st) =
      Some [Some (SectHeader.mk (repeat Byte.x00 8) 0 0 4 128 0 0 0 0 0)].
Proof.
  assert (Hfh : run FileHeader (File.New image_one_section) =
                (Ok (Some (filehdr_at image_one_section 64)),
                 snd (run FileHeader (File.New image_one_section))))
    by (vm_compute; reflexivity).
  destruct (Parse_fills_caches image_one_section _ _ Hfh)
    as (st & Hrun & _ & _ & Hopt & Hsect & _).
  - vm_compute. discriminate.
  - intros H. exfalso. vm_compute in H. discriminate.
  - exists st. split; [exact Hrun|]. split.
    + rewrite Hopt. vm_compute. reflexivity.
    + rewrite Hsect. vm_compute. reflexivity.
Defined.

(* ===================================================================== *)
(** ** Further properties: the optional header and its data directories *)
(* ===================================================================== *)

Lemma u32_slice (src : list byte) (a m b : Z) :
  0 <= a -> 0 <= b -> b + 4 <= m -> u32 (slice src a m) b = u32 src (a + b).
Proof. intros. unfold u32, le_at. rewrite slice_slice by lia. reflexivity. Qed.

Lemma u16_slice (src : list byte) (a m b : Z) :
  0 <= a -> 0 <= b -> b + 2 <= m -> u16 (slice src a m) b = u16 src (a + b).
Proof. intros. unfold u16, le_at. rewrite slice_slice by lia. reflexivity. Qed.

Lemma nth_error_decode_array {A} (decode : list byte -> A) (sz : Z) (bs : list byte)
    (n i : nat) :
  (i < n)%nat ->
  nth_error (decode_array decode sz bs n) i
  = Some (decode (slice bs (sz * Z.of_nat i) sz)).
Proof.
  intros Hi. unfold decode_array.
  rewrite (nth_error_map (fun x => decode (slice bs (sz * Z.of_nat x) sz))).
  rewrite nth_error_seq. destruct (Nat.ltb_spec i n); [reflexivity|lia].
Qed.

(** X7.  [OptHeader] on a fresh file whose DOS header parses and which holds,
    after the file header, the 96 fixed bytes and the [NDataDir <= 16]
    directories they declare: it returns exactly [NDataDir] data directories
    in on-disk order, entry [i] being the two little-endian 32-bit values at
    file offsets [PEHdrOffset + 120 + 8*i] and [PEHdrOffset + 124 + 8*i];
    [NDataDir] itself is the value at [PEHdrOffset + 116], and the fixed
    fields are read at their offsets after [PEHdrOffset + 24]. *)
Theorem OptHeader_decodes_data_directories
    (src : list byte) (h : DOSHeader.t) (st1 : state) :
  run DOSHeader (File.New src) = (Ok (Some h), st1) ->
  let p := DOSHeader.PEHdrOffset h in
  let n := u32 src (p + 116) in
  n <= 16 ->
  p + 120 + 8 * n <= Zlen src ->
  exists (o : OptHeader.t) (l : list DataDirectory.t) (st : state),
    run OptHeader (File.New src) = (Ok (Some o), st) /\
    File.opthdr (fst st) = Some o /\
    OptHeader.DataDirs o = Some l /\
    Zlen l = n /\
    OptHeader32.NDataDir (OptHeader.Hdr32 o) = n /\
    (forall i : Z, 0 <= i < n ->
       nth_error l (Z.to_nat i) =
         Some {| DataDirectory.RelAddr := u32 src (p + 120 + 8 * i);
                 DataDirectory.Size := u32 src (p + 124 + 8 * i) |}) /\
    OptHeader32.State (OptHeader.Hdr32 o) = u16 src (p + 24) /\
    OptHeader32.EntryRelAddr (OptHeader.Hdr32 o) = u32 src (p + 40) /\
    OptHeader32.ImageBase (OptHeader.Hdr32 o) = u32 src (p + 52) /\
    OptHeader32.Subsystem (OptHeader.Hdr32 o) = u16 src (p + 92).
Proof.
  intros Hdos.
  destruct (DOSHeader_New_inv src h st1 Hdos) as (Hlen & Hmz & -> & ->).
  fold (peoff src). pose proof (peoff_range src) as Hp. cbv zeta.
  assert (Hn : OptHeader32.NDataDir (opthdr32_at src (peoff src))
               = u32 src (peoff src + 116)).
  { unfold opthdr32_at, OptHeader32.decode, OptHeader32.size, fileHdrSize, u32, le_at.
    cbn [OptHeader32.NDataDir]. rewrite slice_slice by lia. do 2 f_equal. lia. }
  intros Hn16 Hfits.
  pose proof (u32_range src (peoff src + 116)) as Hnr.
  unfold run. rewrite OptHeader_uncached by reflexivity.
  rewrite parseOptHeader_New by assumption.
  rewrite (parseOptHeader_ok (file_dos src) (dos_trace src) (dos_of src) eq_refl Hp).
  2:{ cbn [file_dos File.set_doshdr File.New File.r]. fold (peoff src).
      rewrite Hn. exact Hn16. }
  2:{ cbn [file_dos File.set_doshdr File.New File.r]. fold (peoff src).
      rewrite Hn. unfold fileHdrSize, OptHeader32.size, DataDirectory.size. lia. }
  cbn [file_dos File.set_doshdr File.set_opthdr File.New File.r fst File.opthdr].
  fold (peoff src).
  eexists _, _, _. split; [reflexivity|]. split; [reflexivity|].
  cbn [OptHeader.DataDirs OptHeader.Hdr32]. split; [reflexivity|].
  split; [|split; [exact Hn|split]].
  - unfold datadirs_at, decode_array, Zlen.
    rewrite length_map, length_seq, Hn. lia.
  - intros i Hi. unfold datadirs_at. rewrite Hn.
    rewrite nth_error_decode_array by lia.
    rewrite Z2Nat.id by lia.
    unfold DataDirectory.decode, DataDirectory.size, OptHeader32.size, fileHdrSize.
    rewrite slice_slice by lia.
    rewrite !u32_slice by lia.
    f_equal. f_equal; f_equal; lia.
  - unfold opthdr32_at, OptHeader32.decode, OptHeader32.size, fileHdrSize,
      u32, u16, le_at.
    cbn [OptHeader32.State OptHeader32.EntryRelAddr OptHeader32.ImageBase
           OptHeader32.Subsystem].
    rewrite !slice_slice by lia.
    repeat split; do 2 f_equal; lia.
Qed.

(** An image with a 32-bit optional header that declares two data
    directories, [(0x1000, 0x20)] and [(0x2000, 0x40)]. *)
Lemma OptHeader_decodes_data_directories_witness :
  let src := dos_image 64 ++ file_header_image 0 112 ++ opt_header_image 2
               ++ le_split 4 0x1000 ++ le_split 4 0x20
               ++ le_split 4 0x2000 ++ le_split 4 0x40 in
  exists (o : OptHeader.t),
    fst (run OptHeader (File.New src)) = Ok (Some o) /\
    OptHeader.DataDirs o =
      Some [DataDirectory.mk 0x1000 0x20; DataDirectory.mk 0x2000 0x40].
Proof.
  intros src.
  assert (Hdos : run DOSHeader (File.New src) =
                 (Ok (Some (dos_of src)), snd (run DOSHeader (File.New src))))
    by (vm_compute; reflexivity).
  destruct (OptHeader_decodes_data_directories src _ _ Hdos)
    as (o & l & st & Hrun & _ & Hdirs & Hlen & _ & Hnth & _).
  - vm_compute. discriminate.
  - vm_compute. discriminate.
  - exists o. rewrite Hrun. split; [reflexivity|]. rewrite Hdirs. f_equal.
    assert (H0 := Hnth 0 ltac:(vm_compute; split; [discriminate|reflexivity])).
    assert (H1 := Hnth 1 ltac:(vm_compute; split; [discriminate|reflexivity])).
    assert (Hl : List.length l = 2%nat).
    { unfold Zlen in Hlen. apply Nat2Z.inj. rewrite Hlen. vm_compute. reflexivity. }
    destruct l as [|a [|b [|c l]]]; try discriminate Hl.
    cbn in H0, H1. injection H0 as ->. injection H1 as ->.
    vm_compute. reflexivity.
Defined.

(* ===================================================================== *)
(** ** Further properties: a section table cut short *)
(* ===================================================================== *)

(** The loop of [parseSectHeaders] when the source ends inside window [j]:
    the windows before it are decoded, entry [j] keeps the zero header stored
    before its read, and the entries after it stay nil. *)
Lemma readSectHeaders_stops (src : list byte) (base : Z) (N j : nat) :
  0 <= base -> (j < N)%nat ->
  (j = 0%nat \/ base + sectHdrSize * Z.of_nat j <= Zlen src) ->
  Zlen src < base + sectHdrSize * Z.of_nat (S j) ->
  forall (m k : nat) (d : option DOSHeader.t) (fh : option FileHeader.t)
         (o : option OptHeader.t) (ov : option (list byte)) (tr : list event),
  (k + m = N)%nat -> (k <= j)%nat ->
  readSectHeaders (seq k m)
    (SectionReader.mk base (base + sectHdrSize * Z.of_nat k)
       (base + sectHdrSize * Z.of_nat N))
    (File.mk d fh o (Some (map Some (sects_at src base k) ++ repeat None m)) ov src, tr)
  = (Err (ErrSectHeaderRead
            (if Zlen src <=? base + sectHdrSize * Z.of_nat j
             then EOF else ErrUnexpectedEOF)),
     (File.mk d fh o
        (Some (map Some (sects_at src base j)
                 ++ Some SectHeader.zero :: repeat None (N - S j)))
        ov src,
      tr ++ sect_trace base k (S j - k))).
Proof.
  unfold sectHdrSize. intros Hbase HjN Hfit Hshort.
  induction m as [|m IH]; intros k d fh o ov tr Hkm Hkj; [lia|].
  assert (Hk : List.length (map Some (sects_at src base k)) = k)
    by (rewrite length_map; apply length_sects_at).
  cbn [seq readSectHeaders repeat]. unfold set_sectHdr. munfold.
  cbn [File.r File.sectHdrs File.set_sectHdrs File.doshdr File.fileHdr
         File.opthdr File.overlay].
  destruct (Nat.eq_dec k j) as [->|Hne].
  - destruct (ReadFull_short_kind src
                (SectionReader.mk base (base + 40 * Z.of_nat j) (base + 40 * Z.of_nat N))
                SectHeader.size) as (bs & s' & ->);
      try (cbn [SectionReader.off SectionReader.limit]; unfold SectHeader.size; lia).
    cbn [SectionReader.off fst snd].
    rewrite (update_app_at _ _ _ _ j) by exact Hk.
    replace (S j - j)%nat with 1%nat by lia.
    replace m with (N - S j)%nat by lia.
    reflexivity.
  - rewrite ReadFull_ok
      by (cbn [SectionReader.off SectionReader.limit]; unfold SectHeader.size; lia).
    unfold SectionReader.advance.
    cbn [SectionReader.off SectionReader.base SectionReader.limit fst snd].
    cbn [File.r File.sectHdrs File.set_sectHdrs File.doshdr File.fileHdr
           File.opthdr File.overlay].
    rewrite !(update_app_at _ _ _ _ k) by exact Hk.
    unfold File.set_sectHdrs.
    cbn [File.r File.sectHdrs File.doshdr File.fileHdr File.opthdr File.overlay].
    replace (map Some (sects_at src base k)
               ++ Some (SectHeader.decode
                          (slice src (base + 40 * Z.of_nat k) SectHeader.size))
                  :: repeat None m)
      with (map Some (sects_at src base (S k)) ++ repeat None m).
    2:{ rewrite sects_at_S, map_app, <- app_assoc. reflexivity. }
    replace (base + 40 * Z.of_nat k + SectHeader.size)
      with (base + 40 * Z.of_nat (S k)) by (unfold SectHeader.size; lia).
    rewrite IH by lia.
    replace (S j - k)%nat with (S (S j - S k)) by lia.
    unfold sect_trace. cbn [seq map]. rewrite <- app_assoc. reflexivity.
Qed.

(** The loop of [parseOverlay] dereferences every entry: a nil entry stops it
    with a nil-pointer panic. *)
Lemma overlayStart_loop_nil (shs : list SectHeader.t) (rest : list (option SectHeader.t)) :
  forall (acc : Z) (st : state),
  overlayStart_loop (map Some shs ++ None :: rest) acc st = (Panic NilDereference, st).
Proof.
  induction shs as [|sh shs IH]; intros acc st; cbn [map app overlayStart_loop].
  - reflexivity.
  - munfold. apply IH.
Qed.

(** X8.  When the source ends inside the section table, in window [j] of the
    [n] declared ones, [SectHeaders] on a fresh file fails with
    "error reading section header" ([io.EOF] when no byte of window [j] is
    there, [io.ErrUnexpectedEOF] otherwise), yet the slice it allocated stays
    in the file: [j] decoded headers, one zero header, and [n-j-1] nil
    pointers.  The cache being non-nil, a second call of [SectHeaders] returns
    that slice with a nil error and reads nothing; and when a nil pointer is
    left in it, [Overlay] then panics on the nil dereference. *)
Theorem SectHeaders_failure_leaves_partial_table
    (src : list byte) (h : DOSHeader.t) (fh : FileHeader.t) (st1 : state) (j : Z) :
  run FileHeader (File.New src) = (Ok (Some fh), st1) ->
  File.doshdr (fst st1) = Some h ->
  let n := FileHeader.NSection fh in
  let base := DOSHeader.PEHdrOffset h + fileHdrSize + FileHeader.OptHdrSize fh in
  0 <= j < n ->
  (j = 0 \/ base + sectHdrSize * j <= Zlen src) ->
  Zlen src < base + sectHdrSize * (j + 1) ->
  let l := map Some (sects_at src base (Z.to_nat j))
             ++ Some SectHeader.zero :: repeat None (Z.to_nat (n - j - 1)) in
  exists st : state,
    run SectHeaders (File.New src) =
      (Err (ErrSectHeaderRead
              (if Zlen src <=? base + sectHdrSize * j then EOF else ErrUnexpectedEOF)),
       st) /\
    File.sectHdrs (fst st) = Some l /\
    SectHeaders st = (Ok (Some l), st) /\
    (j + 1 < n -> fst (Overlay st) = Panic NilDereference).
Proof.
  intros Hfh Hh.
  destruct (FileHeader_New_inv src fh st1 Hfh) as (Hlen & Hmz & Hlen2 & Hpe & -> & ->).
  cbn [fst snd file_hdrs file_dos File.set_fileHdr File.set_doshdr File.doshdr
         File.New] in Hh.
  injection Hh as <-. fold (peoff src). fold (nsection src). fold (sect_base src).
  cbv zeta. intros Hj Hfit Hshort.
  destruct (sect_base_range src) as (Hb & Hn & Hr).
  assert (Hid : Z.of_nat (Z.to_nat (nsection src)) = nsection src)
    by (apply Z2Nat.id; lia).
  assert (Hidj : Z.of_nat (Z.to_nat j) = j) by (apply Z2Nat.id; lia).
  pose proof (readSectHeaders_stops src (sect_base src) (Z.to_nat (nsection src))
                (Z.to_nat j) Hb ltac:(lia)
                ltac:(rewrite Hidj; destruct Hfit; [left|right]; lia)
                ltac:(rewrite Nat2Z.inj_succ, Hidj; unfold sectHdrSize in *; lia)
                (Z.to_nat (nsection src)) 0%nat
                (Some (dos_of src)) (Some (filehdr_at src (peoff src))) None None
                (hdrs_trace src ++ [EvMake AllocSectHdrs (nsection src)])
                eq_refl ltac:(lia)) as Hloop.
  cbn [sects_at seq map app] in Hloop.
  rewrite Z.mul_0_r, Z.add_0_r, Hid, Hidj in Hloop.
  replace (Z.to_nat (nsection src) - S (Z.to_nat j))%nat
    with (Z.to_nat (nsection src - j - 1)) in Hloop by lia.
  assert (Hrun : SectHeaders (File.New src, []) =
    (Err (ErrSectHeaderRead
            (if Zlen src <=? sect_base src + sectHdrSize * j
             then EOF else ErrUnexpectedEOF)),
     (File.mk (Some (dos_of src)) (Some (filehdr_at src (peoff src))) None
        (Some (map Some (sects_at src (sect_base src) (Z.to_nat j))
                 ++ Some SectHeader.zero
                    :: repeat None (Z.to_nat (nsection src - j - 1))))
        None src,
      (hdrs_trace src ++ [EvMake AllocSectHdrs (nsection src)])
        ++ sect_trace (sect_base src) 0 (S (Z.to_nat j) - 0)))).
  { unfold SectHeaders. munfold. cbn [File.New File.sectHdrs].
    fold (File.New src).
    rewrite parseSectHeaders_New by assumption.
    unfold file_hdrs, file_dos, File.set_fileHdr, File.set_doshdr, File.set_sectHdrs,
      File.New.
    cbn [File.doshdr File.fileHdr File.opthdr File.sectHdrs File.overlay File.r].
    unfold sects_at in *.
    rewrite Hloop. reflexivity. }
  eexists. unfold run. split; [exact Hrun|].
  cbn [fst File.sectHdrs].
  split; [reflexivity|].
  split.
  - unfold SectHeaders. munfold. cbn [File.sectHdrs]. reflexivity.
  - intros Hnil. unfold Overlay. munfold. cbn [File.overlay].
    unfold parseOverlay, SectHeaders. munfold. cbn [File.sectHdrs].
    replace (Z.to_nat (nsection src - j - 1))
      with (S (Z.to_nat (nsection src - j - 2))) by lia.
    cbn [repeat].
    change (map Some (sects_at src (sect_base src) (Z.to_nat j))
              ++ Some SectHeader.zero :: None
                 :: repeat None (Z.to_nat (nsection src - j - 2)))
      with (map Some (sects_at src (sect_base src) (Z.to_nat j))
              ++ map Some [SectHeader.zero]
              ++ None :: repeat None (Z.to_nat (nsection src - j - 2))).
    rewrite app_assoc, <- map_app. cbn [fst File.sectHdrs].
    rewrite overlayStart_loop_nil. reflexivity.
Qed.

Lemma SectHeaders_failure_leaves_partial_table_witness :
  exists st : state,
    run SectHeaders (File.New image_cut_table) =
      (Err (ErrSectHeaderRead ErrUnexpectedEOF), st) /\
    SectHeaders st =
      (Ok (Some [Some (SectHeader.mk (repeat Byte.x00 8) 0 0 4 208 0 0 0 0 0);
                 Some SectHeader.zero; None]), st) /\
    fst (Overlay st) = Panic NilDereference.
Proof.
  destruct (SectHeaders_failure_leaves_partial_table image_cut_table
              (dos_of image_cut_table) (filehdr_at image_cut_table 64)
              (file_hdrs image_cut_table, hdrs_trace image_cut_table) 1)
    as (st & Hrun & _ & Hagain & Hov).
  - vm_compute. reflexivity.
  - reflexivity.
  - vm_compute. split; [discriminate|reflexivity].
  - right. vm_compute. discriminate.
  - vm_compute. reflexivity.
  - exists st. split; [exact Hrun|]. split; [exact Hagain|].
    apply Hov. vm_compute. reflexivity.
Defined.

(* ===================================================================== *)
(** ** Further properties: the overlay behind the sections *)
(* ===================================================================== *)

Lemma overlay_start_bounds (shs : list SectHeader.t) :
  forall acc : Z,
  (forall sh, In sh shs ->
     uint32 (SectHeader.Offset sh + SectHeader.Size sh) <= overlay_start shs acc) /\
  (overlay_start shs acc = acc \/
   exists sh, In sh shs /\
     overlay_start shs acc = uint32 (SectHeader.Offset sh + SectHeader.Size sh)).
Proof.
  induction shs as [|sh shs IH]; intros acc; cbn [overlay_start In].
  - split; [intros sh []|left; reflexivity].
  - set (e := uint32 (SectHeader.Offset sh + SectHeader.Size sh)).
    destruct (IH (if e >? acc then e else acc)) as [Hub Hmax].
    pose proof (overlay_start_ge shs (if e >? acc then e else acc)) as Hge.
    split.
    + intros sh' [<-|Hin]; [|apply Hub; exact Hin].
      fold e. destruct (Z.gtb_spec e acc); lia.
    + destruct Hmax as [Heq|(sh' & Hin & Heq)].
      * destruct (Z.gtb_spec e acc).
        -- right. exists sh. split; [left; reflexivity|]. exact Heq.
        -- left. exact Heq.
      * right. exists sh'. split; [right; exact Hin|exact Heq].
Qed.

(** X9.  The start of the overlay that [parseOverlay] computes from a table
    without nil entries is the greatest section end, where the end of a
    section is [Offset + Size] reduced modulo [2^32] (the sum is formed in
    [uint32] before it is widened): it is no smaller than the end of any
    section, it is [0] or the end of one of them, and it is below [2^32].  The
    loop touches neither the file nor the trace. *)
Theorem overlay_start_is_greatest_wrapped_end
    (shs : list SectHeader.t) (st : state) :
  exists start : Z,
    overlayStart_loop (map Some shs) 0 st = (Ok start, st) /\
    0 <= start < 2 ^ 32 /\
    (forall sh, In sh shs ->
       (SectHeader.Offset sh + SectHeader.Size sh) mod 2 ^ 32 <= start) /\
    (start = 0 \/
     exists sh, In sh shs /\
       start = (SectHeader.Offset sh + SectHeader.Size sh) mod 2 ^ 32).
Proof.
  exists (overlay_start shs 0).
  destruct (overlay_start_bounds shs 0) as [Hub Hmax].
  split; [apply overlayStart_loop_run|].
  split; [|split; [exact Hub|exact Hmax]].
  destruct Hmax as [->|(sh & _ & ->)]; [lia|].
  unfold uint32. apply Z.mod_pos_bound. lia.
Qed.

(** X10.  When the section headers of a fresh file parse and the greatest
    section end lies before the end of the source, [Overlay] returns the bytes
    from that end to the end of the source, at least one, caches them, and has
    asked for exactly those bytes in one read; together with the bytes before
    the section end they make up the source.  (A section end equal to the
    length of the source is left out: the read is then one of no bytes at the
    end of the source, and what it reports depends on the reader.) *)
Theorem Overlay_is_source_after_sections
    (src : list byte) (shs : list SectHeader.t) (st1 : state) :
  run SectHeaders (File.New src) = (Ok (Some (map Some shs)), st1) ->
  let ext := overlay_start shs 0 in
  ext < Zlen src ->
  let overlay := slice src ext (Zlen src - ext) in
  run Overlay (File.New src) =
    (Ok (Some overlay),
     (File.set_overlay (Some overlay) (fst st1),
      snd st1 ++ [EvMake AllocOverlay (Zlen src - ext); EvRead ext (Zlen src - ext)])) /\
  Zlen overlay = Zlen src - ext /\
  0 < Zlen overlay /\
  slice src 0 ext ++ overlay = src.
Proof.
  unfold run. intros Hsect. destruct st1 as [f1 tr1]. cbv zeta. intros Hext.
  assert (Hr : File.r f1 = src).
  { pose proof (preserves_r_SectHeaders (File.New src, [])) as H.
    rewrite Hsect in H. exact H. }
  pose proof (overlay_start_ge shs 0) as Hge.
  rewrite (Overlay_run (File.New src) f1 [] tr1 shs eq_refl Hsect).
  cbv zeta. rewrite Hr. unfold SeekEnd.
  destruct (Z.ltb_spec (Zlen src - overlay_start shs 0) 0); [lia|].
  rewrite ReadAt_tail by lia.
  split; [reflexivity|].
  split; [apply Zlen_slice_full; lia|].
  split; [rewrite Zlen_slice_full by lia; lia|].
  rewrite slice_app by lia.
  unfold slice. cbn [Z.to_nat skipn]. apply firstn_all2. unfold Zlen. lia.
Qed.

Lemma Overlay_is_source_after_sections_witness :
  fst (run Overlay (File.New (image_one_section ++ [Byte.xaa; Byte.xbb]))) =
    Ok (Some (zeros 6 ++ [Byte.xaa; Byte.xbb])) /\
  slice (image_one_section ++ [Byte.xaa; Byte.xbb]) 0 132 ++ zeros 6 ++ [Byte.xaa; Byte.xbb] = image_one_section ++ [Byte.xaa; Byte.xbb].
Proof.
  assert (Hsect : run SectHeaders (File.New (image_one_section ++ [Byte.xaa; Byte.xbb])) =
                  (Ok (Some (map Some [SectHeader.decode (sect_header_image 4 128)])),
                   snd (run SectHeaders (File.New (image_one_section ++ [Byte.xaa; Byte.xbb])))))
    by (vm_compute; reflexivity).
  destruct (Overlay_is_source_after_sections _ _ _ Hsect) as (Hrun & _ & _ & Hsplit).
  - vm_compute. reflexivity.
  - rewrite Hrun. split; [vm_compute; reflexivity|].
    etransitivity; [|exact Hsplit]. vm_compute. reflexivity.
Defined.

(* ===================================================================== *)
(** ** Further properties: the DOS stub *)
(* ===================================================================== *)

(** [DOSStub] once the DOS header is cached. *)
Lemma DOSStub_cached_run (f : File.t) (tr : list event) (h : DOSHeader.t) :
  File.doshdr f = Some h ->
  let stubSize := uint32 (DOSHeader.PEHdrOffset h - dosHdrSize) in
  DOSStub (f, tr) =
    if stubSize <=? 0 then (Ok None, (f, tr))
    else
      let tr' := tr ++ [EvMake AllocDOSStub stubSize; EvRead dosHdrSize stubSize] in
      match ReadFull (File.r f) (SectionReader.New dosHdrSize stubSize) stubSize with
      | (_, Some e, _) => (Err (ErrDOSStubRead e), (f, tr'))
      | (bs, None, _) => (Ok (Some bs), (f, tr'))
      end.
Proof.
  intros Hh. cbv zeta. unfold DOSStub.
  rewrite (bind_eq_ok _ _ _ _ _ (DOSHeader_cached f tr h Hh)). munfold.
  destruct (uint32 _ <=? 0); [reflexivity|].
  munfold. rewrite off_New. rewrite <- app_assoc. cbn [app].
  destruct (ReadFull _ _ _) as [[bs [e|]] s']; reflexivity.
Qed.

(** X11.  Once the DOS header of a fresh file has parsed with
    [PEHdrOffset > 64], [DOSStub] makes a buffer of [PEHdrOffset - 64] bytes
    and asks for them at offset 64.  When the source reaches [PEHdrOffset] the
    result is exactly the bytes between the DOS header and the PE signature;
    the stub is not cached, so a second call makes the same buffer and the
    same read again.  When the source ends before [PEHdrOffset] the call fails
    with "error reading DOS stub": [io.EOF] for a source of 64 bytes,
    [io.ErrUnexpectedEOF] otherwise. *)
Theorem DOSStub_returns_bytes_up_to_PE_header
    (src : list byte) (h : DOSHeader.t) (st : state) :
  run DOSHeader (File.New src) = (Ok (Some h), st) ->
  let p := DOSHeader.PEHdrOffset h in
  dosHdrSize < p ->
  let effects := [EvMake AllocDOSStub (p - dosHdrSize);
                  EvRead dosHdrSize (p - dosHdrSize)] in
  let st' := (fst st, snd st ++ effects) in
  (p <= Zlen src ->
     let stub := slice src dosHdrSize (p - dosHdrSize) in
     run DOSStub (File.New src) = (Ok (Some stub), st') /\
     Zlen stub = p - dosHdrSize /\
     slice src 0 dosHdrSize ++ stub = slice src 0 p /\
     DOSStub st' = (Ok (Some stub), (fst st', snd st' ++ effects))) /\
  (Zlen src < p ->
     run DOSStub (File.New src) =
       (Err (ErrDOSStubRead
               (if Zlen src <=? dosHdrSize then EOF else ErrUnexpectedEOF)), st')).
Proof.
  intros Hdos.
  destruct (DOSHeader_New_inv src h st Hdos) as (Hlen & Hmz & -> & ->).
  pose proof (PEHdrOffset_range src) as Hp. fold (peoff src) in *.
  cbv zeta. intros Hgt. cbn [fst snd]. unfold run.
  assert (Hsize : uint32 (peoff src - dosHdrSize) = peoff src - dosHdrSize)
    by (apply uint32_sub_small; lia).
  assert (Hnew : SectionReader.New dosHdrSize (peoff src - dosHdrSize) =
                 SectionReader.mk dosHdrSize dosHdrSize
                   (dosHdrSize + (peoff src - dosHdrSize)))
    by (apply New_small; unfold dosHdrSize, maxint64 in *; lia).
  assert (Hstub : forall tr,
    DOSStub (file_dos src, tr) =
      match ReadFull src (SectionReader.mk dosHdrSize dosHdrSize
                            (dosHdrSize + (peoff src - dosHdrSize)))
                     (peoff src - dosHdrSize) with
      | (_, Some e, _) =>
          (Err (ErrDOSStubRead e),
           (file_dos src,
            tr ++ [EvMake AllocDOSStub (peoff src - dosHdrSize);
                   EvRead dosHdrSize (peoff src - dosHdrSize)]))
      | (bs, None, _) =>
          (Ok (Some bs),
           (file_dos src,
            tr ++ [EvMake AllocDOSStub (peoff src - dosHdrSize);
                   EvRead dosHdrSize (peoff src - dosHdrSize)]))
      end).
  { intros tr.
    rewrite (DOSStub_cached_run (file_dos src) tr (dos_of src) eq_refl).
    cbv zeta. fold (peoff src). rewrite Hsize, Hnew.
    destruct (Z.leb_spec (peoff src - dosHdrSize) 0); [lia|]. reflexivity. }
  assert (Hfresh : DOSStub (File.New src, []) = DOSStub (file_dos src, dos_trace src)).
  { unfold DOSStub. apply DOSHeader_bind_New; assumption. }
  rewrite Hfresh, Hstub.
  split.
  - intros Hfit.
    assert (Hread : ReadFull src (SectionReader.mk dosHdrSize dosHdrSize
                                    (dosHdrSize + (peoff src - dosHdrSize)))
                      (peoff src - dosHdrSize) =
                    (slice src dosHdrSize (peoff src - dosHdrSize), None,
                     SectionReader.advance
                       (SectionReader.mk dosHdrSize dosHdrSize
                          (dosHdrSize + (peoff src - dosHdrSize)))
                       (peoff src - dosHdrSize))).
    { apply ReadFull_ok; cbn [SectionReader.off SectionReader.limit];
        unfold dosHdrSize in *; lia. }
    rewrite Hread.
    split; [reflexivity|].
    split; [apply Zlen_slice_full; unfold dosHdrSize in *; lia|].
    split.
    + rewrite slice_app by (unfold dosHdrSize in *; lia).
      f_equal. lia.
    + rewrite Hstub, Hread. reflexivity.
  - intros Hshort.
    destruct (ReadFull_short_kind src
                (SectionReader.mk dosHdrSize dosHdrSize
                   (dosHdrSize + (peoff src - dosHdrSize)))
                (peoff src - dosHdrSize)) as (bs & s' & ->);
      try (cbn [SectionReader.off SectionReader.limit]; unfold dosHdrSize in *; lia).
    reflexivity.
Qed.

Lemma DOSStub_returns_bytes_up_to_PE_header_witness :
  let src := dos_image 68 ++ [Byte.xaa; Byte.xbb; Byte.xcc; Byte.xdd; Byte.x00] in
  fst (run DOSStub (File.New src)) =
    Ok (Some [Byte.xaa; Byte.xbb; Byte.xcc; Byte.xdd]) /\
  fst (run DOSStub (File.New (dos_image 68 ++ [Byte.xaa]))) =
    Err (ErrDOSStubRead ErrUnexpectedEOF).
Proof.
  intros src. split.
  - assert (H : run DOSHeader (File.New src) =
                (Ok (Some (dos_of src)), snd (run DOSHeader (File.New src))))
      by (vm_compute; reflexivity).
    destruct (DOSStub_returns_bytes_up_to_PE_header src _ _ H) as [Hok _].
    + vm_compute. reflexivity.
    + destruct Hok as (Hrun & _); [vm_compute; discriminate|].
      rewrite Hrun. vm_compute. reflexivity.
  - assert (H : run DOSHeader (File.New (dos_image 68 ++ [Byte.xaa])) =
                (Ok (Some (dos_of (dos_image 68 ++ [Byte.xaa]))),
                 snd (run DOSHeader (File.New (dos_image 68 ++ [Byte.xaa])))))
      by (vm_compute; reflexivity).
    destruct (DOSStub_returns_bytes_up_to_PE_header _ _ _ H) as [_ Hshort].
    + vm_compute. reflexivity.
    + rewrite Hshort by (vm_compute; reflexivity). vm_compute. reflexivity.
Defined.

(* ===================================================================== *)
(** ** Further properties: [Parse] from any state *)
(* ===================================================================== *)

(** X12.  [Parse] does not consult the caches.  From any state of the file,
    on a source all of whose headers can be read, it reads every header again,
    in the same order, and overwrites the cached DOS header, file header and
    section headers with what the source holds.  The optional header is
    overwritten only when the declared [OptHdrSize] is positive: with
    [OptHdrSize = 0] whatever optional header was cached stays.  The cached
    overlay is never touched. *)
Theorem Parse_overwrites_caches (f : File.t) (tr : list event) :
  let src := File.r f in
  let p := peoff src in
  let fh := filehdr_at src p in
  let ndir := OptHeader32.NDataDir (opthdr32_at src p) in
  dosHdrSize <= Zlen src -> u16 src 0 = mz ->
  p + fileHdrSize <= Zlen src -> u32 src p = pe ->
  sect_base src + sectHdrSize * nsection src <= Zlen src ->
  (0 < FileHeader.OptHdrSize fh ->
   ndir <= 16 /\
   p + fileHdrSize + OptHeader32.size + DataDirectory.size * ndir <= Zlen src) ->
  Parse (f, tr) =
    (Ok tt,
     (File.mk (Some (dos_of src)) (Some fh)
        (if FileHeader.OptHdrSize fh =? 0 then File.opthdr f
         else Some (OptHeader.mk (opthdr32_at src p) (Some (datadirs_at src p))))
        (Some (map Some (sects_at src (sect_base src) (Z.to_nat (nsection src)))))
        (File.overlay f) src,
      tr ++ parse_trace src)).
Proof.
  destruct f as [d0 fh0 o0 sh0 ov0 src]. cbn [File.r File.opthdr File.overlay].
  cbv zeta. intros Hlen Hmz Hlen2 Hpe Hfits Hopt.
  destruct (sect_base_range src) as (Hb & Hn & Hr).
  pose proof (peoff_range src) as Hp.
  pose proof (filehdr_ranges src (peoff src)) as [_ Hrange].
  unfold Parse.
  rewrite (bind_eq_ok _ _ _ _ _
             (parseDOSHeader_ok (File.mk d0 fh0 o0 sh0 ov0 src) tr Hlen Hmz)).
  unfold File.set_doshdr.
  cbn [File.r File.doshdr File.fileHdr File.opthdr File.sectHdrs File.overlay].
  rewrite (bind_eq_ok _ _ _ _ _
             (parseFileHeader_ok (File.mk (Some (dos_of src)) fh0 o0 sh0 ov0 src)
                (tr ++ dos_trace src) (dos_of src) eq_refl Hp Hlen2 Hpe)).
  unfold File.set_fileHdr.
  cbn [File.r File.doshdr File.fileHdr File.opthdr File.sectHdrs File.overlay].
  fold (peoff src).
  unfold bind at 1. unfold get_file at 1. cbn [fst].
  unfold bind at 1. unfold deref. cbn [File.fileHdr]. unfold ret at 1.
  unfold parse_trace, hdrs_trace.
  destruct (Z.gtb_spec (FileHeader.OptHdrSize (filehdr_at src (peoff src))) 0)
    as [Hpos|Hzero].
  - destruct (Hopt ltac:(lia)) as [Hdir Hdirfits].
    unfold when.
    rewrite (bind_eq_ok _ _ _ _ _
               (parseOptHeader_ok
                  (File.mk (Some (dos_of src)) (Some (filehdr_at src (peoff src)))
                     o0 sh0 ov0 src)
                  ((tr ++ dos_trace src) ++ filehdr_trace (peoff src))
                  (dos_of src) eq_refl Hp Hdir Hdirfits)).
    unfold File.set_opthdr.
    cbn [File.r File.doshdr File.fileHdr File.opthdr File.sectHdrs File.overlay].
    fold (peoff src).
    match goal with
    | |- context [parseSectHeaders (?f, ?t)] =>
        rewrite (parseSectHeaders_cached f t (dos_of src)
                   (filehdr_at src (peoff src)) eq_refl eq_refl Hr)
    end.
    unfold File.set_sectHdrs.
    cbn [File.r File.doshdr File.fileHdr File.opthdr File.sectHdrs File.overlay].
    fold (peoff src). fold (nsection src). fold (sect_base src).
    rewrite readSectHeaders_all by (try assumption; lia).
    destruct (Z.eqb_spec (FileHeader.OptHdrSize (filehdr_at src (peoff src))) 0);
      [lia|].
    rewrite <- !app_assoc. reflexivity.
  - unfold when, ret at 1. unfold bind at 1.
    match goal with
    | |- context [parseSectHeaders (?f, ?t)] =>
        rewrite (parseSectHeaders_cached f t (dos_of src)
                   (filehdr_at src (peoff src)) eq_refl eq_refl Hr)
    end.
    unfold File.set_sectHdrs.
    cbn [File.r File.doshdr File.fileHdr File.opthdr File.sectHdrs File.overlay].
    fold (peoff src). fold (nsection src). fold (sect_base src).
    rewrite readSectHeaders_all by (try assumption; lia).
    destruct (Z.eqb_spec (FileHeader.OptHdrSize (filehdr_at src (peoff src))) 0);
      [|lia].
    rewrite <- !app_assoc. reflexivity.
Qed.

Lemma Parse_overwrites_caches_witness :
  let stale := File.mk (Some DOSHeader.zero) (Some FileHeader.zero)
                 (Some OptHeader.zero) (Some [None]) (Some [Byte.x01])
                 image_one_section in
  exists f : File.t,
    Parse (stale, []) = (Ok tt, (f, parse_trace image_one_section)) /\
    File.doshdr f = Some (dos_of image_one_section) /\
    File.sectHdrs f =
      Some [Some (SectHeader.mk (repeat Byte.x00 8) 0 0 4 128 0 0 0 0 0)] /\
    File.opthdr f = Some OptHeader.zero /\
    File.overlay f = Some [Byte.x01].
Proof.
  intros stale. eexists. split.
  - rewrite (Parse_overwrites_caches stale []).
    + reflexivity.
    + vm_compute. discriminate.
    + vm_compute. reflexivity.
    + vm_compute. discriminate.
    + vm_compute. reflexivity.
    + vm_compute. discriminate.
    + intros H. exfalso. vm_compute in H. discriminate.
  - cbn [File.doshdr File.sectHdrs File.opthdr File.overlay].
    split; [reflexivity|]. split; [vm_compute; reflexivity|].
    split; vm_compute; reflexivity.
Defined.

(* ===================================================================== *)
(** ** Further properties: nothing is lost from an FPO record *)
(* ===================================================================== *)

(** The five fields cut from the bitfield byte put it together again. *)
Lemma bitfield_recomposed (b : Z) :
  0 <= b < 2 ^ 8 ->
  b = uint8 (Z.land b 0x07)
      + 8 * Z.b2z (negb (Z.land b 0x08 =? 0))
      + 16 * Z.b2z (negb (Z.land b 0x10 =? 0))
      + 32 * uint8 (Z.shiftr (Z.land b 0x20) 5)
      + 64 * uint8 (Z.shiftr (Z.land b 0xC0) 6).
Proof.
  intros Hb.
  assert (Hall : forallb
            (fun n : nat =>
               let b := Z.of_nat n in
               b =? uint8 (Z.land b 0x07)
                    + 8 * Z.b2z (negb (Z.land b 0x08 =? 0))
                    + 16 * Z.b2z (negb (Z.land b 0x10 =? 0))
                    + 32 * uint8 (Z.shiftr (Z.land b 0x20) 5)
                    + 64 * uint8 (Z.shiftr (Z.land b 0xC0) 6))
            (seq 0 256) = true) by (vm_compute; reflexivity).
  rewrite forallb_forall in Hall.
  specialize (Hall (Z.to_nat b)). cbv zeta in Hall.
  rewrite Z2Nat.id in Hall by lia.
  apply Z.eqb_eq, Hall, in_seq. lia.
Qed.

Lemma FPOData_bitfield (raw : FPODataRaw.t) :
  FPODataRaw.wf raw ->
  let fpo := ParseFPOData raw in
  FPODataRaw.Bitfield raw =
    FPOData.Regs fpo + 8 * Z.b2z (FPOData.HasSEH fpo) + 16 * Z.b2z (FPOData.UseBP fpo)
      + 32 * FPOData.Reserved fpo + 64 * FPOData.Frame fpo /\
  4 * FPODataRaw.NLocals raw = FPOData.NLocals fpo /\
  4 * FPODataRaw.Params raw = FPOData.Params fpo.
Proof.
  intros (Hos & Hfs & Hnl & Hpa & Hpr & Hb). cbv zeta. unfold ParseFPOData.
  cbn [FPOData.Regs FPOData.HasSEH FPOData.UseBP FPOData.Reserved FPOData.Frame
         FPOData.NLocals FPOData.Params].
  split; [apply bitfield_recomposed; exact Hb|]. split.
  - unfold uint64. rewrite (Z.mod_small (FPODataRaw.NLocals raw)) by lia.
    rewrite Z.mod_small by lia. lia.
  - unfold uint32. rewrite (Z.mod_small (FPODataRaw.Params raw)) by lia.
    rewrite Z.mod_small by lia. lia.
Qed.

(** X13.  [ParseFPOData] loses nothing: the bitfield byte is
    [Regs + 8*HasSEH + 16*UseBP + 32*Reserved + 64*Frame] of the parsed record
    and the two scaled counts are four times the raw ones without overflow, so
    two raw records that differ in any field are parsed to different
    records. *)
Theorem ParseFPOData_keeps_records_apart (raw1 raw2 : FPODataRaw.t) :
  FPODataRaw.wf raw1 -> FPODataRaw.wf raw2 ->
  raw1 <> raw2 ->
  ParseFPOData raw1 <> ParseFPOData raw2.
Proof.
  intros Hwf1 Hwf2 Hne Heq. apply Hne.
  destruct (FPOData_bitfield raw1 Hwf1) as (Hb1 & Hn1 & Hp1).
  destruct (FPOData_bitfield raw2 Hwf2) as (Hb2 & Hn2 & Hp2).
  cbv zeta in *. rewrite Heq in Hb1, Hn1, Hp1.
  assert (Hos : FPODataRaw.OffsetStart raw1 = FPODataRaw.OffsetStart raw2)
    by exact (f_equal FPOData.OffsetStart Heq).
  assert (Hfs : FPODataRaw.FuncSize raw1 = FPODataRaw.FuncSize raw2)
    by exact (f_equal FPOData.FuncSize Heq).
  assert (Hpr : FPODataRaw.Prolog raw1 = FPODataRaw.Prolog raw2)
    by exact (f_equal FPOData.Prolog Heq).
  destruct raw1, raw2. cbn [FPODataRaw.OffsetStart FPODataRaw.FuncSize
    FPODataRaw.NLocals FPODataRaw.Params FPODataRaw.Prolog FPODataRaw.Bitfield] in *.
  f_equal; lia.
Qed.

Lemma ParseFPOData_keeps_records_apart_witness :
  ParseFPOData (FPODataRaw.mk 0x1000 0x40 3 2 5 0xDD)
    <> ParseFPOData (FPODataRaw.mk 0x1000 0x40 3 2 5 0xFD).
Proof.
  apply ParseFPOData_keeps_records_apart.
  - unfold FPODataRaw.wf. cbn. lia.
  - unfold FPODataRaw.wf. cbn. lia.
  - discriminate.
Defined.

(* ===================================================================== *)
(** ** Further properties: what a section-flags word renders to *)
(* ===================================================================== *)

(** The alignment value of a word is one of sixteen. *)
Lemma align_nibble (flags : Z) :
  exists a : Z, 0 <= a <= 15 /\ Z.land flags align_bits = a * 2 ^ 20.
Proof.
  exists (Z.land (Z.shiftr flags 20) (Z.ones 4)). split.
  - rewrite Z.land_ones by lia.
    pose proof (Z.mod_pos_bound (Z.shiftr flags 20) (2 ^ 4) ltac:(lia)). lia.
  - rewrite <- Z.shiftl_mul_pow2 by lia.
    change align_bits with (Z.shiftl (Z.ones 4) 20).
    apply Z.bits_inj'. intros n Hn.
    destruct (Z.ltb_spec n 20) as [Hlt|Hge].
    + rewrite Z.land_spec, !Z.shiftl_spec_low by lia. apply andb_false_r.
    + rewrite Z.land_spec, !Z.shiftl_spec, Z.land_spec, Z.shiftr_spec by lia.
      replace (n - 20 + 20) with n by lia. reflexivity.
Qed.

(** What the alignment value renders to: nothing for 0 and for 15, and the
    power of two of the table for 1 to 14. *)
Lemma align_entry_cases (flags a : Z) :
  0 <= a <= 15 -> Z.land flags align_bits = a * 2 ^ 20 ->
  align_entry flags =
    if (1 <=? a) && (a <=? 14) then [("align " ++ fmt_d (2 ^ (a - 1)))%string] else [].
Proof.
  intros Ha Hland. unfold align_entry. cbv zeta. rewrite Hland.
  assert (Hcases : a = 0 \/ a = 1 \/ a = 2 \/ a = 3 \/ a = 4 \/ a = 5 \/ a = 6 \/
                   a = 7 \/ a = 8 \/ a = 9 \/ a = 10 \/ a = 11 \/ a = 12 \/
                   a = 13 \/ a = 14 \/ a = 15) by lia.
  repeat (destruct Hcases as [->|Hcases]; [reflexivity|]).
  subst a. reflexivity.
Qed.

(** Every text a word renders to is the text of a set bit outside bits 20-23,
    or the alignment text of a value from 1 to 14. *)
Lemma parts_texts_sound (flags : Z) (s : string) :
  0 <= flags < 2 ^ 32 ->
  In s (SectFlag.parts flags) ->
    (exists i : Z, 0 <= i < 32 /\ ~ 20 <= i <= 23 /\ Z.testbit flags i = true /\
                   s = flag_text (2 ^ i)) \/
    (exists a : Z, 1 <= a <= 14 /\ Z.land flags align_bits = a * 2 ^ 20 /\
                   s = ("align " ++ fmt_d (2 ^ (a - 1)))%string).
Proof.
  intros Hf. rewrite (parts_closed flags Hf).
  destruct (align_nibble flags) as (a & Ha & Hland).
  rewrite (align_entry_cases flags a Ha Hland).
  destruct idx32_spec as [_ Hrange].
  intros Hin. apply in_app_or in Hin as [Hin|Hin].
  - left. apply in_flat_map in Hin as (i & Hi & Hin).
    apply Hrange in Hi. exists i. split; [exact Hi|].
    unfold bit_entry in Hin. rewrite is_align_mask_bit in Hin by exact Hi.
    rewrite (bit_pow2 i Hi) in Hin.
    destruct (Z.leb_spec 20 i), (Z.leb_spec i 23), (Z.testbit flags i);
      cbn [negb andb In] in Hin; try contradiction;
      (destruct Hin as [<-|[]]; split; [lia|split; reflexivity]).
  - right. exists a.
    destruct (Z.leb_spec 1 a), (Z.leb_spec a 14); cbn [andb In] in Hin;
      try contradiction.
    destruct Hin as [<-|[]]. split; [lia|]. split; [exact Hland|reflexivity].
Qed.

(** A set bit outside bits 20-23 is rendered. *)
Lemma parts_has_bit_text (flags i : Z) :
  0 <= flags < 2 ^ 32 -> 0 <= i < 32 -> ~ 20 <= i <= 23 ->
  Z.testbit flags i = true ->
  In (flag_text (2 ^ i)) (SectFlag.parts flags).
Proof.
  intros Hf Hi Hout Hbit. rewrite (parts_closed flags Hf).
  apply in_or_app. left. apply in_flat_map. exists i.
  split; [apply In_idx32; exact Hi|].
  unfold bit_entry. rewrite is_align_mask_bit, Hbit by exact Hi.
  destruct (Z.leb_spec 20 i), (Z.leb_spec i 23); cbn [negb andb]; try lia;
    rewrite (bit_pow2 i Hi); left; reflexivity.
Qed.

(** An alignment value from 1 to 14 is rendered. *)
Lemma parts_has_align_text (flags a : Z) :
  0 <= flags < 2 ^ 32 -> 1 <= a <= 14 ->
  Z.land flags align_bits = a * 2 ^ 20 ->
  In ("align " ++ fmt_d (2 ^ (a - 1)))%string (SectFlag.parts flags).
Proof.
  intros Hf Ha Hland. rewrite (parts_closed flags Hf).
  apply in_or_app. right.
  rewrite (align_entry_cases flags a ltac:(lia) Hland).
  destruct (Z.leb_spec 1 a), (Z.leb_spec a 14); try lia.
  left. reflexivity.
Qed.

(** The alignment value of a word, as a number. *)
Lemma land_align_bits (flags : Z) :
  Z.land flags align_bits = (flags / 2 ^ 20) mod 16 * 2 ^ 20.
Proof.
  change 16 with (2 ^ 4).
  rewrite <- Z.shiftr_div_pow2, <- Z.land_ones, <- Z.shiftl_mul_pow2 by lia.
  change align_bits with (Z.shiftl (Z.ones 4) 20).
  apply Z.bits_inj'. intros n Hn.
  destruct (Z.ltb_spec n 20) as [Hlt|Hge].
  - rewrite Z.land_spec, !Z.shiftl_spec_low by lia. apply andb_false_r.
  - rewrite Z.land_spec, !Z.shiftl_spec, Z.land_spec, Z.shiftr_spec by lia.
    replace (n - 20 + 20) with n by lia. reflexivity.
Qed.

(** The loop collects the texts of the set bits outside the alignment value,
    in the order of the bits. *)
Lemma bit_entries_filter (flags : Z) (idxs : list Z) :
  (forall i, In i idxs -> 0 <= i < 32) ->
  flat_map (bit_entry flags) idxs =
    map (fun i => flag_text (2 ^ i))
        (filter (fun i => Z.testbit flags i && outside_align i) idxs).
Proof.
  induction idxs as [|i idxs IH]; intros Hrange; cbn [flat_map filter map];
    [reflexivity|].
  assert (Hi : 0 <= i < 32) by (apply Hrange; left; reflexivity).
  rewrite IH by (intros j Hj; apply Hrange; right; exact Hj).
  unfold bit_entry, outside_align.
  rewrite is_align_mask_bit, (bit_pow2 i Hi) by exact Hi.
  destruct (Z.testbit flags i), (negb ((20 <=? i) && (i <=? 23))); reflexivity.
Qed.

(** X14.  For every 32-bit section-flags word, the list of texts that
    [String] joins is exactly this, in this order: one text for each set bit
    outside bits 20-23, lowest bit first (its name, or the unknown-flag
    marker), and then one text "align N" when the value [a] of bits 20-23 is
    between 1 and 14, with [N = 2^(a-1)].  Nothing else is rendered; in
    particular the "unknown align flag" branch is never taken, because after
    the loop only bits 20-23 are left and each value the range test lets
    through is a case of the switch. *)
Theorem SectFlag_String_renders_exactly (flags : Z) :
  0 <= flags < 2 ^ 32 ->
  SectFlag.parts flags = sect_flag_texts flags /\
  SectFlag.String flags =
    (if (List.length (sect_flag_texts flags) =? 0)%nat then "none"%string
     else Join (sect_flag_texts flags) "|").
Proof.
  intros Hf.
  assert (Hparts : SectFlag.parts flags = sect_flag_texts flags).
  { rewrite (parts_closed flags Hf). unfold sect_flag_texts. cbv zeta.
    destruct idx32_spec as [_ Hrange].
    rewrite (bit_entries_filter flags idx32 Hrange). f_equal.
    apply align_entry_cases; [|apply land_align_bits].
    pose proof (Z.mod_pos_bound (flags / 2 ^ 20) 16 ltac:(lia)). lia. }
  split; [exact Hparts|].
  unfold SectFlag.String. rewrite Hparts. reflexivity.
Qed.

Lemma SectFlag_String_renders_exactly_witness :
  SectFlag.parts 0x60500020 = ["code"; "mem exec"; "mem read"; "align 16"]%string /\
  SectFlag.String 0x60500020 = "code|mem exec|mem read|align 16"%string.
Proof.
  destruct (SectFlag_String_renders_exactly 0x60500020 ltac:(lia)) as [Hparts Hstring].
  split.
  - rewrite Hparts. vm_compute. reflexivity.
  - rewrite Hstring. vm_compute. reflexivity.
Defined.

Lemma prefix_app (s x : string) : String.prefix s (s ++ x) = true.
Proof.
  induction s as [|c s IH]; cbn [String.prefix String.append].
  - destruct x; reflexivity.
  - destruct (ascii_dec c c) as [_|Hne]; [exact IH|contradiction].
Qed.

Lemma Join_head (s sep : string) (rest : list string) :
  exists x : string, Join (s :: rest) sep = (s ++ x)%string.
Proof.
  unfold Join. destruct rest as [|s' rest]; cbn [String.concat].
  - exists EmptyString. clear. induction s as [|c s IH]; cbn; [reflexivity|].
    rewrite <- IH. reflexivity.
  - eexists. reflexivity.
Qed.

(** No text of a bit and no alignment text is a prefix of "none". *)
Lemma parts_not_prefix_none (flags : Z) (s : string) :
  0 <= flags < 2 ^ 32 -> In s (SectFlag.parts flags) ->
  String.prefix s "none" = false.
Proof.
  intros Hf Hin. apply (parts_texts_sound flags s Hf) in Hin.
  destruct Hin as [(i & Hi & _ & _ & ->)|(a & Ha & _ & ->)].
  - assert (Hall : forallb (fun i => negb (String.prefix (flag_text (2 ^ i)) "none"))
                     idx32 = true) by (vm_compute; reflexivity).
    pose proof (proj1 (forallb_forall _ _) Hall i (In_idx32 i Hi)) as Hone.
    cbv beta in Hone. apply negb_true_iff in Hone. exact Hone.
  - assert (Hall : forallb
                     (fun n => negb (String.prefix
                                       ("align " ++ fmt_d (2 ^ (Z.of_nat n - 1))) "none"))
                     (seq 1 14) = true) by (vm_compute; reflexivity).
    pose proof (proj1 (forallb_forall _ _) Hall (Z.to_nat a)
                  ltac:(apply in_seq; lia)) as Hone.
    cbv beta in Hone. rewrite Z2Nat.id in Hone by lia.
    apply negb_true_iff in Hone. exact Hone.
Qed.

(** X15.  [String] returns "none" for exactly two 32-bit words: [0], and
    [0x00F00000], whose four alignment bits are set and dropped.  Every other
    word renders to a text that differs from "none". *)
Theorem SectFlag_String_none_iff (flags : Z) :
  0 <= flags < 2 ^ 32 ->
  SectFlag.String flags = "none"%string <-> flags = 0 \/ flags = 0x00F00000.
Proof.
  intros Hf. split.
  - unfold SectFlag.String. cbv zeta.
    destruct (SectFlag.parts flags) as [|s rest] eqn:Hparts.
    + intros _.
      assert (Hnone : forall s, ~ In s (SectFlag.parts flags))
        by (rewrite Hparts; intros s []).
      destruct (align_nibble flags) as (a & Ha & Hland).
      assert (Hout : forall i, 0 <= i < 32 -> ~ 20 <= i <= 23 ->
                               Z.testbit flags i = false).
      { intros i Hi Hni. destruct (Z.testbit flags i) eqn:Hbit; [|reflexivity].
        exfalso. apply (Hnone (flag_text (2 ^ i))).
        apply parts_has_bit_text; assumption. }
      assert (Ha' : a = 0 \/ a = 15).
      { destruct (Z.eq_dec a 0); [left; assumption|].
        destruct (Z.eq_dec a 15); [right; assumption|].
        exfalso. apply (Hnone ("align " ++ fmt_d (2 ^ (a - 1)))%string).
        apply parts_has_align_text; [exact Hf|lia|exact Hland]. }
      assert (Hflags : flags = Z.land flags align_bits).
      { apply Z.bits_inj'. intros n Hn. rewrite Z.land_spec.
        destruct (Z.ltb_spec n 32) as [Hlt|Hge].
        - rewrite testbit_align_bits by lia.
          destruct (Z.leb_spec 20 n), (Z.leb_spec n 23); cbn [andb];
            rewrite ?andb_true_r, ?andb_false_r; try reflexivity;
            apply Hout; lia.
        - assert (Hhigh : Z.testbit flags n = false).
          { rewrite <- (Z.mod_small flags (2 ^ 32)) by exact Hf.
            rewrite <- Z.land_ones, Z.land_spec, Z.ones_spec_high by lia.
            apply andb_false_r. }
          rewrite Hhigh. reflexivity. }
      rewrite Hflags, Hland. destruct Ha' as [->| ->]; [left|right]; reflexivity.
    + cbn [List.length Nat.eqb]. intros Hjoin.
      destruct (Join_head s "|" rest) as [x Hx]. rewrite Hjoin in Hx.
      pose proof (prefix_app s x) as Hpre. rewrite <- Hx in Hpre.
      rewrite (parts_not_prefix_none flags s Hf) in Hpre; [discriminate|].
      rewrite Hparts. left. reflexivity.
  - intros [-> | ->]; vm_compute; reflexivity.
Qed.

Lemma SectFlag_String_none_iff_witness :
  SectFlag.String 0x00F00000 = "none"%string /\
  SectFlag.String 0x00E00000 <> "none"%string.
Proof.
  split.
  - apply (proj2 (SectFlag_String_none_iff 0x00F00000 ltac:(lia))). right. reflexivity.
  - intros H.
    apply (proj1 (SectFlag_String_none_iff 0x00E00000 ltac:(lia))) in H.
    destruct H as [H|H]; discriminate H.
Defined.

(* ===================================================================== *)
(** ** Further properties: the 16-bit flag words *)
(* ===================================================================== *)

Lemma idx16_spec : NoDup idx16 /\ (forall i, In i idx16 <-> 0 <= i < 16).
Proof.
  split.
  - unfold idx16. apply Finite.Injective_map_NoDup; [|apply seq_NoDup].
    intros x y. apply Nat2Z.inj.
  - unfold idx16. intros i. rewrite in_map_iff. split.
    + intros (n & <- & Hn). apply in_seq in Hn. lia.
    + intros Hi. exists (Z.to_nat i). split; [lia|]. apply in_seq. lia.
Qed.

Lemma bit16_pow2 (i : Z) : 0 <= i < 16 -> uint16 (Z.shiftl 1 i) = 2 ^ i.
Proof.
  intros Hi. unfold uint16. rewrite Z.shiftl_1_l. apply Z.mod_small.
  split; [apply Z.pow_nonneg; lia|apply Z.pow_lt_mono_r; lia].
Qed.

Lemma testbit_high16 (flags n : Z) :
  0 <= flags < 2 ^ 16 -> 16 <= n -> Z.testbit flags n = false.
Proof.
  intros Hf Hn. rewrite <- (Z.mod_small flags (2 ^ 16)) by exact Hf.
  rewrite <- Z.land_ones, Z.land_spec, Z.ones_spec_high by lia.
  apply andb_false_r.
Qed.

Section Bits16.
Variable names : list (Z * string).

(** The loop over distinct bit positions collects the texts of the set bits. *)
Lemma fold_step16 (idxs : list Z) :
  NoDup idxs -> (forall i, In i idxs -> 0 <= i < 16) ->
  forall (flags : Z) (ss : list string),
  snd (fold_left (step16 names) idxs (flags, ss)) =
    ss ++ map (fun i => bit_text names (2 ^ i)) (filter (Z.testbit flags) idxs).
Proof.
  induction idxs as [|i idxs IH]; intros Hnd Hrange flags ss;
    cbn [fold_left filter map].
  - cbn [snd]. rewrite app_nil_r. reflexivity.
  - assert (Hi : 0 <= i < 16) by (apply Hrange; left; reflexivity).
    inversion Hnd as [|? ? Hnotin Hnd']; subst.
    assert (Hrange' : forall j, In j idxs -> 0 <= j < 16)
      by (intros j Hj; apply Hrange; right; exact Hj).
    unfold step16 at 2. rewrite (bit16_pow2 i Hi), land_bit_nonzero by lia.
    destruct (Z.testbit flags i) eqn:Hbit.
    + rewrite IH by assumption. cbn [map]. rewrite <- app_assoc. cbn [app].
      do 3 f_equal. apply filter_ext_in. intros j Hj.
      rewrite Z.ldiff_spec, Z.pow2_bits_eqb by lia.
      destruct (Z.eqb_spec i j) as [->|Hne]; [contradiction|].
      apply andb_true_r.
    + apply IH; assumption.
Qed.

Lemma parts16_closed (flags : Z) :
  snd (fold_left (step16 names) idx16 (flags, [])) = set_bit_texts names flags.
Proof.
  destruct idx16_spec as [Hnd Hrange].
  rewrite fold_step16; [reflexivity|exact Hnd|apply Hrange].
Qed.

(** A word none of whose sixteen bits is set is zero. *)
Lemma set_bit_texts_nil (flags : Z) :
  0 <= flags < 2 ^ 16 -> set_bit_texts names flags = [] -> flags = 0.
Proof.
  intros Hf Hnil. unfold set_bit_texts in Hnil. apply map_eq_nil in Hnil.
  apply Z.bits_inj'. intros n Hn. rewrite Z.bits_0.
  destruct (Z.ltb_spec n 16) as [Hlt|Hge]; [|apply testbit_high16; assumption].
  destruct (Z.testbit flags n) eqn:Hbit; [|reflexivity].
  assert (Hin : In n (filter (Z.testbit flags) idx16)).
  { apply filter_In. split; [apply idx16_spec; lia|exact Hbit]. }
  rewrite Hnil in Hin. contradiction.
Qed.

Hypothesis names_not_none :
  forallb (fun i => negb (String.prefix (bit_text names (2 ^ i)) "none")) idx16 = true.

(** The rendering of a word is "none" only for the word zero. *)
Lemma render16_none (flags : Z) :
  0 <= flags < 2 ^ 16 ->
  (let ss := set_bit_texts names flags in
   if (List.length ss =? 0)%nat then "none"%string else Join ss "|") = "none"%string ->
  flags = 0.
Proof.
  intros Hf. cbv zeta.
  destruct (set_bit_texts names flags) as [|s rest] eqn:Hparts.
  - intros _. apply set_bit_texts_nil; assumption.
  - cbn [List.length Nat.eqb]. intros Hjoin. exfalso.
    destruct (Join_head s "|" rest) as [x Hx]. rewrite Hjoin in Hx.
    pose proof (prefix_app s x) as Hpre. rewrite <- Hx in Hpre.
    assert (Hin : In s (set_bit_texts names flags))
      by (rewrite Hparts; left; reflexivity).
    unfold set_bit_texts in Hin. apply in_map_iff in Hin as (i & <- & Hi).
    apply filter_In in Hi as [Hi _].
    pose proof (proj1 (forallb_forall _ _) names_not_none i Hi) as Hone.
    cbv beta in Hone. rewrite Hpre in Hone. discriminate.
Qed.
End Bits16.

(** X16.  For every 16-bit word, [Flag.String] collects one text for each set
    bit, lowest bit first, and nothing else: the name of the bit, or the
    unknown-flag marker for the bits without a name, which are bits 4, 6, 14
    and 15.  The result is "none" exactly for the word zero. *)
Theorem Flag_String_renders_set_bits (flags : Z) :
  0 <= flags < 2 ^ 16 ->
  Flag.parts flags = set_bit_texts Flag.flagName flags /\
  (Flag.String flags = "none"%string <-> flags = 0) /\
  (forall i : Z, 0 <= i < 16 ->
     (map_get Flag.flagName (2 ^ i) = None <-> i = 4 \/ i = 6 \/ i = 14 \/ i = 15)).
Proof.
  intros Hf.
  assert (Hparts : Flag.parts flags = set_bit_texts Flag.flagName flags)
    by apply (parts16_closed Flag.flagName flags).
  split; [exact Hparts|]. split.
  - split.
    + unfold Flag.String. rewrite Hparts.
      apply (render16_none Flag.flagName); [vm_compute; reflexivity|exact Hf].
    + intros ->. vm_compute. reflexivity.
  - intros i Hi.
    assert (Hcases : i = 0 \/ i = 1 \/ i = 2 \/ i = 3 \/ i = 4 \/ i = 5 \/ i = 6 \/
                     i = 7 \/ i = 8 \/ i = 9 \/ i = 10 \/ i = 11 \/ i = 12 \/
                     i = 13 \/ i = 14 \/ i = 15) by lia.
    repeat (destruct Hcases as [->|Hcases];
            [split; intros H;
               [vm_compute in H; try discriminate H; lia
               |first [lia|vm_compute; reflexivity]]|]).
    subst i. split; intros H;
      [vm_compute in H; try discriminate H; lia
      |first [lia|vm_compute; reflexivity]].
Qed.

Lemma Flag_String_renders_set_bits_witness :
  Flag.String 0x2102 = "executable|no debug|uniprocessor"%string /\
  Flag.parts 0x4010 = ["unknown flag: 0x0010"; "unknown flag: 0x4000"]%string.
Proof.
  split.
  - unfold Flag.String.
    rewrite (proj1 (Flag_String_renders_set_bits 0x2102 ltac:(lia))).
    vm_compute. reflexivity.
  - rewrite (proj1 (Flag_String_renders_set_bits 0x4010 ltac:(lia))).
    vm_compute. reflexivity.
Defined.

(** X17.  For every 16-bit word, [DLLFlag.String] collects one text for each
    set bit, lowest bit first, and nothing else: the name of the bit, or the
    unknown-flag marker for the bits without a name, which are bits 0 to 5, 12
    and 14.  The result is "none" exactly for the word zero. *)
Theorem DLLFlag_String_renders_set_bits (flags : Z) :
  0 <= flags < 2 ^ 16 ->
  DLLFlag.parts flags = set_bit_texts DLLFlag.dllFlagName flags /\
  (DLLFlag.String flags = "none"%string <-> flags = 0) /\
  (forall i : Z, 0 <= i < 16 ->
     (map_get DLLFlag.dllFlagName (2 ^ i) = None <->
      0 <= i <= 5 \/ i = 12 \/ i = 14)).
Proof.
  intros Hf.
  assert (Hparts : DLLFlag.parts flags = set_bit_texts DLLFlag.dllFlagName flags)
    by apply (parts16_closed DLLFlag.dllFlagName flags).
  split; [exact Hparts|]. split.
  - split.
    + unfold DLLFlag.String. rewrite Hparts.
      apply (render16_none DLLFlag.dllFlagName); [vm_compute; reflexivity|exact Hf].
    + intros ->. vm_compute. reflexivity.
  - intros i Hi.
    assert (Hcases : i = 0 \/ i = 1 \/ i = 2 \/ i = 3 \/ i = 4 \/ i = 5 \/ i = 6 \/
                     i = 7 \/ i = 8 \/ i = 9 \/ i = 10 \/ i = 11 \/ i = 12 \/
                     i = 13 \/ i = 14 \/ i = 15) by lia.
    repeat (destruct Hcases as [->|Hcases];
            [split; intros H;
               [vm_compute in H; try discriminate H; lia
               |first [lia|vm_compute; reflexivity]]|]).
    subst i. split; intros H;
      [vm_compute in H; try discriminate H; lia
      |first [lia|vm_compute; reflexivity]].
Qed.

Lemma DLLFlag_String_renders_set_bits_witness :
  DLLFlag.String 0x8140 = "dynamic base|can DEP|can RDS"%string /\
  DLLFlag.parts 0x1001 = ["unknown flag: 0x0001"; "unknown flag: 0x1000"]%string.
Proof.
  split.
  - unfold DLLFlag.String.
    rewrite (proj1 (DLLFlag_String_renders_set_bits 0x8140 ltac:(lia))).
    vm_compute. reflexivity.
  - rewrite (proj1 (DLLFlag_String_renders_set_bits 0x1001 ltac:(lia))).
    vm_compute. reflexivity.
Defined.

(* ===================================================================== *)
(** ** Further properties: the names of architectures, states and subsystems *)
(* ===================================================================== *)

Lemma append_inj_l (p x y : string) : (p ++ x = p ++ y)%string -> x = y.
Proof.
  induction p as [|c p IH]; cbn [String.append]; intros H; [exact H|].
  injection H as H. apply IH. exact H.
Qed.

Lemma append_last_inj (s1 s2 : string) (c1 c2 : ascii) :
  (s1 ++ String c1 EmptyString = s2 ++ String c2 EmptyString)%string ->
  s1 = s2 /\ c1 = c2.
Proof.
  revert s2. induction s1 as [|a s1 IH]; intros [|b s2]; cbn [String.append]; intros H.
  - injection H as ->. split; reflexivity.
  - injection H as _ H. destruct s2; discriminate H.
  - injection H as _ H. destruct s1; discriminate H.
  - injection H as -> H. destruct (IH s2 H) as [-> ->]. split; reflexivity.
Qed.

Lemma hexdigit_inj (d e : Z) :
  0 <= d < 16 -> 0 <= e < 16 -> hexdigit d = hexdigit e -> d = e.
Proof.
  intros Hd He H. apply (f_equal nat_of_ascii) in H. unfold hexdigit in H.
  destruct (Z.ltb_spec d 10), (Z.ltb_spec e 10);
    rewrite !nat_ascii_embedding in H by lia; lia.
Qed.

(** Distinct values below [16^n] have distinct [n]-digit renderings. *)
Lemma hexdigits_inj (n : nat) : forall z w : Z,
  0 <= z < 16 ^ Z.of_nat n -> 0 <= w < 16 ^ Z.of_nat n ->
  hexdigits n z = hexdigits n w -> z = w.
Proof.
  induction n as [|n IH]; intros z w Hz Hw H.
  - change (16 ^ Z.of_nat 0) with 1 in *. lia.
  - cbn [hexdigits] in H. apply append_last_inj in H as [Hhigh Hlow].
    rewrite Nat2Z.inj_succ, Z.pow_succ_r in Hz, Hw by lia.
    apply hexdigit_inj in Hlow; try (apply Z.mod_pos_bound; lia).
    apply IH in Hhigh.
    + rewrite (Z.div_mod z 16), (Z.div_mod w 16) by lia. lia.
    + split; [apply Z.div_pos; lia|apply Z.div_lt_upper_bound; lia].
    + split; [apply Z.div_pos; lia|apply Z.div_lt_upper_bound; lia].
Qed.

Lemma map_get_In (m : list (Z * string)) (k : Z) (s : string) :
  map_get m k = Some s -> In (k, s) m.
Proof.
  induction m as [|[k' s'] m IH]; cbn [map_get]; [discriminate|].
  destruct (Z.eqb_spec k' k) as [->|Hne].
  - intros H. injection H as ->. left. reflexivity.
  - intros H. right. apply IH. exact H.
Qed.

Lemma NoDup_snd_key (m : list (Z * string)) (k1 k2 : Z) (s : string) :
  NoDup (map snd m) -> In (k1, s) m -> In (k2, s) m -> k1 = k2.
Proof.
  induction m as [|[k' s'] m IH]; cbn [map snd In]; [intros _ []|].
  intros Hnd H1 H2. inversion Hnd as [|? ? Hnotin Hnd']; subst.
  destruct H1 as [H1|H1], H2 as [H2|H2].
  - congruence.
  - injection H1 as -> ->. exfalso. apply Hnotin.
    apply in_map_iff. exists (k2, s). split; [reflexivity|exact H2].
  - injection H2 as -> ->. exfalso. apply Hnotin.
    apply in_map_iff. exists (k1, s). split; [reflexivity|exact H1].
  - apply IH; assumption.
Qed.

Section Codes.
Variables (names : list (Z * string)) (marker : string).
Hypothesis names_distinct : NoDup (map snd names).
Hypothesis names_unmarked :
  forallb (fun e => negb (String.prefix marker (snd e))) names = true.

Lemma code_text_inj (v w : Z) :
  0 <= v < 2 ^ 16 -> 0 <= w < 2 ^ 16 ->
  code_text names marker v = code_text names marker w -> v = w.
Proof.
  intros Hv Hw. unfold code_text, fmt_0x04X, uint16.
  rewrite (Z.mod_small v), (Z.mod_small w) by assumption.
  destruct (map_get names v) as [s|] eqn:Ev, (map_get names w) as [s'|] eqn:Ew.
  - intros ->. apply map_get_In in Ev, Ew.
    exact (NoDup_snd_key names v w s' names_distinct Ev Ew).
  - intros ->. exfalso. apply map_get_In in Ev.
    pose proof (proj1 (forallb_forall _ _) names_unmarked _ Ev) as Hone.
    cbn [snd] in Hone. rewrite prefix_app in Hone. discriminate.
  - intros <-. exfalso. apply map_get_In in Ew.
    pose proof (proj1 (forallb_forall _ _) names_unmarked _ Ew) as Hone.
    cbn [snd] in Hone. rewrite prefix_app in Hone. discriminate.
  - intros H. apply append_inj_l, append_inj_l in H.
    apply (hexdigits_inj 4); assumption.
Qed.
End Codes.

(** X18.  The renderings of architectures, image states and subsystems are
    unambiguous: two different 16-bit values never render to the same text,
    whether each has a name or falls to the "unknown ...: 0x%04X" marker; in
    particular the subsystem [0], whose name is "unknown", is told apart from
    every value without a name. *)
Theorem code_names_unambiguous (v w : Z) :
  0 <= v < 2 ^ 16 -> 0 <= w < 2 ^ 16 -> v <> w ->
  Arch.String v <> Arch.String w /\
  OptState.String v <> OptState.String w /\
  Subsystem.String v <> Subsystem.String w.
Proof.
  intros Hv Hw Hne.
  split; [|split]; intros H; apply Hne.
  - apply (code_text_inj Arch.archName "unknown arch: "); try assumption.
    + repeat constructor; cbn; intuition discriminate.
    + vm_compute. reflexivity.
  - apply (code_text_inj OptState.optStateName "unknown state: "); try assumption.
    + repeat constructor; cbn; intuition discriminate.
    + vm_compute. reflexivity.
  - apply (code_text_inj Subsystem.subsystemName "unknown subsystem: ");
      try assumption.
    + repeat constructor; cbn; intuition discriminate.
    + vm_compute. reflexivity.
Qed.

Lemma code_names_unambiguous_witness :
  Subsystem.String 0 = "unknown"%string /\
  Subsystem.String 4 = "unknown subsystem: 0x0004"%string /\
  Subsystem.String 0 <> Subsystem.String 4 /\
  Arch.String 0x014C <> Arch.String 0x014D.
Proof.
  split; [vm_compute; reflexivity|]. split; [vm_compute; reflexivity|].
  split.
  - apply (code_names_unambiguous 0 4); lia.
  - apply (code_names_unambiguous 0x014C 0x014D); lia.
Defined.

(* ===================================================================== *)
(** ** Further properties: a source that ends inside the optional header *)
(* ===================================================================== *)

(** X19.  When the two headers of a fresh file parse and the source ends
    before the 96 bytes of the optional header are complete, [OptHeader] fails
    with "unable to read optional header", and so does [Parse] when the file
    header declares [OptHdrSize > 0]: [Parse] then returns before the section
    headers, which stay nil.  The zero-valued optional header stored before
    the read stays cached, so the next call of [OptHeader] returns it with a
    nil error and without reading. *)
Theorem Parse_stops_at_truncated_optional_header
    (src : list byte) (fh : FileHeader.t) (st1 : state) :
  run FileHeader (File.New src) = (Ok (Some fh), st1) ->
  Zlen src < peoff src + fileHdrSize + OptHeader32.size ->
  exists e : ioerr,
    let st2 := (File.set_opthdr (Some OptHeader.zero) (fst st1),
                snd st1 ++ [EvRead (peoff src + fileHdrSize) OptHeader32.size]) in
    OptHeader st1 = (Err (ErrOptHeaderRead e), st2) /\
    (0 < FileHeader.OptHdrSize fh ->
     run Parse (File.New src) = (Err (ErrOptHeaderRead e), st2)) /\
    File.sectHdrs (fst st2) = None /\
    OptHeader st2 = (Ok (Some OptHeader.zero), st2).
Proof.
  intros Hfh Hshort.
  destruct (FileHeader_New_inv src fh st1 Hfh) as (Hlen & Hmz & Hlen2 & Hpe & -> & ->).
  pose proof (peoff_range src) as Hp.
  destruct (parseOptHeader_truncated (file_hdrs src) (hdrs_trace src) (dos_of src)
              eq_refl Hp Hshort) as [e Hfail].
  cbn [file_hdrs file_dos File.set_fileHdr File.set_doshdr File.New File.r] in Hfail.
  fold (File.New src) in Hfail. fold (file_dos src) in Hfail.
  fold (peoff src) in Hfail. fold (file_hdrs src) in Hfail.
  exists e. cbv zeta. cbn [fst snd]. split; [|split; [|split]].
  - apply OptHeader_fails; [reflexivity|exact Hfail].
  - intros Hpos. unfold run, Parse.
    rewrite (bind_eq_ok _ _ _ _ _ (parseDOSHeader_ok (File.New src) [] Hlen Hmz)).
    cbn [File.New File.r app]. fold (File.New src). fold (file_dos src).
    rewrite (bind_eq_ok _ _ _ _ _
               (parseFileHeader_ok (file_dos src) (dos_trace src) (dos_of src) eq_refl
                  Hp Hlen2 Hpe)).
    cbn [file_dos File.set_doshdr File.New File.r]. fold (File.New src).
    fold (file_dos src). fold (peoff src). fold (file_hdrs src).
    change (dos_trace src ++ filehdr_trace (peoff src)) with (hdrs_trace src).
    unfold bind at 1. unfold get_file at 1. cbn [fst].
    unfold bind at 1. unfold deref. cbn [file_hdrs File.set_fileHdr File.fileHdr].
    unfold ret at 1. fold (file_hdrs src).
    destruct (Z.gtb_spec (FileHeader.OptHdrSize (filehdr_at src (peoff src))) 0);
      [|lia].
    unfold when. apply bind_eq_err. exact Hfail.
  - reflexivity.
  - unfold OptHeader. munfold. reflexivity.
Qed.

Lemma Parse_stops_at_truncated_optional_header_witness :
  let src := dos_image 64 ++ file_header_image 0 224 ++ zeros 10 in
  exists (e : ioerr) (st2 : state),
    run Parse (File.New src) = (Err (ErrOptHeaderRead e), st2) /\
    File.sectHdrs (fst st2) = None /\
    OptHeader st2 = (Ok (Some OptHeader.zero), st2).
Proof.
  intros src.
  assert (Hfh : run FileHeader (File.New src) =
                (Ok (Some (filehdr_at src 64)), snd (run FileHeader (File.New src))))
    by (vm_compute; reflexivity).
  destruct (Parse_stops_at_truncated_optional_header src _ _ Hfh)
    as (e & _ & Hparse & Hnil & Hagain).
  - vm_compute. reflexivity.
  - exists e. eexists. split; [apply Hparse; vm_compute; reflexivity|].
    split; [exact Hnil|exact Hagain].
Defined.

(* ===================================================================== *)
(** ** Further properties: what each method leaves alone *)
(* ===================================================================== *)

Section Frame.
Variable R : state -> state -> Prop.
Hypothesis R_refl : forall st, R st st.
Hypothesis R_trans : forall st1 st2 st3, R st1 st2 -> R st2 st3 -> R st1 st3.
Hypothesis R_emit : forall f tr e, R (f, tr) (f, tr ++ [e]).

Lemma respects_ret {A} (a : A) : respects R (ret a).
Proof. intros st. apply R_refl. Qed.

Lemma respects_fail {A} (e : error) : respects R (@fail A e).
Proof. intros st. apply R_refl. Qed.

Lemma respects_panic {A} (p : panic_reason) : respects R (@panic A p).
Proof. intros st. apply R_refl. Qed.

Lemma respects_out_of_fuel {A} : respects R (@out_of_fuel A).
Proof. intros st. apply R_refl. Qed.

Lemma respects_get_file : respects R get_file.
Proof. intros st. apply R_refl. Qed.

Lemma respects_emit (e : event) : respects R (emit e).
Proof. intros [f tr]. apply R_emit. Qed.

Lemma respects_modify_file (g : File.t -> File.t) :
  (forall f tr, R (f, tr) (g f, tr)) -> respects R (modify_file g).
Proof. intros Hg [f tr]. apply Hg. Qed.

Lemma respects_bind {A B} (c : M A) (k : A -> M B) :
  respects R c -> (forall a, respects R (k a)) -> respects R (bind c k).
Proof.
  intros Hc Hk st. unfold bind. specialize (Hc st).
  destruct (c st) as [[a|e|p|] st']; cbn [fst snd] in *; try exact Hc.
  eapply R_trans; [exact Hc|apply Hk].
Qed.

Lemma respects_map_err {A} (wrap : error -> error) (c : M A) :
  respects R c -> respects R (map_err wrap c).
Proof.
  intros Hc st. unfold map_err. specialize (Hc st).
  destruct (c st) as [[a|e|p|] st']; exact Hc.
Qed.

Ltac respects_step :=
  match goal with
  | |- respects _ (bind _ _) => apply respects_bind; [|intros]
  | |- respects _ (ret _) => apply respects_ret
  | |- respects _ (fail _) => apply respects_fail
  | |- respects _ (panic _) => apply respects_panic
  | |- respects _ get_file => apply respects_get_file
  | |- respects _ (emit _) => apply respects_emit
  | |- respects _ (map_err _ _) => apply respects_map_err
  | |- respects _ (modify_file _) =>
      apply respects_modify_file; intros; solve [auto]
  | |- respects _ (when ?b _) => unfold when; destruct b
  | |- respects _ (deref ?p) => unfold deref; destruct p
  | |- respects _ (binary_Read _ _) => unfold binary_Read, io_ReadFull
  | |- respects _ (io_ReadFull _ _) => unfold io_ReadFull
  | |- respects _ (match ?x with _ => _ end) => destruct x
  | |- respects _ (if ?b then _ else _) => destruct b
  | |- respects _ _ => solve [auto]
  end.

Ltac respects_all := repeat respects_step.

Lemma respects_log_reserved (vs : list Z) : forall i, respects R (log_reserved i vs).
Proof.
  induction vs as [|v vs IH]; intros i; cbn [log_reserved]; respects_all.
Qed.

Section WritesDOS.
Hypothesis R_doshdr : forall v f tr, R (f, tr) (File.set_doshdr v f, tr).

Lemma respects_parseDOSHeader : respects R parseDOSHeader.
Proof. unfold parseDOSHeader. respects_all; apply respects_log_reserved. Qed.

Lemma respects_DOSHeader : respects R DOSHeader.
Proof. unfold DOSHeader. pose proof respects_parseDOSHeader. respects_all. Qed.

Lemma respects_DOSStub : respects R DOSStub.
Proof. unfold DOSStub. pose proof respects_DOSHeader. respects_all. Qed.

Section WritesOpt.
Hypothesis R_opthdr : forall v f tr, R (f, tr) (File.set_opthdr v f, tr).

Lemma respects_parseOptHeader : respects R parseOptHeader.
Proof. unfold parseOptHeader. pose proof respects_DOSHeader. respects_all. Qed.

Lemma respects_OptHeader : respects R OptHeader.
Proof. unfold OptHeader. pose proof respects_parseOptHeader. respects_all. Qed.
End WritesOpt.

Section WritesFileHdr.
Hypothesis R_fileHdr : forall v f tr, R (f, tr) (File.set_fileHdr v f, tr).

Lemma respects_parseFileHeader : respects R parseFileHeader.
Proof. unfold parseFileHeader. pose proof respects_DOSHeader. respects_all. Qed.

Lemma respects_FileHeader : respects R FileHeader.
Proof. unfold FileHeader. pose proof respects_parseFileHeader. respects_all. Qed.

Section WritesSect.
Hypothesis R_sectHdrs : forall v f tr, R (f, tr) (File.set_sectHdrs v f, tr).

Lemma respects_readSectHeaders (idxs : list nat) :
  forall sr, respects R (readSectHeaders idxs sr).
Proof.
  induction idxs as [|i idxs IH]; intros sr; cbn [readSectHeaders];
    unfold set_sectHdr; respects_all.
Qed.

Lemma respects_parseSectHeaders : respects R parseSectHeaders.
Proof.
  unfold parseSectHeaders.
  pose proof respects_DOSHeader. pose proof respects_FileHeader.
  respects_all. apply respects_readSectHeaders.
Qed.

Lemma respects_SectHeaders : respects R SectHeaders.
Proof. unfold SectHeaders. pose proof respects_parseSectHeaders. respects_all. Qed.

Lemma respects_overlayStart_loop (l : list (option SectHeader.t)) :
  forall acc, respects R (overlayStart_loop l acc).
Proof.
  induction l as [|sh l IH]; intros acc; cbn [overlayStart_loop]; respects_all.
Qed.

Section WritesOverlay.
Hypothesis R_overlay : forall v f tr, R (f, tr) (File.set_overlay v f, tr).

Lemma respects_parseOverlay : respects R parseOverlay.
Proof.
  unfold parseOverlay. pose proof respects_SectHeaders.
  respects_all; apply respects_overlayStart_loop.
Qed.

Lemma respects_Overlay : respects R Overlay.
Proof. unfold Overlay. pose proof respects_parseOverlay. respects_all. Qed.
End WritesOverlay.

Section WritesAllHeaders.
Hypothesis R_opthdr : forall v f tr, R (f, tr) (File.set_opthdr v f, tr).

Lemma respects_Parse : respects R Parse.
Proof.
  unfold Parse.
  pose proof respects_parseDOSHeader. pose proof respects_parseFileHeader.
  pose proof (respects_parseOptHeader R_opthdr). pose proof respects_parseSectHeaders.
  respects_all.
Qed.
End WritesAllHeaders.
End WritesSect.
End WritesFileHdr.
End WritesDOS.
End Frame.

Lemma frame_refl (dos fh opt sh ov : bool) (st : state) : frame dos fh opt sh ov st st.
Proof.
  unfold frame. repeat (split; [reflexivity|]).
  exists []. symmetry. apply app_nil_r.
Qed.

Lemma frame_trans (dos fh opt sh ov : bool) (st1 st2 st3 : state) :
  frame dos fh opt sh ov st1 st2 -> frame dos fh opt sh ov st2 st3 ->
  frame dos fh opt sh ov st1 st3.
Proof.
  intros (Hd1 & Hf1 & Ho1 & Hs1 & Hv1 & Hr1 & tr1 & Ht1)
         (Hd2 & Hf2 & Ho2 & Hs2 & Hv2 & Hr2 & tr2 & Ht2).
  unfold frame.
  split; [intros H; rewrite Hd2, Hd1 by exact H; reflexivity|].
  split; [intros H; rewrite Hf2, Hf1 by exact H; reflexivity|].
  split; [intros H; rewrite Ho2, Ho1 by exact H; reflexivity|].
  split; [intros H; rewrite Hs2, Hs1 by exact H; reflexivity|].
  split; [intros H; rewrite Hv2, Hv1 by exact H; reflexivity|].
  split; [rewrite Hr2, Hr1; reflexivity|].
  exists (tr1 ++ tr2). rewrite Ht2, Ht1, app_assoc. reflexivity.
Qed.

Lemma frame_emit (dos fh opt sh ov : bool) (f : File.t) (tr : list event) (e : event) :
  frame dos fh opt sh ov (f, tr) (f, tr ++ [e]).
Proof.
  unfold frame. cbn [fst snd]. repeat (split; [reflexivity|]).
  exists [e]. reflexivity.
Qed.

Lemma frame_set_doshdr (fh opt sh ov : bool) (v : option DOSHeader.t)
    (f : File.t) (tr : list event) :
  frame false fh opt sh ov (f, tr) (File.set_doshdr v f, tr).
Proof.
  unfold frame. cbn [fst snd]. split; [discriminate|].
  repeat (split; [reflexivity|]). exists []. symmetry. apply app_nil_r.
Qed.

Lemma frame_set_fileHdr (dos opt sh ov : bool) (v : option FileHeader.t)
    (f : File.t) (tr : list event) :
  frame dos false opt sh ov (f, tr) (File.set_fileHdr v f, tr).
Proof.
  unfold frame. cbn [fst snd]. split; [reflexivity|]. split; [discriminate|].
  repeat (split; [reflexivity|]). exists []. symmetry. apply app_nil_r.
Qed.

Lemma frame_set_opthdr (dos fh sh ov : bool) (v : option OptHeader.t)
    (f : File.t) (tr : list event) :
  frame dos fh false sh ov (f, tr) (File.set_opthdr v f, tr).
Proof.
  unfold frame. cbn [fst snd]. do 2 (split; [reflexivity|]). split; [discriminate|].
  repeat (split; [reflexivity|]). exists []. symmetry. apply app_nil_r.
Qed.

Lemma frame_set_sectHdrs (dos fh opt ov : bool) (v : option (list (option SectHeader.t)))
    (f : File.t) (tr : list event) :
  frame dos fh opt false ov (f, tr) (File.set_sectHdrs v f, tr).
Proof.
  unfold frame. cbn [fst snd]. do 3 (split; [reflexivity|]). split; [discriminate|].
  repeat (split; [reflexivity|]). exists []. symmetry. apply app_nil_r.
Qed.

Lemma frame_set_overlay (dos fh opt sh : bool) (v : option (list byte))
    (f : File.t) (tr : list event) :
  frame dos fh opt sh false (f, tr) (File.set_overlay v f, tr).
Proof.
  unfold frame. cbn [fst snd]. do 4 (split; [reflexivity|]). split; [discriminate|].
  repeat (split; [reflexivity|]). exists []. symmetry. apply app_nil_r.
Qed.

(** X20.  What each method leaves alone, from any state of the file and
    whatever its outcome (result, error or panic).  No method replaces the
    byte source, and every method only adds to the trace of reads, allocations
    and log lines.  Besides its own cache, [DOSHeader] and [DOSStub] change
    nothing; [FileHeader] and [OptHeader] change at most the DOS header cache;
    [SectHeaders] at most the DOS and file header caches, never the optional
    header; [Overlay] at most those and the section headers, never the
    optional header; [Parse] never the overlay. *)
Theorem methods_leave_other_caches_alone (st : state) :
  frame false true true true true st (snd (DOSHeader st)) /\
  frame false true true true true st (snd (DOSStub st)) /\
  frame false false true true true st (snd (FileHeader st)) /\
  frame false true false true true st (snd (OptHeader st)) /\
  frame false false true false true st (snd (SectHeaders st)) /\
  frame false false true false false st (snd (Overlay st)) /\
  frame false false false false true st (snd (Parse st)).
Proof.
  split; [|split; [|split; [|split; [|split; [|split]]]]].
  - apply (respects_DOSHeader _ (frame_refl _ _ _ _ _) (frame_trans _ _ _ _ _)
             (frame_emit _ _ _ _ _) (frame_set_doshdr _ _ _ _)).
  - apply (respects_DOSStub _ (frame_refl _ _ _ _ _) (frame_trans _ _ _ _ _)
             (frame_emit _ _ _ _ _) (frame_set_doshdr _ _ _ _)).
  - apply (respects_FileHeader _ (frame_refl _ _ _ _ _) (frame_trans _ _ _ _ _)
             (frame_emit _ _ _ _ _) (frame_set_doshdr _ _ _ _)
             (frame_set_fileHdr _ _ _ _)).
  - apply (respects_OptHeader _ (frame_refl _ _ _ _ _) (frame_trans _ _ _ _ _)
             (frame_emit _ _ _ _ _) (frame_set_doshdr _ _ _ _)
             (frame_set_opthdr _ _ _ _)).
  - apply (respects_SectHeaders _ (frame_refl _ _ _ _ _) (frame_trans _ _ _ _ _)
             (frame_emit _ _ _ _ _) (frame_set_doshdr _ _ _ _)
             (frame_set_fileHdr _ _ _ _) (frame_set_sectHdrs _ _ _ _)).
  - apply (respects_Overlay _ (frame_refl _ _ _ _ _) (frame_trans _ _ _ _ _)
             (frame_emit _ _ _ _ _) (frame_set_doshdr _ _ _ _)
             (frame_set_fileHdr _ _ _ _) (frame_set_sectHdrs _ _ _ _)
             (frame_set_overlay _ _ _ _)).
  - apply (respects_Parse _ (frame_refl _ _ _ _ _) (frame_trans _ _ _ _ _)
             (frame_emit _ _ _ _ _) (frame_set_doshdr _ _ _ _)
             (frame_set_fileHdr _ _ _ _) (frame_set_sectHdrs _ _ _ _)
             (frame_set_opthdr _ _ _ _)).
Qed.
